(** * cropgui_common: the crop-region manager and the crop worker

    A shallow embedding of [cropgui_common.py] and the properties of its
    geometry helpers, of the [DragManagerBase] state machine and of the
    command a [CropTask] worker builds for one job.

    Conventions of the embedding.
    - Python integers are [Z]; [//] is [Z.div] (both floor, and both give the
      remainder the sign of the divisor), [>>] and [&] are [Z.shiftr] and
      [Z.land] (two's complement on unbounded integers, as in Python).
    - A [float] is the rational number it denotes ([Q]).  Where the source
      divides or multiplies floats (the aspect ratio of a locked drag, the
      scaling of [set_stdsize]) the result is rounded as binary64 rounds it,
      by [fl]: to 53 significant bits, ties to even.  The exponent range is
      not bounded, so [fl] is the binary64 operation as long as no result
      overflows or is subnormal, which no integer below [2 ^ 500] can
      cause here.  Quarters and halves of integers ([classify], the centring
      of [set_stdsize]) are exact, as they are in binary64 below [2 ^ 51].
    - An instance of [DragManagerBase] is its attribute dictionary, a finite
      map from attribute names to values; reading an attribute that is not
      there raises [AttributeError], as in Python.
    - A method is a function from the attribute dictionary to an outcome
      (a returned value or a raised exception) and the attribute dictionary
      at that point, so that whatever a method assigned before it raised
      stays assigned. *)

From Stdlib Require Import ZArith QArith Qround Qabs Qpower Lia Lqa List.
From stdpp Require Import gmap strings pretty.
Import ListNotations.
Local Open Scope string_scope.
Local Open Scope Z_scope.

(** ** Images and values *)

(** What the code looks at in a PIL image: its [format] tag ([None] for an
    image that was not read from a file) and its size. *)
Record Image := {
  format : option string;
  width : Z;
  height : Z
}.

(** [image.copy()] and [image.transpose(...)]: images made by the library
    carry no format tag; a quarter turn exchanges the two sizes. *)
Definition copy (i : Image) : Image :=
  {| format := None; width := width i; height := height i |}.

Definition transpose_180 (i : Image) : Image :=
  {| format := None; width := width i; height := height i |}.

Definition transpose_quarter (i : Image) : Image :=
  {| format := None; width := height i; height := width i |}.

(** The Python values an attribute of the manager can hold. *)
Inductive value :=
| VNone
| VInt (z : Z)
| VBool (b : bool)
| VImage (i : Image).

(** A value used as a number: [bool] is a subtype of [int] in Python. *)
Definition int_of (v : value) : option Z :=
  match v with
  | VInt z => Some z
  | VBool b => Some (Z.b2z b)
  | _ => None
  end.

(** [v in (z1, z2, ...)] and [v == z] for integer constants. *)
Definition in_tuple (v : value) (zs : list Z) : bool :=
  match int_of v with
  | Some z => existsb (Z.eqb z) zs
  | None => false
  end.

(** Truth value of [v] in a condition. *)
Definition truthy (v : value) : bool :=
  match v with
  | VNone => false
  | VInt z => negb (z =? 0)
  | VBool b => b
  | VImage _ => true
  end.

Inductive exn := AttributeError | TypeError | ValueError | ZeroDivisionError.

Inductive outcome (A : Type) :=
| Return (a : A)
| Raise (e : exn).
Arguments Return {A} a.
Arguments Raise {A} e.

(** ** Drag kinds: [list(range(10))] *)

Definition DRAG_NONE := 0.
Definition DRAG_TL := 1.
Definition DRAG_T := 2.
Definition DRAG_TR := 3.
Definition DRAG_L := 4.
Definition DRAG_C := 5.
Definition DRAG_R := 6.
Definition DRAG_BL := 7.
Definition DRAG_B := 8.
Definition DRAG_BR := 9.

(** ** Module-level helpers *)

Definition clamp (value low high : Z) : Z :=
  if value <? low then low
  else if high <? value then high
  else value.

(** The [while (ceiln != 0)] loop of [nextPowerOf2], run for at most [fuel]
    iterations: [Some count] when the loop was left, [None] when [fuel]
    iterations did not bring [ceiln] to [0]. *)
Fixpoint shift_loop (fuel : nat) (ceiln count : Z) : option Z :=
  if ceiln =? 0 then Some count
  else match fuel with
       | O => None
       | S fuel' => shift_loop fuel' (Z.shiftr ceiln 1) (count + 1)
       end.

Definition nextPowerOf2 (fuel : nat) (n : Q) : option Z :=
  let count := 0 in
  let ceiln := Qceiling n in
  if negb (ceiln =? 0) && (Z.land ceiln (ceiln - 1) =? 0) then Some ceiln
  else match shift_loop fuel ceiln count with
       | Some count => Some (Z.shiftl 1 count)
       | None => None
       end.

(** ["%d" % z] *)
Definition fmt_d (z : Z) : string := pretty z.

Definition is_jpeg (image : Image) : bool :=
  bool_decide (format image = Some "JPEG") || bool_decide (format image = Some "MPO").

Definition get_cropspec (image : Image) (corners : Z * Z * Z * Z) (rotation : Z) : string :=
  let '(t, l, r, b) := corners in
  let w := r - l in
  let h := b - t in
  if is_jpeg image
  then fmt_d w +:+ "fx" +:+ fmt_d h +:+ "f+" +:+ fmt_d l +:+ "+" +:+ fmt_d t
  else fmt_d w +:+ "x" +:+ fmt_d h +:+ "+" +:+ fmt_d l +:+ "+" +:+ fmt_d t.

(** ** The crop worker *)

Record CropRequest := {
  image : Image;
  image_name : string;
  corners : Z * Z * Z * Z;
  rotation : Z;
  target : string
}.

Definition rotation_name (rotation_int : Z) : string :=
  if rotation_int =? 3 then "180"
  else if rotation_int =? 6 then "90"
  else if rotation_int =? 8 then "270"
  else "none".

(** The command one iteration of [CropTask.runner] builds for [task];
    [windows] is [platform.system() == 'Windows']. *)
Definition runner_command (windows : bool) (task : CropRequest) : list string :=
  let image := image task in
  let image_name := image_name task in
  let rotation_int := rotation task in
  let target := target task in
  let '(t, l, r, b) := corners task in
  let cropspec := get_cropspec image (corners task) rotation_int in
  let rotation := rotation_name rotation_int in
  if (r + b - l - t =? width image + height image) && String.eqb rotation "none" then
    if windows then ["copy"; image_name; target]
    else ["nice"; "cp"; image_name; target]
  else if is_jpeg image then
    let command := if windows then ["jpegtran"] else ["nice"; "jpegtran"] in
    let command := if negb (String.eqb rotation "none")
                   then (command ++ ["-rotate"; rotation])%list else command in
    (command ++ ["-copy"; "all"; "-crop"; cropspec; "-outfile"; target; image_name])%list
  else
    let command := if windows then ["magick"] else ["nice"; "convert"] in
    let command := if negb (String.eqb rotation "none")
                   then (command ++ ["-rotate"; rotation])%list else command in
    (command ++ [image_name; "-crop"; cropspec; "+repage"; target])%list.

(** The two shapes of the plain copy, and the programs of the other two
    branches. *)
Definition copy_command (windows : bool) (task : CropRequest) : list string :=
  if windows then ["copy"; image_name task; target task]
  else ["nice"; "cp"; image_name task; target task].

Definition program (windows : bool) (command : list string) : string :=
  if windows then hd "" command else hd "" (tl command).

(** ** [DragManagerBase.fix] *)

(** [sorted((a, b))] *)
Definition sorted2 (a b : Z) : Z * Z := if b <? a then (b, a) else (a, b).

(** [fix(a, b, lim, r, reverse)]. [int(a)] and [int(b)] raise [TypeError] on
    [None]; arithmetic with a [lim] or an [r] that is not a number raises
    [TypeError]; [// r] raises [ZeroDivisionError] when [r] is [0].  [lim] is
    only used when [reverse] holds. *)
Definition fix_ (a b lim r : value) (reverse : bool) : outcome (Z * Z) :=
  match int_of a, int_of b with
  | Some a, Some b =>
      let '(a, b) := sorted2 a b in
      if reverse then
        match int_of lim, int_of r with
        | Some lim, Some r =>
            if r =? 0 then Raise ZeroDivisionError
            else
              let a := lim - (((lim - a) + r - 1) / r) * r in
              let a := if a <? 0 then a + r else a in
              Return (a, b)
        | _, _ => Raise TypeError
        end
      else
        match int_of r with
        | Some r =>
            if r =? 0 then Raise ZeroDivisionError
            else Return ((a / r) * r, b)
        | None => Raise TypeError
        end
  | _, _ => Raise TypeError
  end.

(** ** Methods as state transformers that can raise *)

Definition M (A : Type) : Type :=
  gmap string value -> outcome A * gmap string value.

#[global] Instance M_ret : MRet M := fun A a self => (Return a, self).

#[global] Instance M_bind : MBind M := fun A B k m self =>
  match m self with
  | (Return a, self') => k a self'
  | (Raise e, self') => (Raise e, self')
  end.

Definition raise {A : Type} (e : exn) : M A := fun self => (Raise e, self).

Definition lift {A : Type} (o : outcome A) : M A := fun self => (o, self).

(** [self.name] *)
Definition getattr (name : string) : M value := fun self =>
  match self !! name with
  | Some v => (Return v, self)
  | None => (Raise AttributeError, self)
  end.

(** [self.name = v] *)
Definition setattr (name : string) (v : value) : M unit := fun self =>
  (Return tt, <[name := v]> self).

(** [if hasattr(self, name): del self.name] *)
Definition del_if_present (name : string) : M unit := fun self =>
  (Return tt, delete name self).

(** A value where the code needs a number. *)
Definition to_int (v : value) : M Z :=
  match int_of v with
  | Some z => mret z
  | None => raise TypeError
  end.

Definition self_int (name : string) : M Z :=
  v ← getattr name; to_int v.

(** A method call on an image object. *)
Definition as_image (v : value) : M Image :=
  match v with
  | VImage i => mret i
  | _ => raise AttributeError
  end.

(** [u == v] on the values the manager stores. *)
Definition py_eq (u v : value) : bool :=
  match int_of u, int_of v with
  | Some a, Some b => a =? b
  | None, None =>
      match u, v with
      | VNone, VNone => true
      | VImage i, VImage j =>
          bool_decide (format i = format j) && (width i =? width j) && (height i =? height j)
      | _, _ => false
      end
  | _, _ => false
  end.

(** Modelled from the spec: [render] is not defined in [DragManagerBase];
    the front end that subclasses it supplies the method.  The manager
    "triggers re-render" through it: it redraws the display and leaves the
    geometry attributes alone. *)
Definition render : M unit := mret tt.

(** Modelled from the spec: [image_set] is the other method the front end
    supplies; it is called when the displayed image has been recomputed and
    leaves the geometry attributes alone as well. *)
Definition image_set : M unit := mret tt.

Definition get_rotation : M value := getattr "_rotation".

Definition get_image : M value := getattr "_image".

Definition get_corners : M (value * value * value * value) :=
  t ← getattr "top";
  l ← getattr "left";
  r ← getattr "right";
  b ← getattr "bottom";
  mret (t, l, r, b).

Definition save_prev_crop : M unit :=
  w ← getattr "w"; setattr "prev_w" w;;
  h ← getattr "h"; setattr "prev_h" h;;
  top ← getattr "top"; setattr "prev_top" top;;
  bottom ← getattr "bottom"; setattr "prev_bottom" bottom;;
  left ← getattr "left"; setattr "prev_left" left;;
  right ← getattr "right"; setattr "prev_right" right.

Definition apply_rotation (image : value) : M value :=
  r ← get_rotation;
  if in_tuple r [1] then i ← as_image image; mret (VImage (copy i)) else
  r ← get_rotation;
  if in_tuple r [3] then i ← as_image image; mret (VImage (transpose_180 i)) else
  r ← get_rotation;
  if in_tuple r [6] then i ← as_image image; mret (VImage (transpose_quarter i)) else
  r ← get_rotation;
  if in_tuple r [8] then i ← as_image image; mret (VImage (transpose_quarter i)) else
  mret VNone.

(** The test [self.w == 0 or self.w != self.prev_w or self.h != self.prev_h],
    with the short-circuit evaluation of [or]. *)
Definition size_changed : M bool :=
  w ← getattr "w";
  if in_tuple w [0] then mret true else
  w ← getattr "w"; prev_w ← getattr "prev_w";
  if negb (py_eq w prev_w) then mret true else
  h ← getattr "h"; prev_h ← getattr "prev_h";
  mret (negb (py_eq h prev_h)).

Definition image_or_rotation_changed : M unit :=
  orig ← getattr "_orig_image";
  image ← apply_rotation orig;
  setattr "_image" image;;
  changed ← size_changed;
  ((if (changed : bool) then
     h ← getattr "h"; lim ← getattr "h"; round_y ← getattr "round_y";
     rotation ← get_rotation;
     tb ← lift (fix_ (VInt 0) h lim round_y (in_tuple rotation [3; 8]));
     setattr "top" (VInt tb.1);; setattr "bottom" (VInt tb.2);;
     w ← getattr "w"; lim ← getattr "w"; round_x ← getattr "round_x";
     rotation ← get_rotation;
     lr ← lift (fix_ (VInt 0) w lim round_x (in_tuple rotation [3; 6]));
     setattr "left" (VInt lr.1);; setattr "right" (VInt lr.2)
   else
     prev_top ← getattr "prev_top"; prev_bottom ← getattr "prev_bottom";
     setattr "top" prev_top;; setattr "bottom" prev_bottom;;
     prev_left ← getattr "prev_left"; prev_right ← getattr "prev_right";
     setattr "left" prev_left;; setattr "right" prev_right) : M unit);;
  blurred ← as_image image;
  get_image;;
  smooth ← as_image image;
  setattr "blurred" (VImage (copy smooth));;
  inverted ← as_image image;
  setattr "xor" (VImage (copy inverted));;
  image_set;;
  render.

(** The setter of the [image] property. *)
Definition set_image (image : value) : M unit :=
  match image with
  | VNone =>
      del_if_present "left";;
      del_if_present "right";;
      del_if_present "bottom";;
      del_if_present "blurred";;
      del_if_present "xor";;
      setattr "_image" VNone
  | _ =>
      i ← as_image image;
      setattr "_orig_image" (VImage (copy i));;
      setattr "_rotation" (VInt 1);;
      image_or_rotation_changed
  end.

(** [__init__]. Its last line reads [self.prev_left = self=prev_right = 0]:
    a chained assignment that stores [0] in [self.prev_left] and then rebinds
    the local names [self] and [prev_right]; no attribute [prev_right] is
    created. *)
Definition __init__ : M unit :=
  setattr "render_flag" (VInt 0);;
  setattr "show_handles" (VBool true);;
  setattr "state" (VInt DRAG_NONE);;
  setattr "round_x" VNone;;
  setattr "round_y" VNone;;
  set_image VNone;;
  setattr "w" (VInt 0);;
  setattr "h" (VInt 0);;
  setattr "left" (VInt 0);; setattr "right" (VInt 0);;
  setattr "top" (VInt 0);; setattr "bottom" (VInt 0);;
  setattr "prev_w" (VInt 0);; setattr "prev_h" (VInt 0);;
  setattr "prev_top" (VInt 0);; setattr "prev_bottom" (VInt 0);;
  setattr "prev_left" (VInt 0).

Definition set_crop (top left right bottom : value) : M unit :=
  h ← getattr "h"; round_y ← getattr "round_y"; rotation ← get_rotation;
  tb ← lift (fix_ top bottom h round_y (in_tuple rotation [3; 8]));
  setattr "top" (VInt tb.1);; setattr "bottom" (VInt tb.2);;
  w ← getattr "w"; round_x ← getattr "round_x"; rotation ← get_rotation;
  lr ← lift (fix_ left right w round_x (in_tuple rotation [3; 6]));
  setattr "left" (VInt lr.1);; setattr "right" (VInt lr.2);;
  render.

(** ** Screen coordinates and [classify] *)

(** [int(v / int(self.scale))]: true division, then truncation. *)
Definition to_screen (v : value) : M Z :=
  scale ← getattr "scale";
  s ← to_int scale;
  z ← to_int v;
  if s =? 0 then raise ZeroDivisionError else mret (Z.quot z s).

Definition get_screencorners : M (Z * Z * Z * Z) :=
  c ← get_corners;
  let '(t, l, r, b) := c in
  t ← to_screen t;
  l ← to_screen l;
  r ← to_screen r;
  b ← to_screen b;
  mret (t, l, r, b).

Definition Qltb (a b : Q) : bool := negb (Qle_bool b a).

(** The body of [classify] below the call of [get_screencorners]. *)
Definition classify_at (t l r b x y : Z) : Z :=
  let dx := (inject_Z (r - l) / 4)%Q in
  let dy := (inject_Z (b - t) / 4)%Q in
  if x <? l then DRAG_NONE else
  if r <? x then DRAG_NONE else
  if y <? t then DRAG_NONE else
  if b <? y then DRAG_NONE else
  if Qltb (inject_Z x) (inject_Z l + dx) then
    if Qltb (inject_Z y) (inject_Z t + dy) then DRAG_TL else
    if Qltb (inject_Z y) (inject_Z b - dy) then DRAG_L else
    DRAG_BL
  else if Qltb (inject_Z x) (inject_Z r - dx) then
    if Qltb (inject_Z y) (inject_Z t + dy) then DRAG_T else
    if Qltb (inject_Z y) (inject_Z b - dy) then DRAG_C else
    DRAG_B
  else
    if Qltb (inject_Z y) (inject_Z t + dy) then DRAG_TR else
    if Qltb (inject_Z y) (inject_Z b - dy) then DRAG_R else
    DRAG_BR.

Definition classify (x y : Z) : M Z :=
  c ← get_screencorners;
  let '(t, l, r, b) := c in
  mret (classify_at t l r b x y).

(** ** The drag state machine *)

Definition drag_start (x y : Z) (fixed : bool) : M unit :=
  setattr "x0" (VInt x);;
  setattr "y0" (VInt y);;
  top ← getattr "top"; setattr "t0" top;;
  left ← getattr "left"; setattr "l0" left;;
  right ← getattr "right"; setattr "r0" right;;
  bottom ← getattr "bottom"; setattr "b0" bottom;;
  kind ← classify x y;
  setattr "state" (VInt kind);;
  state ← getattr "state";
  if in_tuple state [DRAG_TL; DRAG_TR; DRAG_BL; DRAG_BR]
  then setattr "fixed_ratio" (VBool fixed)
  else setattr "fixed_ratio" (VBool false).

(** [round(q)] of Python 3: to the nearest integer, ties to the even one. *)
Definition py_round (q : Q) : Z :=
  let f := Qfloor q in
  match (q - inject_Z f ?= 1 # 2)%Q with
  | Lt => f
  | Gt => f + 1
  | Eq => if Z.even f then f else f + 1
  end.

(** *** Floats *)

(** The exponent of a positive rational: [2 ^ e <= q < 2 ^ (e + 1)]. *)
Definition Qlog2 (q : Q) : Z :=
  let e := Z.log2 (Qnum q) - Z.log2 (Zpos (Qden q)) in
  if Qltb q (2 ^ e) then e - 1 else e.

(** Rounding to a float: the nearest multiple of the unit in the last of 53
    significant bits, ties to the even one. *)
Definition fl (q : Q) : Q :=
  if Qeq_bool q 0 then 0%Q
  else let ulp := (2 ^ (Qlog2 (Qabs q) - 52))%Q in
       (inject_Z (py_round (q / ulp)) * ulp)%Q.

(** [float(z)], the conversion an integer operand of a float operation
    goes through. *)
Definition to_float (z : Z) : Q := fl (inject_Z z).

(** [a * b] on floats. *)
Definition fmul (a b : Q) : Q := fl (a * b).

(** [a / b] on floats, and on integers, where Python rounds the exact
    quotient. *)
Definition true_div (a b : Q) : M Q :=
  if Qeq_bool b 0 then raise ZeroDivisionError else mret (fl (a / b)).

Definition drag_continue (x y : Z) : M unit :=
  x0 ← self_int "x0"; scale ← self_int "scale";
  let dx := (x - x0) * scale in
  y0 ← self_int "y0"; scale ← self_int "scale";
  let dy := (y - y0) * scale in
  fixed_ratio ← getattr "fixed_ratio";
  d ← (if truthy fixed_ratio then
         r0 ← self_int "r0"; l0 ← self_int "l0";
         b0 ← self_int "b0"; t0 ← self_int "t0";
         ratio ← true_div (fmul (to_float (r0 - l0)) 1) (to_float (b0 - t0));
         state ← getattr "state";
         let ratio := if in_tuple state [DRAG_TR; DRAG_BL] then (- ratio)%Q else ratio in
         q ← true_div (to_float dx) ratio;
         if Qltb (Qabs (inject_Z dy)) (Qabs q)
         then q ← true_div (to_float dx) ratio; mret (dx, py_round q)
         else mret (py_round (fmul (to_float dy) ratio), dy)
       else mret (dx, dy));
  let dx := (d : Z * Z).1 in
  let dy := d.2 in
  c ← get_corners;
  let '(new_top, new_left, new_right, new_bottom) := c in
  state ← getattr "state";
  d ← (if in_tuple state [DRAG_C] then
         (* A center drag bumps into the edges *)
         dx ← (if 0 <? dx
               then w ← self_int "w"; r0 ← self_int "r0"; mret (Z.min dx (w - r0))
               else l0 ← self_int "l0"; mret (Z.max dx (- l0)));
         dy ← (if 0 <? dy
               then h ← self_int "h"; b0 ← self_int "b0"; mret (Z.min dy (h - b0))
               else t0 ← self_int "t0"; mret (Z.max dy (- t0)));
         mret (dx, dy)
       else mret (dx, dy));
  let dx := (d : Z * Z).1 in
  let dy := d.2 in
  state ← getattr "state";
  new_top ← (if in_tuple state [DRAG_TL; DRAG_T; DRAG_TR; DRAG_C]
             then t0 ← self_int "t0"; mret (VInt (t0 + dy)) else mret new_top);
  state ← getattr "state";
  new_left ← (if in_tuple state [DRAG_TL; DRAG_L; DRAG_BL; DRAG_C]
              then l0 ← self_int "l0"; mret (VInt (l0 + dx)) else mret new_left);
  state ← getattr "state";
  new_right ← (if in_tuple state [DRAG_TR; DRAG_R; DRAG_BR; DRAG_C]
               then r0 ← self_int "r0"; mret (VInt (r0 + dx)) else mret new_right);
  state ← getattr "state";
  new_bottom ← (if in_tuple state [DRAG_BL; DRAG_B; DRAG_BR; DRAG_C]
                then b0 ← self_int "b0"; mret (VInt (b0 + dy)) else mret new_bottom);
  (* Keep every type of drag within the image bounds *)
  new_top ← to_int new_top;
  let new_top := if new_top <? 0 then 0 else new_top in
  new_left ← to_int new_left;
  let new_left := if new_left <? 0 then 0 else new_left in
  w ← getattr "w"; new_right ← to_int new_right; w ← to_int w;
  new_right ← (if w <=? new_right
               then w ← self_int "w"; mret (w - 1) else mret new_right);
  h ← getattr "h"; new_bottom ← to_int new_bottom; h ← to_int h;
  new_bottom ← (if h <=? new_bottom
                then h ← self_int "h"; mret (h - 1) else mret new_bottom);
  (* A drag never moves left past right and so on *)
  state ← getattr "state";
  c ← (if negb (in_tuple state [DRAG_C]) then
         bottom ← self_int "bottom";
         let new_top := Z.min (bottom - 1) new_top in
         right ← self_int "right";
         let new_left := Z.min (right - 1) new_left in
         left ← self_int "left";
         let new_right := Z.max (left + 1) new_right in
         top ← self_int "top";
         let new_bottom := Z.max (top + 1) new_bottom in
         mret (new_top, new_left, new_right, new_bottom)
       else mret (new_top, new_left, new_right, new_bottom));
  let '(new_top, new_left, new_right, new_bottom) := (c : Z * Z * Z * Z) in
  set_crop (VInt new_top) (VInt new_left) (VInt new_right) (VInt new_bottom).

Definition drag_end (x y : Z) : M unit :=
  top ← getattr "top"; left ← getattr "left";
  right ← getattr "right"; bottom ← getattr "bottom";
  set_crop top left right bottom;;
  setattr "state" (VInt DRAG_NONE).

(** ** Rotation *)

Definition _flip_dimensions : M unit :=
  h ← getattr "h"; w ← getattr "w";
  setattr "w" h;; setattr "h" w;;
  round_y ← getattr "round_y"; round_x ← getattr "round_x";
  setattr "round_x" round_y;; setattr "round_y" round_x.

(** The setter of the [rotation] property. [print] only writes to the
    terminal, after reading [self.rotation]. *)
Definition set_rotation (rotation : value) : M unit :=
  if negb (in_tuple rotation [1; 3; 6; 8]) then raise ValueError else
  get_rotation;;
  setattr "_rotation" rotation;;
  image_or_rotation_changed.

Definition rotate_ccw : M unit :=
  _flip_dimensions;;
  r ← get_rotation;
  let r := if in_tuple r [1] then VInt 8
           else if in_tuple r [8] then VInt 3
           else if in_tuple r [3] then VInt 6
           else if in_tuple r [6] then VInt 1
           else r in
  set_rotation r.

Definition rotate_cw : M unit :=
  _flip_dimensions;;
  r ← get_rotation;
  let r := if in_tuple r [1] then VInt 6
           else if in_tuple r [6] then VInt 3
           else if in_tuple r [3] then VInt 8
           else if in_tuple r [8] then VInt 1
           else r in
  set_rotation r.

(** ** The arithmetic of the methods, on integers

    The functions of this section restate, on plain integers, what [fix] and
    [drag_continue] compute when every attribute they read is an integer;
    the lemmas [fix_int] and [drag_continue_run] below prove that they agree
    with the methods. *)

(** The anchored edge of [fix]: the lower end [a] of the sorted interval,
    aligned to the granularity [r] from [0] or, with [reverse], from [lim]. *)
Definition anchor (a lim r : Z) (reverse : bool) : Z :=
  if reverse then
    let a := lim - (((lim - a) + r - 1) / r) * r in
    if a <? 0 then a + r else a
  else (a / r) * r.

(** The pair [fix] returns for integer arguments and a granularity [r <> 0]. *)
Definition align (a b lim r : Z) (reverse : bool) : Z * Z :=
  let '(a, b) := sorted2 a b in
  if reverse then
    let a := lim - (((lim - a) + r - 1) / r) * r in
    let a := if a <? 0 then a + r else a in
    (a, b)
  else ((a / r) * r, b).

(** [self.rotation in (3, 8)] and [self.rotation in (3, 6)] for an integer
    rotation: the axes whose origin the rotation reverses. *)
Definition reverse_y (rot : Z) : bool := bool_decide (rot = 3 \/ rot = 8).

Definition reverse_x (rot : Z) : bool := bool_decide (rot = 3 \/ rot = 6).

(** The deltas of an aspect-locked drag of kind [k] whose snapshot rectangle
    is [(t0, l0, r0, b0)], from the scaled pointer deltas [dx] and [dy]. *)
Definition locked_delta (k t0 l0 r0 b0 dx dy : Z) : Z * Z :=
  let ratio := fl (fmul (to_float (r0 - l0)) 1 / to_float (b0 - t0)) in
  let ratio := if in_tuple (VInt k) [DRAG_TR; DRAG_BL] then (- ratio)%Q else ratio in
  if Qltb (Qabs (inject_Z dy)) (Qabs (fl (to_float dx / ratio)))
  then (dx, py_round (fl (to_float dx / ratio)))
  else (py_round (fmul (to_float dy) ratio), dy).

Definition pointer_delta (fixed : bool) (k t0 l0 r0 b0 dx dy : Z) : Z * Z :=
  if fixed then locked_delta k t0 l0 r0 b0 dx dy else (dx, dy).

(** The four edges [drag_continue] hands to [set_crop]: drag kind [k], image
    size [W] by [H], snapshot [(t0, l0, r0, b0)], current rectangle
    [(top, left, right, bottom)], deltas [dx] and [dy]. *)
Definition drag_target (k W H t0 l0 r0 b0 top left right bottom dx dy : Z) : Z * Z * Z * Z :=
  let d :=
    if in_tuple (VInt k) [DRAG_C]
    then (if 0 <? dx then Z.min dx (W - r0) else Z.max dx (- l0),
          if 0 <? dy then Z.min dy (H - b0) else Z.max dy (- t0))
    else (dx, dy) in
  let dx := d.1 in
  let dy := d.2 in
  let new_top := if in_tuple (VInt k) [DRAG_TL; DRAG_T; DRAG_TR; DRAG_C] then t0 + dy else top in
  let new_left := if in_tuple (VInt k) [DRAG_TL; DRAG_L; DRAG_BL; DRAG_C] then l0 + dx else left in
  let new_right := if in_tuple (VInt k) [DRAG_TR; DRAG_R; DRAG_BR; DRAG_C] then r0 + dx else right in
  let new_bottom := if in_tuple (VInt k) [DRAG_BL; DRAG_B; DRAG_BR; DRAG_C] then b0 + dy else bottom in
  let new_top := if new_top <? 0 then 0 else new_top in
  let new_left := if new_left <? 0 then 0 else new_left in
  let new_right := if W <=? new_right then W - 1 else new_right in
  let new_bottom := if H <=? new_bottom then H - 1 else new_bottom in
  if negb (in_tuple (VInt k) [DRAG_C])
  then (Z.min (bottom - 1) new_top, Z.min (right - 1) new_left,
        Z.max (left + 1) new_right, Z.max (top + 1) new_bottom)
  else (new_top, new_left, new_right, new_bottom).

(** The image [apply_rotation] returns for an installed image [i]. *)
Definition turned (rot : Z) (i : Image) : value :=
  if in_tuple (VInt rot) [1] then VImage (copy i)
  else if in_tuple (VInt rot) [3] then VImage (transpose_180 i)
  else if in_tuple (VInt rot) [6] then VImage (transpose_quarter i)
  else if in_tuple (VInt rot) [8] then VImage (transpose_quarter i)
  else VNone.

(** The value of [self.w == 0 or self.w != self.prev_w or
    self.h != self.prev_h] for integer sizes. *)
Definition size_test (W H pw ph : Z) : bool :=
  if in_tuple (VInt W) [0] then true
  else if negb (py_eq (VInt W) (VInt pw)) then true
  else negb (py_eq (VInt H) (VInt ph)).

(** ** Views of the attribute dictionary *)

(** [m] returns [a] and leaves the attributes as they are. *)
Definition reads {A : Type} (m : M A) (self : gmap string value) (a : A) : Prop :=
  m self = (Return a, self).

(** The attributes after running [m], whether it returned or raised. *)
Definition after {A : Type} (m : M A) (self : gmap string value) : gmap string value :=
  (m self).2.

(** The attributes every geometry method reads, on a manager with an image
    installed: the size, the two granularities and the rotation. *)
Record loaded (self : gmap string value) (W H rx ry rot : Z) : Prop := {
  loaded_w : self !! "w" = Some (VInt W);
  loaded_h : self !! "h" = Some (VInt H);
  loaded_round_x : self !! "round_x" = Some (VInt rx);
  loaded_round_y : self !! "round_y" = Some (VInt ry);
  loaded_rotation : self !! "_rotation" = Some (VInt rot)
}.

(** The crop rectangle stored in the manager. *)
Record corners_are (self : gmap string value) (t l r b : Z) : Prop := {
  corners_top : self !! "top" = Some (VInt t);
  corners_left : self !! "left" = Some (VInt l);
  corners_right : self !! "right" = Some (VInt r);
  corners_bottom : self !! "bottom" = Some (VInt b)
}.

(** What [drag_start] leaves behind: the drag kind, the anchor, the snapshot
    rectangle and the aspect lock; [scale] is set by the front end. *)
Record dragging (self : gmap string value)
    (k x0 y0 t0 l0 r0 b0 : Z) (fixed : bool) (scale : Z) : Prop := {
  dragging_state : self !! "state" = Some (VInt k);
  dragging_x0 : self !! "x0" = Some (VInt x0);
  dragging_y0 : self !! "y0" = Some (VInt y0);
  dragging_t0 : self !! "t0" = Some (VInt t0);
  dragging_l0 : self !! "l0" = Some (VInt l0);
  dragging_r0 : self !! "r0" = Some (VInt r0);
  dragging_b0 : self !! "b0" = Some (VInt b0);
  dragging_fixed : self !! "fixed_ratio" = Some (VBool fixed);
  dragging_scale : self !! "scale" = Some (VInt scale)
}.

(** A manager on which a change of rotation goes through: the image is
    loaded with granularities other than 0 and one of the four rotation
    codes, and the remembered size is there; the remembered rectangle is
    there too unless nothing was ever remembered ([prev_w] still [0]). *)
Record ready (self : gmap string value) (W H rx ry rot : Z) : Prop := {
  ready_loaded : loaded self W H rx ry rot;
  ready_round_x : rx ≠ 0;
  ready_round_y : ry ≠ 0;
  ready_rotation : In rot [1; 3; 6; 8];
  ready_image : exists i, self !! "_orig_image" = Some (VImage i);
  ready_prev : exists pw ph,
    self !! "prev_w" = Some (VInt pw) /\
    self !! "prev_h" = Some (VInt ph) /\
    (pw = 0 \/
     (is_Some (self !! "prev_top") /\ is_Some (self !! "prev_bottom") /\
      is_Some (self !! "prev_left") /\ is_Some (self !! "prev_right")))
}.

(** The attributes [image_or_rotation_changed] assigns. *)
Definition redrawn : list string :=
  ["_image"; "top"; "bottom"; "left"; "right"; "blurred"; "xor"].

(** The successor of a rotation code under [rotate_cw]. *)
Definition cw_cycle : list (Z * Z) := [(1, 6); (6, 3); (3, 8); (8, 1)].

(** ** Rectangles *)

(** The invariant of the crop rectangle: [0 <= left < right <= width] and
    [0 <= top < bottom <= height]. *)
Definition rect_ok (W H t l r b : Z) : Prop :=
  0 <= l < r /\ r <= W /\ 0 <= t < b /\ b <= H.

(** The four edges lie inside [[0, width] x [0, height]]. *)
Definition inside (W H t l r b : Z) : Prop :=
  0 <= t <= H /\ 0 <= b <= H /\ 0 <= l <= W /\ 0 <= r <= W.

(** What every call of a drag other than a centre drag keeps of the current
    rectangle: each near edge leaves room for the far one. *)
Definition roomy (W H t l r b : Z) : Prop :=
  (0 <= t <= H - 1 /\ 1 <= b <= H) /\ (0 <= l <= W - 1 /\ 1 <= r <= W).

(** The state of a drag between two calls of [drag_continue]. *)
Definition in_drag (self : gmap string value)
    (W H rx ry rot k x0 y0 t0 l0 r0 b0 : Z) (fixed : bool) (scale : Z) : Prop :=
  loaded self W H rx ry rot /\
  dragging self k x0 y0 t0 l0 r0 b0 fixed scale /\
  exists t l r b,
    corners_are self t l r b /\ (k ≠ DRAG_C -> roomy W H t l r b).

(** The calls of [drag_continue] of one drag, one per pointer position. *)
Fixpoint drag_moves (ps : list (Z * Z)) : M unit :=
  match ps with
  | [] => mret tt
  | p :: ps' => drag_continue p.1 p.2;; drag_moves ps'
  end.

(** ** Aspect-locked drags *)

(** The rectangle a drag of kind [k] asks for: the snapshot with the edges
    of that kind moved by the deltas. *)
Definition moved (k t0 l0 r0 b0 dx dy : Z) : Z * Z * Z * Z :=
  (if in_tuple (VInt k) [DRAG_TL; DRAG_T; DRAG_TR; DRAG_C] then t0 + dy else t0,
   if in_tuple (VInt k) [DRAG_TL; DRAG_L; DRAG_BL; DRAG_C] then l0 + dx else l0,
   if in_tuple (VInt k) [DRAG_TR; DRAG_R; DRAG_BR; DRAG_C] then r0 + dx else r0,
   if in_tuple (VInt k) [DRAG_BL; DRAG_B; DRAG_BR; DRAG_C] then b0 + dy else b0).

(** The rectangle asked for when the pointer is at [p], in a locked drag of
    kind [k] anchored at [(x0, y0)] with snapshot [(t0, l0, r0, b0)]. *)
Definition locked_target (k x0 y0 scale t0 l0 r0 b0 : Z) (p : Z * Z) : Z * Z * Z * Z :=
  let d := locked_delta k t0 l0 r0 b0 ((p.1 - x0) * scale) ((p.2 - y0) * scale) in
  moved k t0 l0 r0 b0 d.1 d.2.

(** How far from [0] an edge has to stay for [fix] not to push it inwards:
    one pixel less than the granularity when the origin is reversed. *)
Definition margin (r : Z) (reverse : bool) : Z := if reverse then r - 1 else 0.

(** No clamp applies to the rectangle [c]: neither the clamps of
    [drag_continue] to the image and to the opposite edges, nor the step
    inwards of [fix]. *)
Definition unclamped (W H mx my : Z) (c : Z * Z * Z * Z) : Prop :=
  mx <= c.1.1.2 < c.1.2 /\ c.1.2 < W /\ my <= c.1.1.1 < c.2 /\ c.2 < H.

(** A rectangle [w] by [h] has the ratio of [w0] by [h0] up to the rounding
    of one of its sides to the nearest integer. *)
Definition ratio_kept (w0 h0 w h : Z) : Prop :=
  2 * Z.abs (w * h0 - h * w0) <= Z.max w0 h0.

(** The same up to the alignment of the left and the top edge as well, which
    widens the rectangle by less than the granularity [rx] and heightens it
    by less than [ry]. *)
Definition ratio_near (rx ry w0 h0 w h : Z) : Prop :=
  2 * Z.abs (w * h0 - h * w0)
  <= Z.max w0 h0 + 2 * Z.max ((rx - 1) * h0) ((ry - 1) * w0).

(** A weaker reading: some rectangle with exactly the ratio of [w0] by [h0]
    is within [tol] pixels of [w] by [h] on each side; then
    [|w * h0 - h * w0| <= tol * (w0 + h0)]. *)
Definition ratio_within (tol w0 h0 w h : Z) : Prop :=
  Z.abs (w * h0 - h * w0) <= tol * (w0 + h0).

(** The state of an aspect-locked corner drag in which no call was clamped
    so far: the edges the drag does not move are those of the snapshot, the
    top and left ones possibly aligned by an earlier call. *)
Definition in_locked_drag (self : gmap string value)
    (W H rx ry rot k x0 y0 t0 l0 r0 b0 scale : Z) : Prop :=
  loaded self W H rx ry rot /\
  dragging self k x0 y0 t0 l0 r0 b0 true scale /\
  exists t l r b,
    corners_are self t l r b /\
    0 <= t < b /\ 0 <= l < r /\
    (in_tuple (VInt k) [DRAG_TL; DRAG_T; DRAG_TR; DRAG_C] = false ->
     t = t0 \/ t = anchor t0 H ry (in_tuple (VInt rot) [3; 8])) /\
    (in_tuple (VInt k) [DRAG_TL; DRAG_L; DRAG_BL; DRAG_C] = false ->
     l = l0 \/ l = anchor l0 W rx (in_tuple (VInt rot) [3; 6])) /\
    (in_tuple (VInt k) [DRAG_TR; DRAG_R; DRAG_BR; DRAG_C] = false -> r = r0) /\
    (in_tuple (VInt k) [DRAG_BL; DRAG_B; DRAG_BR; DRAG_C] = false -> b = b0).

(** ** A manager with an image open

    Modelled from the spec: the display layer (the front end, which is not in
    this file) creates the manager, sets its size [w], [h], the granularities
    [round_x], [round_y] of the image and the display-to-image [scale], and
    installs the image through the [image] property. *)
Definition open_image (image : Image) (w h round_x round_y scale : Z) : M unit :=
  setattr "w" (VInt w);;
  setattr "h" (VInt h);;
  setattr "round_x" (VInt round_x);;
  setattr "round_y" (VInt round_y);;
  setattr "scale" (VInt scale);;
  set_image (VImage image).

Definition manager (image : Image) (w h round_x round_y scale : Z) : gmap string value :=
  ((__init__;; open_image image w h round_x round_y scale) ∅).2.

(** A JPEG file and a PNG file of the given size. *)
Definition photo (w h : Z) : Image :=
  {| format := Some "JPEG"; width := w; height := h |}.

Definition drawing (w h : Z) : Image :=
  {| format := Some "PNG"; width := w; height := h |}.

(** ** The standard-size frame

    [set_stdsize(x, y)] for integer [x] and [y].  A side of the frame stays
    an integer until a scaling divides it, and is a float from then on: the
    quotient of the scaling and every sum and difference that float enters
    are rounded.  Where only integers and the halves of integers meet (a
    frame that fits) nothing is rounded.  The four edges reach [fix] through
    [set_crop], and all [fix] does with them is [int(a)] and [int(b)], so
    the call of [set_crop] is made here with the truncated edges. *)

(** [int(q)] on a float: truncation towards zero. *)
Definition py_int (q : Q) : Z := if Qle_bool 0 q then Qfloor q else Qceiling q.

(** A side of the frame: an integer, or the float a scaling gave. *)
Inductive number := Int (z : Z) | Float (q : Q).

Definition number_Q (n : number) : Q :=
  match n with Int z => inject_Z z | Float q => q end.

(** [a / b] for an integer [a]. *)
Definition int_div (a : Z) (b : number) : M Q :=
  match b with
  | Int z => true_div (inject_Z a) (inject_Z z)
  | Float q => true_div (to_float a) q
  end.

(** [(s - x) / 2] for an integer [s]. *)
Definition centre (s : Z) (x : number) : Q :=
  match x with
  | Int z => ((inject_Z s - inject_Z z) / 2)%Q
  | Float q => fl (fl (to_float s - q) / 2)
  end.

(** [low + x] for a float [low]. *)
Definition plus (low : Q) (x : number) : Q :=
  match x with
  | Int z => (low + inject_Z z)%Q
  | Float q => fl (low + q)
  end.

(** [lim - x] for an integer [lim]. *)
Definition minus (lim : Z) (x : number) : Q :=
  match x with
  | Int z => (inject_Z lim - inject_Z z)%Q
  | Float q => fl (to_float lim - q)
  end.

Definition set_stdsize (x y : Z) : M unit :=
  (* if frame doesn't fit in image, scale, preserving aspect ratio *)
  w ← self_int "w";
  xy ← (if w <? x
        then w ← self_int "w"; y ← true_div (inject_Z (y * w)) (inject_Z x);
             w ← self_int "w"; mret (w, Float y)
        else mret (x, Int y));
  let x := (xy : Z * number).1 in
  let y := xy.2 in
  h ← self_int "h";
  xy ← (if Qltb (inject_Z h) (number_Q y)
        then h ← self_int "h"; x ← int_div (x * h) y;
             h ← self_int "h"; mret (Float x, Int h)
        else mret (Int x, y));
  let x := (xy : number * number).1 in
  let y := xy.2 in
  (* calculate new crop area, preserving center *)
  l ← self_int "left"; r ← self_int "right";
  let left := centre (l + r) x in
  let right := plus left x in
  t ← self_int "top"; b ← self_int "bottom";
  let top := centre (t + b) y in
  let bottom := plus top y in
  (* move crop area into the image, if necessary *)
  let lr := if Qltb left 0 then (0%Q, number_Q x) else (left, right) in
  w ← self_int "w";
  lr ← (if Qltb (inject_Z w) lr.2
        then w ← self_int "w"; mret (minus w x, inject_Z w)
        else mret lr);
  let tb := if Qltb top 0 then (0%Q, number_Q y) else (top, bottom) in
  h ← self_int "h";
  tb ← (if Qltb (inject_Z h) tb.2
        then h ← self_int "h"; mret (minus h y, inject_Z h)
        else mret tb);
  set_crop (VInt (py_int (tb : Q * Q).1)) (VInt (py_int (lr : Q * Q).1))
           (VInt (py_int lr.2)) (VInt (py_int tb.2)).

(** The quotient [int_div] returns. *)
Definition quotient (a : Z) (b : number) : Q :=
  match b with
  | Int z => fl (inject_Z a / inject_Z z)
  | Float q => fl (to_float a / q)
  end.

(** The frame [set_stdsize] works with after its first two tests, for an
    image [W] by [H]. *)
Definition stdsize_frame (W H x y : Z) : number * number :=
  let xy := if W <? x then (W, Float (fl (inject_Z (y * W) / inject_Z x)))
            else (x, Int y) in
  if Qltb (inject_Z H) (number_Q xy.2)
  then (Float (quotient (xy.1 * H) xy.2), Int H)
  else (Int xy.1, xy.2).

(** One axis of the placement: an interval of length [x] centred on the
    middle of [[a, b]] and moved into [[0, lim]]. *)
Definition stdsize_axis (lim a b : Z) (x : number) : Q * Q :=
  let low := centre (a + b) x in
  let p := if Qltb low 0 then (0%Q, number_Q x) else (low, plus low x) in
  if Qltb (inject_Z lim) p.2 then (minus lim x, inject_Z lim) else p.

(** ** What the module reads from an image file *)

(** An image opened from a file: besides the format and the size, the JPEG
    plugin gives it [layer], one [(id, xsamp, ysamp, qtable)] per component,
    and the method [_getexif].  [_getexif] is [None] for an object without
    that method; otherwise it holds what the call returns: [Some d] for a
    dictionary [d], [None] for anything else. *)
Record Picture := {
  picture : Image;
  layer : list (Z * Z * Z * Z);
  _getexif : option (option (gmap Z value))
}.

(** [max(...)] over a generator: [ValueError] when it yields nothing. *)
Definition py_max (zs : list Z) : outcome Z :=
  match zs with
  | [] => Raise ValueError
  | z :: zs' => Return (fold_left Z.max zs' z)
  end.

Definition image_round (i : Picture) : outcome (Z * Z) :=
  if is_jpeg (picture i) then
    match py_max (map (fun c => c.1.1.2) (layer i)) with
    | Raise e => Raise e
    | Return x =>
        match py_max (map (fun c => c.1.2) (layer i)) with
        | Raise e => Raise e
        | Return y => Return (x * 8, y * 8)
        end
    end
  else Return (1, 1).

(** [image_rotation]: the EXIF orientation, tag [0x112]; the [print]s only
    write to the terminal. *)
Definition image_rotation (i : Picture) : value :=
  match _getexif i with
  | None => VInt 1
  | Some None => VInt 1
  | Some (Some exif) =>
      let result := default VNone (exif !! 274) in
      if truthy result then result else VInt 1
  end.

(** The successor of a rotation code under [rotate_ccw]. *)
Definition ccw_cycle : list (Z * Z) := [(1, 8); (8, 3); (3, 6); (6, 1)].


(** * Floats: rounding to 53 bits *)

Lemma Qltb_spec (a b : Q) : BoolSpec (a < b)%Q (b <= a)%Q (Qltb a b).
Proof.
  unfold Qltb. destruct (Qle_bool b a) eqn:E; constructor.
  - by apply Qle_bool_iff.
  - apply Qnot_le_lt. intros H%Qle_bool_iff. congruence.
Qed.

Lemma pow2_pos (z : Z) : (0 < 2 ^ z)%Q.
Proof. by apply Qpower_0_lt. Qed.

Lemma pow2_add (a b : Z) : (2 ^ (a + b) == 2 ^ a * 2 ^ b)%Q.
Proof. by apply Qpower_plus. Qed.

Lemma pow2_succ (a : Z) : (2 ^ (a + 1) == 2 * 2 ^ a)%Q.
Proof. rewrite pow2_add. change (2 ^ 1)%Q with 2%Q. ring. Qed.

Lemma pow2_pred (a : Z) : (2 * 2 ^ (a - 1) == 2 ^ a)%Q.
Proof. rewrite <- pow2_succ. by replace (a - 1 + 1) with a by lia. Qed.

Lemma pow2_inject (n : Z) : 0 <= n -> (2 ^ n == inject_Z (2 ^ n))%Q.
Proof. intros Hn. by rewrite Zpower_Qpower. Qed.

Lemma pow2_lt_inv (a b : Z) : (2 ^ a < 2 ^ b)%Q -> a < b.
Proof. intros H. by apply (Qpower_lt_compat_l_inv 2). Qed.

(** [Qlog2 q] is the exponent of [q]: [2 ^ e <= q < 2 ^ (e + 1)]. *)
Lemma Qlog2_spec (q : Q) :
  (0 < q)%Q -> (2 ^ Qlog2 q <= q)%Q /\ (q < 2 ^ (Qlog2 q + 1))%Q.
Proof.
  intros Hq. unfold Qlog2. cbv zeta.
  destruct q as [n d]. cbn [Qnum Qden].
  assert (Hn : 0 < n) by (unfold Qlt in Hq; cbn in Hq; lia).
  set (a := Z.log2 n). set (b := Z.log2 (Z.pos d)).
  destruct (Z.log2_spec n Hn) as [Ha1 Ha2]. fold a in Ha1, Ha2.
  destruct (Z.log2_spec (Z.pos d) ltac:(lia)) as [Hb1 Hb2]. fold b in Hb1, Hb2.
  assert (Ha0 : 0 <= a) by apply Z.log2_nonneg.
  assert (Hb0 : 0 <= b) by apply Z.log2_nonneg.
  rewrite Z.pow_succ_r in Ha2, Hb2 by done.
  (* the four bounds in Q *)
  set (A := (2 ^ a)%Q). set (B := (2 ^ b)%Q).
  set (N := inject_Z n). set (D := inject_Z (Z.pos d)).
  assert (HA : (A <= N)%Q /\ (N < 2 * A)%Q).
  { unfold A, N. rewrite (pow2_inject a Ha0). split.
    - by rewrite <- Zle_Qle.
    - change 2%Q with (inject_Z 2). rewrite <- inject_Z_mult, <- Zlt_Qlt. lia. }
  assert (HB : (B <= D)%Q /\ (D < 2 * B)%Q).
  { unfold B, D. rewrite (pow2_inject b Hb0). split.
    - by rewrite <- Zle_Qle.
    - change 2%Q with (inject_Z 2). rewrite <- inject_Z_mult, <- Zlt_Qlt. lia. }
  assert (HA0 : (0 < A)%Q) by apply pow2_pos.
  assert (HB0 : (0 < B)%Q) by apply pow2_pos.
  assert (HD0 : (0 < D)%Q) by lra.
  set (E := (2 ^ (a - b))%Q).
  assert (HE : (E * B == A)%Q).
  { unfold E, A, B. rewrite <- pow2_add. by replace (a - b + b) with a by lia. }
  assert (HE0 : (0 < E)%Q) by apply pow2_pos.
  assert (Hq' : (n # d == N / D)%Q) by apply Qmake_Qdiv.
  assert (HqD : ((n # d) * D == N)%Q) by (rewrite Hq'; field; lra).
  set (x := (n # d)%Q) in *. clearbody x.
  destruct (Qltb_spec x E) as [Hlt|Hge].
  - replace (a - b - 1 + 1) with (a - b) by lia. split; [|done].
    assert (H2 : (2 * 2 ^ (a - b - 1) == E)%Q) by apply pow2_pred.
    set (F := (2 ^ (a - b - 1))%Q) in *. clearbody F E A B N D.
    (* F * D <= N: since 2 F D = E D < 2 E B = 2 A <= 2 N *)
    assert (E * D < 2 * A)%Q by nra.
    assert (F * D <= x * D)%Q by nra.
    nra.
  - split; [done|].
    assert (H2 : (2 ^ (a - b + 1) == 2 * E)%Q) by apply pow2_succ.
    rewrite H2. clearbody E A B N D.
    assert (N < 2 * E * D)%Q by nra.
    nra.
Qed.

Lemma py_round_near (q : Q) :
  (inject_Z (py_round q) - q <= 1 # 2)%Q /\ (q - inject_Z (py_round q) <= 1 # 2)%Q.
Proof.
  unfold py_round.
  pose proof (Qfloor_le q) as Hlo. pose proof (Qlt_floor q) as Hhi.
  rewrite inject_Z_plus in Hhi. change (inject_Z 1) with 1%Q in Hhi.
  destruct (Qcompare_spec (q - inject_Z (Qfloor q)) (1 # 2)) as [E|E|E].
  - destruct (Z.even (Qfloor q)).
    + split; lra.
    + rewrite inject_Z_plus. change (inject_Z 1) with 1%Q. split; lra.
  - split; lra.
  - rewrite inject_Z_plus. change (inject_Z 1) with 1%Q. split; lra.
Qed.

Lemma py_round_int (q : Q) (z : Z) : (q == inject_Z z)%Q -> py_round q = z.
Proof.
  intros E. unfold py_round.
  assert (Ef : Qfloor q = z) by (rewrite (Qfloor_comp _ _ E); apply Qfloor_Z).
  rewrite Ef.
  destruct (Qcompare_spec (q - inject_Z z) (1 # 2)) as [H|H|H]; [lra|done|lra].
Qed.

(** The significand of a float other than 0 has 53 bits. *)
Lemma fl_significand (q : Q) :
  ~ (q == 0)%Q ->
  let ulp := (2 ^ (Qlog2 (Qabs q) - 52))%Q in
  (0 < ulp)%Q /\ (fl q == inject_Z (py_round (q / ulp)) * ulp)%Q /\
  (2 ^ 52 * ulp <= Qabs q)%Q /\ (Qabs q < 2 ^ 53 * ulp)%Q.
Proof.
  intros Hq. cbv zeta.
  assert (Habs : (0 < Qabs q)%Q).
  { pose proof (Qabs_nonneg q). destruct (Qeq_dec (Qabs q) 0) as [E|E]; [|lra].
    exfalso. apply Hq. revert E. apply Qabs_case; intros; lra. }
  destruct (Qlog2_spec _ Habs) as [Hlo Hhi].
  set (e := Qlog2 (Qabs q)) in *.
  split; [apply pow2_pos|]. split.
  - unfold fl. destruct (Qeq_bool q 0) eqn:E; [by apply Qeq_bool_eq in E|].
    reflexivity.
  - assert (E1 : (2 ^ 52 * 2 ^ (e - 52) == 2 ^ e)%Q).
    { rewrite <- pow2_add. by replace (52 + (e - 52)) with e by lia. }
    assert (E2 : (2 ^ 53 * 2 ^ (e - 52) == 2 ^ (e + 1))%Q).
    { rewrite <- pow2_add. by replace (53 + (e - 52)) with (e + 1) by lia. }
    rewrite E1, E2. done.
Qed.

(** Rounding changes a value by at most [2 ^ -53] of its magnitude. *)
Lemma fl_error (q : Q) : (Qabs (fl q - q) <= Qabs q * (1 # 2 ^ 53))%Q.
Proof.
  destruct (Qeq_dec q 0) as [E|Hq].
  { unfold fl. rewrite (Qeq_eq_bool _ _ E). rewrite E. done. }
  destruct (fl_significand q Hq) as (Hulp & -> & Hlo & _).
  set (ulp := (2 ^ (Qlog2 (Qabs q) - 52))%Q) in *. clearbody ulp.
  pose proof (py_round_near (q / ulp)) as [Hn1 Hn2].
  set (m := py_round (q / ulp)) in *. clearbody m.
  assert (Em : (q == q / ulp * ulp)%Q) by (field; lra).
  set (x := (q / ulp)%Q) in *. clearbody x.
  change (2 ^ 52)%Q with (inject_Z (2 ^ 52)) in Hlo.
  assert (Hhalf : (Qabs (inject_Z m * ulp - q) <= (1 # 2) * ulp)%Q).
  { apply Qabs_Qle_condition. rewrite Em. split; nra. }
  eapply Qle_trans; [exact Hhalf|].
  assert (Hc : ((1 # 2) == inject_Z (2 ^ 52) * (1 # 2 ^ 53))%Q) by reflexivity.
  rewrite Hc. set (c := (1 # 2 ^ 53)%Q). assert (0 < c)%Q by reflexivity.
  clearbody c. nra.
Qed.

Lemma fl_nonzero (q : Q) : ~ (q == 0)%Q -> ~ (fl q == 0)%Q.
Proof.
  intros Hq E.
  destruct (fl_significand q Hq) as (Hulp & Efl & Hlo & _).
  rewrite Efl in E.
  set (ulp := (2 ^ (Qlog2 (Qabs q) - 52))%Q) in *. clearbody ulp.
  pose proof (py_round_near (q / ulp)) as [Hn1 Hn2].
  set (m := py_round (q / ulp)) in *. clearbody m.
  assert (Em : (q == q / ulp * ulp)%Q) by (field; lra).
  set (x := (q / ulp)%Q) in *. clearbody x.
  assert (Hm : (inject_Z m == 0)%Q).
  { destruct (Qeq_dec (inject_Z m) 0) as [|Hne]; [done|].
    exfalso. apply (Qmult_integral) in E as [E|E]; [done|lra]. }
  rewrite Hm in Hn1, Hn2.
  change (2 ^ 52)%Q with (inject_Z (2 ^ 52)) in Hlo.
  assert (Hx : (Qabs x <= 1 # 2)%Q) by (apply Qabs_Qle_condition; split; lra).
  assert (Hq2 : (Qabs q == Qabs x * ulp)%Q).
  { rewrite Em at 1. rewrite Qabs_Qmult, (Qabs_pos ulp) by lra. reflexivity. }
  rewrite Hq2 in Hlo.
  assert (inject_Z (2 ^ 52) == 4503599627370496)%Q by reflexivity.
  pose proof (Qabs_nonneg x). nra.
Qed.

(** Integers below [2 ^ 53] are floats. *)
Lemma fl_int (q : Q) (z : Z) :
  Z.abs z < 2 ^ 53 -> (q == inject_Z z)%Q -> (fl q == inject_Z z)%Q.
Proof.
  intros Hz Ez.
  destruct (Z.eq_dec z 0) as [->|Hnz].
  { assert (E0 : (q == 0)%Q) by exact Ez. unfold fl. by rewrite (Qeq_eq_bool _ _ E0). }
  assert (Hq : ~ (q == 0)%Q).
  { rewrite Ez. intros E. apply Hnz. by apply (inject_Z_injective z 0). }
  destruct (fl_significand q Hq) as (Hulp & -> & Hlo & Hhi).
  set (e := Qlog2 (Qabs q)) in *.
  assert (Habs : (Qabs q == inject_Z (Z.abs z))%Q) by (rewrite Ez; reflexivity).
  assert (He : e < 53).
  { apply pow2_lt_inv.
    assert (E1 : (2 ^ 52 * 2 ^ (e - 52) == 2 ^ e)%Q).
    { rewrite <- pow2_add. by replace (52 + (e - 52)) with e by lia. }
    rewrite <- E1. eapply Qle_lt_trans; [exact Hlo|].
    rewrite Habs. change (2 ^ 53)%Q with (inject_Z (2 ^ 53)). by rewrite <- Zlt_Qlt. }
  assert (Hinv : (2 ^ (e - 52) * inject_Z (2 ^ (52 - e)) == 1)%Q).
  { rewrite <- (pow2_inject (52 - e)) by lia. rewrite <- pow2_add.
    by replace (e - 52 + (52 - e)) with 0 by lia. }
  set (ulp := (2 ^ (e - 52))%Q) in *. clearbody ulp.
  assert (Em : (q / ulp == inject_Z (z * 2 ^ (52 - e)))%Q).
  { rewrite inject_Z_mult, Ez. set (c := inject_Z (2 ^ (52 - e))) in *. clearbody c.
    field_simplify_eq; [|lra]. nra. }
  rewrite (py_round_int _ _ Em), inject_Z_mult.
  set (c := inject_Z (2 ^ (52 - e))) in *. clearbody c. nra.
Qed.

(** * Floats: order *)

Lemma py_round_range (q : Q) :
  py_round q = Qfloor q \/ py_round q = Qfloor q + 1.
Proof.
  unfold py_round. cbv zeta.
  destruct (q - inject_Z (Qfloor q) ?= 1 # 2)%Q; [destruct (Z.even _)| |]; auto.
Qed.

Lemma py_round_le (q1 q2 : Q) : (q1 <= q2)%Q -> py_round q1 <= py_round q2.
Proof.
  intros Hle.
  pose proof (Qfloor_resp_le _ _ Hle) as Hf.
  destruct (Z.eq_dec (Qfloor q1) (Qfloor q2)) as [E|Hne].
  - unfold py_round. cbv zeta. rewrite E.
    destruct (Qcompare_spec (q1 - inject_Z (Qfloor q2)) (1 # 2)) as [H1|H1|H1];
      destruct (Qcompare_spec (q2 - inject_Z (Qfloor q2)) (1 # 2)) as [H2|H2|H2];
      try destruct (Z.even (Qfloor q2)); try lia; exfalso; lra.
  - destruct (py_round_range q1) as [->| ->], (py_round_range q2) as [->| ->]; lia.
Qed.

Lemma pow2_le (a b : Z) : a <= b -> (2 ^ a <= 2 ^ b)%Q.
Proof.
  intros Hab. replace b with (a + (b - a)) by lia. rewrite pow2_add.
  assert (H1 : (1 <= 2 ^ (b - a))%Q).
  { rewrite (pow2_inject (b - a)) by lia. change 1%Q with (inject_Z 1).
    rewrite <- Zle_Qle. pose proof (Z.pow_pos_nonneg 2 (b - a)). lia. }
  pose proof (pow2_pos a). nra.
Qed.

Lemma Qlog2_unique (q : Q) (e : Z) :
  (2 ^ e <= q)%Q -> (q < 2 ^ (e + 1))%Q -> Qlog2 q = e.
Proof.
  intros Hlo Hhi.
  assert (Hq : (0 < q)%Q) by (pose proof (pow2_pos e); lra).
  destruct (Qlog2_spec q Hq) as [Hlo' Hhi'].
  assert (e < Qlog2 q + 1) by (apply pow2_lt_inv; lra).
  assert (Qlog2 q < e + 1) by (apply pow2_lt_inv; lra).
  lia.
Qed.

Lemma Qabs_nonneg_eq (q : Q) : (0 <= q)%Q -> Qabs q = q.
Proof.
  destruct q as [n d]. unfold Qle, Qabs. cbn. intros Hn.
  by rewrite Z.abs_eq by lia.
Qed.

(** A positive float lies in the binade of what it rounds. *)
Lemma fl_binade (q : Q) :
  (0 < q)%Q ->
  exists m : Z,
    2 ^ 52 <= m <= 2 ^ 53 /\
    (fl q == inject_Z m * 2 ^ (Qlog2 q - 52))%Q /\
    m = py_round (q / 2 ^ (Qlog2 q - 52)).
Proof.
  intros Hq.
  destruct (fl_significand q) as (Hulp & Efl & Hlo & Hhi); [lra|].
  rewrite (Qabs_nonneg_eq q) in * by lra.
  set (ulp := (2 ^ (Qlog2 q - 52))%Q) in *.
  exists (py_round (q / ulp)). split; [|by split].
  assert (H1 : (inject_Z (2 ^ 52) <= q / ulp)%Q).
  { apply Qle_shift_div_l; [done|]. exact Hlo. }
  assert (H2 : (q / ulp <= inject_Z (2 ^ 53))%Q).
  { apply Qle_shift_div_r; [done|]. apply Qlt_le_weak. exact Hhi. }
  apply py_round_le in H1, H2.
  rewrite (py_round_int (inject_Z (2 ^ 52)) (2 ^ 52)) in H1 by reflexivity.
  rewrite (py_round_int (inject_Z (2 ^ 53)) (2 ^ 53)) in H2 by reflexivity.
  done.
Qed.

Lemma fl_pos (q : Q) : (0 < q)%Q -> (0 < fl q)%Q.
Proof.
  intros Hq. destruct (fl_binade q Hq) as (m & Hm & -> & _).
  pose proof (pow2_pos (Qlog2 q - 52)).
  assert (0 < inject_Z m)%Q.
  { change 0%Q with (inject_Z 0). rewrite <- Zlt_Qlt.
    pose proof (Z.pow_pos_nonneg 2 52). lia. }
  nra.
Qed.

Lemma fl_binade_bounds (q : Q) :
  (0 < q)%Q -> (2 ^ Qlog2 q <= fl q)%Q /\ (fl q <= 2 ^ (Qlog2 q + 1))%Q.
Proof.
  intros Hq. destruct (fl_binade q Hq) as (m & [Hm1 Hm2] & -> & _).
  set (e := Qlog2 q).
  assert (E1 : (2 ^ e == inject_Z (2 ^ 52) * 2 ^ (e - 52))%Q).
  { change (inject_Z (2 ^ 52)) with (2 ^ 52)%Q. rewrite <- pow2_add.
    by replace (52 + (e - 52)) with e by lia. }
  assert (E2 : (2 ^ (e + 1) == inject_Z (2 ^ 53) * 2 ^ (e - 52))%Q).
  { change (inject_Z (2 ^ 53)) with (2 ^ 53)%Q. rewrite <- pow2_add.
    by replace (53 + (e - 52)) with (e + 1) by lia. }
  rewrite E1, E2. pose proof (pow2_pos (e - 52)) as Hulp.
  rewrite Zle_Qle in Hm1, Hm2.
  set (ulp := (2 ^ (e - 52))%Q) in *. clearbody ulp.
  split; nra.
Qed.

(** Rounding keeps the order of positive numbers. *)
Lemma fl_le (q1 q2 : Q) : (0 < q1)%Q -> (q1 <= q2)%Q -> (fl q1 <= fl q2)%Q.
Proof.
  intros H1 Hle.
  assert (H2 : (0 < q2)%Q) by lra.
  destruct (Qlog2_spec q1 H1) as [Hlo1 Hhi1].
  destruct (Qlog2_spec q2 H2) as [Hlo2 Hhi2].
  assert (He : Qlog2 q1 < Qlog2 q2 + 1) by (apply pow2_lt_inv; lra).
  destruct (Z.eq_dec (Qlog2 q1) (Qlog2 q2)) as [E|Hne].
  - destruct (fl_binade q1 H1) as (m1 & _ & -> & ->).
    destruct (fl_binade q2 H2) as (m2 & _ & -> & ->).
    rewrite E. pose proof (pow2_pos (Qlog2 q2 - 52)) as Hulp.
    set (ulp := (2 ^ (Qlog2 q2 - 52))%Q) in *.
    assert (Hq : (q1 / ulp <= q2 / ulp)%Q).
    { apply Qle_shift_div_l; [done|].
      assert (Eq : (q1 / ulp * ulp == q1)%Q) by (field; lra).
      by rewrite Eq. }
    apply py_round_le in Hq. rewrite Zle_Qle in Hq. clearbody ulp. nra.
  - destruct (fl_binade_bounds q1 H1) as [_ Hup].
    destruct (fl_binade_bounds q2 H2) as [Hdown _].
    pose proof (pow2_le (Qlog2 q1 + 1) (Qlog2 q2) ltac:(lia)). lra.
Qed.

(** A float rounds to itself. *)
Lemma fl_fixed (m k : Z) :
  2 ^ 52 <= m <= 2 ^ 53 -> (fl (inject_Z m * 2 ^ k) == inject_Z m * 2 ^ k)%Q.
Proof.
  intros [Hm1 Hm2].
  pose proof (pow2_pos k) as Hk.
  assert (Hmq : (inject_Z (2 ^ 52) <= inject_Z m /\ inject_Z m <= inject_Z (2 ^ 53))%Q)
    by (by rewrite <- !Zle_Qle).
  change (inject_Z (2 ^ 52)) with (4503599627370496%Q) in Hmq.
  change (inject_Z (2 ^ 53)) with (9007199254740992%Q) in Hmq.
  assert (E52 : (2 ^ (k + 52) == 4503599627370496 * 2 ^ k)%Q).
  { rewrite (pow2_add k 52). change (2 ^ 52)%Q with (4503599627370496%Q). ring. }
  assert (E53 : (2 ^ (k + 53) == 9007199254740992 * 2 ^ k)%Q).
  { rewrite (pow2_add k 53). change (2 ^ 53)%Q with (9007199254740992%Q). ring. }
  assert (E54 : (2 ^ (k + 54) == 18014398509481984 * 2 ^ k)%Q).
  { rewrite (pow2_add k 54). change (2 ^ 54)%Q with (18014398509481984%Q). ring. }
  assert (E1 : (2 ^ (k + 1) == 2 * 2 ^ k)%Q) by apply pow2_succ.
  set (q := (inject_Z m * 2 ^ k)%Q).
  assert (Hq : (0 < q)%Q) by (unfold q; nra).
  destruct (Z.eq_dec m (2 ^ 53)) as [->|Hne].
  - assert (Ee : Qlog2 q = k + 53).
    { apply Qlog2_unique.
      - rewrite E53. unfold q. change (inject_Z (2 ^ 53)) with (9007199254740992%Q).
        apply Qle_refl.
      - replace (k + 53 + 1) with (k + 54) by lia. rewrite E54.
        unfold q. change (inject_Z (2 ^ 53)) with (9007199254740992%Q). nra. }
    destruct (fl_binade q Hq) as (m' & _ & -> & ->). rewrite Ee.
    replace (k + 53 - 52) with (k + 1) by lia.
    rewrite (py_round_int _ (2 ^ 52)).
    + rewrite E1. unfold q. change (inject_Z (2 ^ 53)) with (9007199254740992%Q).
      change (inject_Z (2 ^ 52)) with (4503599627370496%Q). ring.
    + rewrite E1. unfold q. change (inject_Z (2 ^ 53)) with (9007199254740992%Q).
      change (inject_Z (2 ^ 52)) with (4503599627370496%Q). field. lra.
  - assert (Hlt : (inject_Z m < 9007199254740992)%Q).
    { change (9007199254740992%Q) with (inject_Z (2 ^ 53)). rewrite <- Zlt_Qlt. lia. }
    assert (Ee : Qlog2 q = k + 52).
    { apply Qlog2_unique.
      - rewrite E52. unfold q. nra.
      - replace (k + 52 + 1) with (k + 53) by lia. rewrite E53. unfold q. nra. }
    destruct (fl_binade q Hq) as (m' & _ & -> & ->). rewrite Ee.
    replace (k + 52 - 52) with k by lia.
    rewrite (py_round_int _ m); [reflexivity|].
    unfold q. field. lra.
Qed.

Lemma fl_idempotent (q : Q) : (0 < q)%Q -> (fl (fl q) == fl q)%Q.
Proof.
  intros Hq. destruct (fl_binade q Hq) as (m & Hm & E & _).
  pose proof (fl_fixed m (Qlog2 q - 52) Hm) as Hfix.
  set (v := (inject_Z m * 2 ^ (Qlog2 q - 52))%Q) in *.
  (* [fl] maps equal rationals to equal floats *)
  assert (Hcomp : forall a b : Q, (0 < a)%Q -> (a == b)%Q -> (fl a == fl b)%Q).
  { intros a b Ha Eab. apply Qle_antisym; apply fl_le; lra. }
  rewrite (Hcomp (fl q) v); [by rewrite Hfix, E| |done].
  by apply fl_pos.
Qed.

Lemma fl_neg (q : Q) : (q < 0)%Q -> (fl q < 0)%Q.
Proof.
  intros Hq.
  destruct (fl_significand q) as (Hulp & -> & Hlo & _); [lra|].
  set (ulp := (2 ^ (Qlog2 (Qabs q) - 52))%Q) in *. clearbody ulp.
  rewrite (Qabs_neg q) in Hlo by lra.
  pose proof (py_round_near (q / ulp)) as [Hn _].
  assert (Eq : (q == q / ulp * ulp)%Q) by (field; lra).
  set (x := (q / ulp)%Q) in *. clearbody x.
  change (2 ^ 52)%Q with (4503599627370496%Q) in Hlo.
  assert (x <= -4503599627370496)%Q by nra.
  assert (inject_Z (py_round x) < 0)%Q by lra.
  nra.
Qed.


(** * Running the methods *)

Section Running.
Context {A B : Type}.
Implicit Types (self : gmap string value).

Lemma reads_ret (a : A) self : reads (mret a) self a.
Proof. reflexivity. Qed.

Lemma reads_bind (m : M A) (k : A -> M B) self a b :
  reads m self a -> reads (k a) self b -> reads (m ≫= k) self b.
Proof. unfold reads, mbind, M_bind. intros -> ->. reflexivity. Qed.

Lemma reads_if (c : bool) (m1 m2 : M A) self a1 a2 :
  reads m1 self a1 -> reads m2 self a2 ->
  reads (if c then m1 else m2) self (if c then a1 else a2).
Proof. by destruct c. Qed.

Lemma run_bind (m : M A) (k : A -> M B) self a self' :
  m self = (Return a, self') -> (m ≫= k) self = k a self'.
Proof. unfold mbind, M_bind. intros ->. reflexivity. Qed.

Lemma run_bind_raise (m : M A) (k : A -> M B) self e self' :
  m self = (Raise e, self') -> (m ≫= k) self = (Raise e, self').
Proof. unfold mbind, M_bind. intros ->. reflexivity. Qed.

Lemma bind_assoc {C : Type} (m : M A) (f : A -> M B) (g : B -> M C) self :
  ((m ≫= f) ≫= g) self = (m ≫= (λ a, f a ≫= g)) self.
Proof. unfold mbind, M_bind. by destruct (m self) as [[a|e] self']. Qed.

Lemma run_reads (m : M A) (k : A -> M B) self a rhs :
  reads m self a -> k a self = rhs -> (m ≫= k) self = rhs.
Proof. intros Hm <-. by apply run_bind. Qed.
End Running.

Lemma reads_getattr name self v : self !! name = Some v -> reads (getattr name) self v.
Proof. unfold reads, getattr. by intros ->. Qed.

Lemma reads_to_int z self : reads (to_int (VInt z)) self z.
Proof. reflexivity. Qed.

Lemma reads_to_int_if (c : bool) a b self :
  reads (to_int (if c then VInt a else VInt b)) self (if c then a else b).
Proof. by destruct c. Qed.

Lemma reads_self_int name self z :
  self !! name = Some (VInt z) -> reads (self_int name) self z.
Proof.
  intros H. eapply reads_bind; [by apply reads_getattr|]. apply reads_to_int.
Qed.

Lemma reads_true_div a b self :
  ~ (b == 0)%Q -> reads (true_div a b) self (fl (a / b)).
Proof.
  intros Hb. unfold reads, true_div. destruct (Qeq_bool b 0) eqn:E; [|done].
  by apply Qeq_bool_eq in E.
Qed.

Lemma reads_to_screen z s self :
  self !! "scale" = Some (VInt s) -> s ≠ 0 ->
  reads (to_screen (VInt z)) self (Z.quot z s).
Proof.
  intros Hs Hnz. unfold to_screen.
  eapply reads_bind; [by apply reads_getattr|].
  eapply reads_bind; [apply reads_to_int|].
  eapply reads_bind; [apply reads_to_int|].
  unfold reads. by destruct (Z.eqb_spec s 0).
Qed.

Lemma run_setattr {B : Type} name v (k : unit -> M B) self :
  (setattr name v ≫= k) self = k tt (<[name := v]> self).
Proof. reflexivity. Qed.

(** Lookups after the assignments a method has made so far. *)
Ltac lookups :=
  repeat first
    [ rewrite lookup_insert_eq
    | rewrite lookup_insert_ne by done
    | rewrite lookup_delete_ne by done ];
  first [ eassumption | reflexivity ].

Ltac reads_tac :=
  lazymatch goal with
  | |- reads (mret _) _ _ => apply reads_ret
  | |- reads (mbind _ _) _ _ => eapply reads_bind; [reads_tac | cbv beta iota; reads_tac]
  | |- reads (getattr _) _ _ => apply reads_getattr; lookups
  | |- reads get_rotation _ _ => apply reads_getattr; lookups
  | |- reads get_image _ _ => apply reads_getattr; lookups
  | |- reads (self_int _) _ _ => apply reads_self_int; lookups
  | |- reads (to_int (VInt _)) _ _ => apply reads_to_int
  | |- reads (if _ then _ else _) _ _ => apply reads_if; reads_tac
  | |- reads get_corners _ _ => unfold get_corners; reads_tac
  | |- reads (to_int (if _ then VInt _ else VInt _)) _ _ => apply reads_to_int_if
  | |- reads (true_div _ _) _ _ => apply reads_true_div; assumption
  | |- reads (to_screen (VInt _)) _ _ => eapply reads_to_screen; [lookups | assumption]
  | |- reads get_screencorners _ _ => unfold get_screencorners; reads_tac
  | |- reads (classify _ _) _ _ => unfold classify; reads_tac
  | |- reads (lift _) _ _ => reflexivity
  | |- reads render _ _ => reflexivity
  | |- reads image_set _ _ => reflexivity
  | |- reads (as_image (VImage _)) _ _ => reflexivity
  end.

(** One statement of a method body: a read, or an assignment. *)
Ltac step :=
  lazymatch goal with
  | |- ((_ ≫= _) ≫= _) _ = _ => rewrite bind_assoc
  | |- (setattr _ _ ≫= _) _ = _ => rewrite run_setattr
  | |- (mbind _ _) _ = _ => eapply run_reads; [reads_tac | cbv beta iota zeta]
  end.

Lemma fix_int a b lim r reverse :
  r ≠ 0 -> fix_ (VInt a) (VInt b) (VInt lim) (VInt r) reverse = Return (align a b lim r reverse).
Proof.
  intros Hr. unfold fix_, align. cbn [int_of].
  destruct (sorted2 a b) as [a' b'].
  destruct (Z.eqb_spec r 0) as [|_]; [done|].
  by destruct reverse.
Qed.

(** [set_crop] on a loaded manager stores the two aligned intervals. *)
Lemma set_crop_run self W H rx ry rot t l r b :
  loaded self W H rx ry rot -> rx ≠ 0 -> ry ≠ 0 ->
  set_crop (VInt t) (VInt l) (VInt r) (VInt b) self =
  (Return tt,
   <["right" := VInt (align l r W rx (in_tuple (VInt rot) [3; 6])).2]>
   (<["left" := VInt (align l r W rx (in_tuple (VInt rot) [3; 6])).1]>
   (<["bottom" := VInt (align t b H ry (in_tuple (VInt rot) [3; 8])).2]>
   (<["top" := VInt (align t b H ry (in_tuple (VInt rot) [3; 8])).1]> self)))).
Proof.
  intros [] Hrx Hry. unfold set_crop.
  do 3 step. rewrite fix_int by done. step. do 2 step.
  do 3 step. rewrite fix_int by done. step. do 2 step.
  reflexivity.
Qed.

Lemma inject_Z_nonzero (z : Z) : z ≠ 0 -> ~ (inject_Z z == 0)%Q.
Proof. intros Hz E. apply Hz. by apply (inject_Z_injective z 0). Qed.

Lemma to_float_nonzero (z : Z) : z ≠ 0 -> ~ (to_float z == 0)%Q.
Proof. intros Hz. by apply fl_nonzero, inject_Z_nonzero. Qed.

Lemma Qdiv_nonzero (a b : Q) : ~ (a == 0)%Q -> ~ (b == 0)%Q -> ~ (a / b == 0)%Q.
Proof.
  intros Ha Hb E. apply Ha.
  rewrite <- (Qmult_div_r a b) by done. rewrite E. ring.
Qed.

Lemma ratio_nonzero (a b : Z) :
  a ≠ 0 -> b ≠ 0 -> ~ (fl (fmul (to_float a) 1 / to_float b) == 0)%Q.
Proof.
  intros Ha Hb. apply fl_nonzero, Qdiv_nonzero; [|by apply to_float_nonzero].
  apply fl_nonzero. rewrite Qmult_1_r. by apply to_float_nonzero.
Qed.

Lemma Qopp_nonzero (q : Q) : ~ (q == 0)%Q -> ~ (- q == 0)%Q.
Proof. intros Hq E. apply Hq. rewrite <- (Qopp_involutive q), E. reflexivity. Qed.

Lemma signed_ratio_nonzero (c : bool) (a b : Z) :
  a ≠ 0 -> b ≠ 0 ->
  ~ ((if c then - fl (fmul (to_float a) 1 / to_float b)
      else fl (fmul (to_float a) 1 / to_float b)) == 0)%Q.
Proof.
  intros Ha Hb. destruct c; [apply Qopp_nonzero|]; by apply ratio_nonzero.
Qed.

Lemma drag_continue_run self W H rx ry rot k x0 y0 t0 l0 r0 b0 fixed scale t l r b x y :
  loaded self W H rx ry rot ->
  dragging self k x0 y0 t0 l0 r0 b0 fixed scale ->
  corners_are self t l r b ->
  (fixed = true -> l0 < r0 /\ t0 < b0) ->
  drag_continue x y self =
  (let d := pointer_delta fixed k t0 l0 r0 b0 ((x - x0) * scale) ((y - y0) * scale) in
   let c := drag_target k W H t0 l0 r0 b0 t l r b d.1 d.2 in
   set_crop (VInt c.1.1.1) (VInt c.1.1.2) (VInt c.1.2) (VInt c.2) self).
Proof.
  intros [] [] [] Hfix. unfold drag_continue.
  do 5 step. cbn [truthy].
  assert (Hd : reads
    (if fixed
     then
       r0 ← self_int "r0"; l0 ← self_int "l0";
       b0 ← self_int "b0"; t0 ← self_int "t0";
       ratio ← true_div (fmul (to_float (r0 - l0)) 1) (to_float (b0 - t0));
       state ← getattr "state";
       let ratio := if in_tuple state [DRAG_TR; DRAG_BL] then (- ratio)%Q else ratio in
       q ← true_div (to_float ((x - x0) * scale)) ratio;
       if Qltb (Qabs (inject_Z ((y - y0) * scale))) (Qabs q)
       then q ← true_div (to_float ((x - x0) * scale)) ratio;
            mret ((x - x0) * scale, py_round q)
       else mret (py_round (fmul (to_float ((y - y0) * scale)) ratio), (y - y0) * scale)
     else mret ((x - x0) * scale, (y - y0) * scale))
    self
    (pointer_delta fixed k t0 l0 r0 b0 ((x - x0) * scale) ((y - y0) * scale))).
  { unfold pointer_delta. destruct fixed; [|reflexivity].
    destruct (Hfix eq_refl) as [Hlr Htb].
    pose proof (to_float_nonzero (b0 - t0) ltac:(lia)) as Hden.
    pose proof (signed_ratio_nonzero (in_tuple (VInt k) [DRAG_TR; DRAG_BL])
                  (r0 - l0) (b0 - t0) ltac:(lia) ltac:(lia)) as Hratio.
    unfold locked_delta. reads_tac. }
  eapply run_reads; [exact Hd|]. cbv beta.
  generalize (pointer_delta fixed k t0 l0 r0 b0 ((x - x0) * scale) ((y - y0) * scale)).
  clear Hd. intros d.
  do 23 step.
  unfold drag_target.
  destruct (in_tuple (VInt k) [DRAG_C]); reflexivity.
Qed.

(** What [drag_start] stores. *)
Lemma drag_start_run self t l r b scale x y fixed :
  corners_are self t l r b ->
  self !! "scale" = Some (VInt scale) -> scale ≠ 0 ->
  let k := classify_at (Z.quot t scale) (Z.quot l scale)
                       (Z.quot r scale) (Z.quot b scale) x y in
  drag_start x y fixed self =
  (Return tt,
   <["fixed_ratio" :=
       VBool (if in_tuple (VInt k) [DRAG_TL; DRAG_TR; DRAG_BL; DRAG_BR]
              then fixed else false)]>
   (<["state" := VInt k]> (<["b0" := VInt b]> (<["r0" := VInt r]>
   (<["l0" := VInt l]> (<["t0" := VInt t]> (<["y0" := VInt y]>
   (<["x0" := VInt x]> self)))))))).
Proof.
  intros [] Hs Hnz k. unfold drag_start.
  repeat step. fold k. by destruct (in_tuple (VInt k) _).
Qed.

(** * Arithmetic of [fix] *)

Lemma ceil_div_bounds (x r : Z) :
  0 < r -> x <= ((x + r - 1) / r) * r < x + r.
Proof.
  intros Hr.
  pose proof (Z.mul_div_le (x + r - 1) r Hr).
  pose proof (Z.mul_succ_div_gt (x + r - 1) r Hr).
  lia.
Qed.

Lemma floor_div_bounds (x r : Z) :
  0 < r -> x - r < (x / r) * r <= x.
Proof.
  intros Hr.
  pose proof (Z.mul_div_le x r Hr).
  pose proof (Z.mul_succ_div_gt x r Hr).
  lia.
Qed.

Lemma sorted2_spec (a b : Z) : sorted2 a b = (Z.min a b, Z.max a b).
Proof. unfold sorted2. destruct (Z.ltb_spec b a); f_equal; lia. Qed.

Lemma align_snd a b lim r reverse : (align a b lim r reverse).2 = Z.max a b.
Proof. unfold align. rewrite sorted2_spec. by destruct reverse. Qed.

Lemma align_fst_forward a b lim r :
  (align a b lim r false).1 = (Z.min a b / r) * r.
Proof. unfold align. by rewrite sorted2_spec. Qed.

Lemma align_fst_reverse a b lim r :
  (align a b lim r true).1 =
  (let c := lim - (((lim - Z.min a b) + r - 1) / r) * r in
   if c <? 0 then c + r else c).
Proof. unfold align. by rewrite sorted2_spec. Qed.

(** Where the anchored edge lands: at or below the lower end when the origin
    is not reversed, and in any case inside [[0, lim]]. *)
Lemma align_fst_le a b lim r :
  0 < r -> 0 <= Z.min a b ->
  0 <= (align a b lim r false).1 <= Z.min a b.
Proof.
  intros Hr Ha. rewrite align_fst_forward.
  pose proof (floor_div_bounds (Z.min a b) r Hr).
  split; [|lia].
  apply Z.mul_nonneg_nonneg; [|lia]. apply Z.div_pos; lia.
Qed.

Lemma align_fst_range a b lim r reverse :
  0 < r -> 0 <= Z.min a b <= lim ->
  0 <= (align a b lim r reverse).1 <= lim.
Proof.
  intros Hr Ha. destruct reverse.
  - rewrite align_fst_reverse. cbv zeta.
    pose proof (ceil_div_bounds (lim - Z.min a b) r Hr) as Hk.
    set (q := (lim - Z.min a b + r - 1) / r) in *.
    destruct (Z.ltb_spec (lim - q * r) 0); [|lia].
    assert (1 <= q) by nia. nia.
  - pose proof (align_fst_le a b lim r Hr); lia.
Qed.

(** * Arithmetic of [drag_continue] *)

(** Case analysis on the comparisons of one goal at a time, so that the two
    axes are treated separately. *)
Ltac cmp_cases :=
  repeat match goal with
         | |- context [Z.ltb ?a ?b] => destruct (Z.ltb_spec a b)
         | |- context [Z.leb ?a ?b] => destruct (Z.leb_spec a b)
         end.

Ltac axis_cases :=
  repeat match goal with
         | |- _ /\ _ => split
         | |- _ -> _ => intro
         end;
  cmp_cases; cbn [fst snd]; lia.

(** Which edges a drag kind moves: the centre moves all four, and no other
    kind moves two opposite edges. *)
Lemma kind_moves (k : Z) :
  let c := in_tuple (VInt k) [DRAG_C] in
  let mt := in_tuple (VInt k) [DRAG_TL; DRAG_T; DRAG_TR; DRAG_C] in
  let ml := in_tuple (VInt k) [DRAG_TL; DRAG_L; DRAG_BL; DRAG_C] in
  let mr := in_tuple (VInt k) [DRAG_TR; DRAG_R; DRAG_BR; DRAG_C] in
  let mb := in_tuple (VInt k) [DRAG_BL; DRAG_B; DRAG_BR; DRAG_C] in
  (c = true <-> k = DRAG_C) /\
  (c = true -> mt = true /\ ml = true /\ mr = true /\ mb = true) /\
  (mt = true -> mb = true -> c = true) /\
  (ml = true -> mr = true -> c = true).
Proof.
  unfold in_tuple, int_of, existsb,
    DRAG_TL, DRAG_T, DRAG_TR, DRAG_L, DRAG_C, DRAG_R, DRAG_BL, DRAG_B, DRAG_BR.
  cbv zeta.
  repeat match goal with |- context [?a =? ?b] => destruct (Z.eqb_spec a b) end;
    cbn [orb]; try lia; intuition (discriminate || lia).
Qed.

Lemma drag_target_bounds k W H t0 l0 r0 b0 t l r b dx dy :
  rect_ok W H t l r b -> rect_ok W H t0 l0 r0 b0 ->
  let c := drag_target k W H t0 l0 r0 b0 t l r b dx dy in
  let nt := c.1.1.1 in let nl := c.1.1.2 in let nr := c.1.2 in let nb := c.2 in
  (0 <= nt <= nb /\ nb <= H) /\
  (0 <= nl <= nr /\ nr <= W) /\
  ((k ≠ DRAG_C /\ b < H) \/ (k = DRAG_C /\ t0 + 2 <= b0) -> nt < nb) /\
  ((k ≠ DRAG_C /\ r < W) \/ (k = DRAG_C /\ l0 + 2 <= r0) -> nl < nr).
Proof.
  intros (Hl & Hr & Ht & Hb) (Hl0 & Hr0 & Ht0 & Hb0).
  destruct (kind_moves k) as (Hkc & Hall & Hv & Hh).
  unfold drag_target.
  destruct (in_tuple (VInt k) [DRAG_C]) eqn:Ec.
  - (* the centre drag *)
    destruct (Hall eq_refl) as (-> & -> & -> & ->).
    assert (k = DRAG_C) by by apply Hkc.
    cbv zeta; cbn [negb fst snd]. axis_cases.
  - assert (k ≠ DRAG_C) by (intros E%Hkc; discriminate).
    destruct (in_tuple (VInt k) [DRAG_TL; DRAG_T; DRAG_TR; DRAG_C]) eqn:Emt;
    destruct (in_tuple (VInt k) [DRAG_BL; DRAG_B; DRAG_BR; DRAG_C]) eqn:Emb;
    try (by specialize (Hv eq_refl eq_refl));
    destruct (in_tuple (VInt k) [DRAG_TL; DRAG_L; DRAG_BL; DRAG_C]) eqn:Eml;
    destruct (in_tuple (VInt k) [DRAG_TR; DRAG_R; DRAG_BR; DRAG_C]) eqn:Emr;
    try (by specialize (Hh eq_refl eq_refl));
    cbv zeta; cbn [negb fst snd]; axis_cases.
Qed.


(** The same for the next call: what the call needs of the current
    rectangle, it hands on. *)
Lemma drag_target_range k W H t0 l0 r0 b0 t l r b dx dy :
  rect_ok W H t0 l0 r0 b0 ->
  (k ≠ DRAG_C -> roomy W H t l r b) ->
  let c := drag_target k W H t0 l0 r0 b0 t l r b dx dy in
  let nt := c.1.1.1 in let nl := c.1.1.2 in let nr := c.1.2 in let nb := c.2 in
  (0 <= Z.min nt nb /\ Z.max nt nb <= H) /\
  (0 <= Z.min nl nr /\ Z.max nl nr <= W) /\
  (k ≠ DRAG_C -> roomy W H nt nl nr nb).
Proof.
  intros (Hl0 & Hr0 & Ht0 & Hb0) Hroom.
  destruct (kind_moves k) as (Hkc & Hall & Hv & Hh).
  unfold drag_target, roomy in *.
  destruct (in_tuple (VInt k) [DRAG_C]) eqn:Ec.
  - (* the centre drag *)
    destruct (Hall eq_refl) as (-> & -> & -> & ->).
    assert (Hk : k = DRAG_C) by by apply Hkc. clear Hroom.
    cbv zeta; cbn [negb fst snd].
    split; [|split; [|by intros []]]; axis_cases.
  - assert (Hk : k ≠ DRAG_C) by (intros E%Hkc; discriminate).
    destruct (Hroom Hk) as ((Ht & Hb) & (Hl & Hr)). clear Hroom.
    destruct (in_tuple (VInt k) [DRAG_TL; DRAG_T; DRAG_TR; DRAG_C]) eqn:Emt;
    destruct (in_tuple (VInt k) [DRAG_BL; DRAG_B; DRAG_BR; DRAG_C]) eqn:Emb;
    try (by specialize (Hv eq_refl eq_refl));
    destruct (in_tuple (VInt k) [DRAG_TL; DRAG_L; DRAG_BL; DRAG_C]) eqn:Eml;
    destruct (in_tuple (VInt k) [DRAG_TR; DRAG_R; DRAG_BR; DRAG_C]) eqn:Emr;
    try (by specialize (Hh eq_refl eq_refl));
    cbv zeta; cbn [negb fst snd]; axis_cases.
Qed.

(** Against a reversed origin the anchored edge stays below the limit when
    the granularity is not larger than the limit. *)
Lemma align_fst_below a b lim r reverse :
  0 < r -> 0 <= Z.min a b <= lim - 1 -> (reverse = true -> r <= lim) ->
  (align a b lim r reverse).1 <= lim - 1.
Proof.
  intros Hr Ha Hrl. destruct reverse.
  - rewrite align_fst_reverse. cbv zeta.
    pose proof (ceil_div_bounds (lim - Z.min a b) r Hr) as Hk.
    specialize (Hrl eq_refl).
    set (q := (lim - Z.min a b + r - 1) / r) in *.
    assert (1 <= q) by nia.
    destruct (Z.ltb_spec (lim - q * r) 0); [|nia].
    assert (2 <= q) by nia. nia.
  - pose proof (align_fst_le a b lim r Hr). lia.
Qed.

(** * The rectangle a drag commits *)

Lemma corners_are_stored self t l r b :
  corners_are
    (<["right" := VInt r]> (<["left" := VInt l]>
      (<["bottom" := VInt b]> (<["top" := VInt t]> self)))) t l r b.
Proof. split; lookups. Qed.

Lemma corners_are_inj self t l r b t' l' r' b' :
  corners_are self t l r b -> corners_are self t' l' r' b' ->
  t' = t /\ l' = l /\ r' = r /\ b' = b.
Proof. intros [] []. repeat split; congruence. Qed.

Lemma loaded_stored self W H rx ry rot t l r b :
  loaded self W H rx ry rot ->
  loaded (<["right" := VInt r]> (<["left" := VInt l]>
           (<["bottom" := VInt b]> (<["top" := VInt t]> self)))) W H rx ry rot.
Proof. intros []. split; lookups. Qed.

Lemma dragging_stored self k x0 y0 t0 l0 r0 b0 fixed scale t l r b :
  dragging self k x0 y0 t0 l0 r0 b0 fixed scale ->
  dragging (<["right" := VInt r]> (<["left" := VInt l]>
             (<["bottom" := VInt b]> (<["top" := VInt t]> self))))
           k x0 y0 t0 l0 r0 b0 fixed scale.
Proof. intros []. split; lookups. Qed.

Lemma not_reversed (rot a b : Z) :
  rot ≠ a -> rot ≠ b -> in_tuple (VInt rot) [a; b] = false.
Proof.
  intros Ha Hb. unfold in_tuple, int_of, existsb.
  by destruct (Z.eqb_spec rot a), (Z.eqb_spec rot b).
Qed.

Lemma reversed (rot a b : Z) :
  in_tuple (VInt rot) [a; b] = true -> rot = a \/ rot = b.
Proof.
  unfold in_tuple, int_of, existsb.
  destruct (Z.eqb_spec rot a), (Z.eqb_spec rot b); cbn [orb]; (done || tauto).
Qed.

Lemma in_tuple_reverse (rot : Z) :
  in_tuple (VInt rot) [3; 8] = reverse_y rot /\
  in_tuple (VInt rot) [3; 6] = reverse_x rot.
Proof.
  unfold in_tuple, int_of, existsb, reverse_y, reverse_x.
  split; repeat case_bool_decide;
    destruct (Z.eqb_spec rot 3), (Z.eqb_spec rot 8), (Z.eqb_spec rot 6);
    cbn [orb]; (done || lia).
Qed.

(** One call of [drag_continue] in a drag whose snapshot is a valid
    rectangle. *)
Lemma drag_continue_step
    self W H rx ry rot k x0 y0 t0 l0 r0 b0 fixed scale x y :
  in_drag self W H rx ry rot k x0 y0 t0 l0 r0 b0 fixed scale ->
  0 < rx -> 0 < ry ->
  (rot = 3 \/ rot = 6 -> rx <= W) -> (rot = 3 \/ rot = 8 -> ry <= H) ->
  rect_ok W H t0 l0 r0 b0 ->
  exists self' t' l' r' b',
    drag_continue x y self = (Return tt, self') /\
    in_drag self' W H rx ry rot k x0 y0 t0 l0 r0 b0 fixed scale /\
    corners_are self' t' l' r' b' /\
    inside W H t' l' r' b' /\
    (forall t l r b, corners_are self t l r b -> rect_ok W H t l r b ->
       (rot ≠ 3 /\ rot ≠ 8 ->
        (k ≠ DRAG_C /\ b < H) \/ (k = DRAG_C /\ t0 + 2 <= b0) -> t' < b') /\
       (rot ≠ 3 /\ rot ≠ 6 ->
        (k ≠ DRAG_C /\ r < W) \/ (k = DRAG_C /\ l0 + 2 <= r0) -> l' < r')).
Proof.
  intros (Hld & Hdr & t & l & r & b & Hc & Hroom) Hrx Hry Hrw Hrh Hok0.
  rewrite (drag_continue_run self W H rx ry rot k x0 y0 t0 l0 r0 b0 fixed scale t l r b x y)
    by (try done; intros _; unfold rect_ok in Hok0; lia).
  cbv zeta.
  set (d := pointer_delta fixed k t0 l0 r0 b0 ((x - x0) * scale) ((y - y0) * scale)).
  pose proof (drag_target_range k W H t0 l0 r0 b0 t l r b d.1 d.2 Hok0 Hroom) as Hrange.
  pose proof (drag_target_bounds k W H t0 l0 r0 b0 t l r b d.1 d.2) as Hbounds.
  cbv zeta in Hrange, Hbounds.
  set (c := drag_target k W H t0 l0 r0 b0 t l r b d.1 d.2) in *.
  destruct Hrange as ((Hv1 & Hv2) & (Hh1 & Hh2) & Hroom').
  rewrite (set_crop_run self W H rx ry rot) by (done || lia).
  pose proof (align_fst_range c.1.1.1 c.2 H ry (in_tuple (VInt rot) [3; 8]) Hry) as Hav.
  pose proof (align_fst_range c.1.1.2 c.1.2 W rx (in_tuple (VInt rot) [3; 6]) Hrx) as Hah.
  eexists _, _, _, _, _. split; [reflexivity|].
  rewrite !align_snd.
  split; [|split; [apply corners_are_stored|split]].
  - split; [by apply loaded_stored|]. split; [by apply dragging_stored|].
    eexists _, _, _, _. split; [apply corners_are_stored|].
    intros Hk. destruct (Hroom' Hk) as ((Hnt & Hnb) & (Hnl & Hnr)).
    pose proof (align_fst_below c.1.1.1 c.2 H ry (in_tuple (VInt rot) [3; 8]) Hry) as Hbv.
    pose proof (align_fst_below c.1.1.2 c.1.2 W rx (in_tuple (VInt rot) [3; 6]) Hrx) as Hbh.
    unfold roomy. split; (split; [split; [lia|]|lia]).
    + apply Hbv; [lia|]. intros E%reversed. by apply Hrh.
    + apply Hbh; [lia|]. intros E%reversed. by apply Hrw.
  - unfold inside. lia.
  - intros t1 l1 r1 b1 Hc1 Hok.
    destruct (corners_are_inj _ _ _ _ _ _ _ _ _ Hc Hc1) as (-> & -> & -> & ->).
    destruct (Hbounds Hok Hok0) as (_ & _ & Hsv & Hsh).
    split.
    + intros [Hr3 Hr8] Hcase. rewrite (not_reversed rot 3 8) by done.
      pose proof (align_fst_le c.1.1.1 c.2 H ry Hry). specialize (Hsv Hcase). lia.
    + intros [Hr3 Hr6] Hcase. rewrite (not_reversed rot 3 6) by done.
      pose proof (align_fst_le c.1.1.2 c.1.2 W rx Hrx). specialize (Hsh Hcase). lia.
Qed.

Lemma drag_moves_run
    self W H rx ry rot k x0 y0 t0 l0 r0 b0 fixed scale ps :
  in_drag self W H rx ry rot k x0 y0 t0 l0 r0 b0 fixed scale ->
  0 < rx -> 0 < ry ->
  (rot = 3 \/ rot = 6 -> rx <= W) -> (rot = 3 \/ rot = 8 -> ry <= H) ->
  rect_ok W H t0 l0 r0 b0 ->
  exists self',
    drag_moves ps self = (Return tt, self') /\
    in_drag self' W H rx ry rot k x0 y0 t0 l0 r0 b0 fixed scale.
Proof.
  intros Hinv Hrx Hry Hrw Hrh Hok0. revert self Hinv.
  induction ps as [|p ps IH]; intros self Hinv.
  - by exists self.
  - destruct (drag_continue_step self W H rx ry rot k x0 y0 t0 l0 r0 b0 fixed scale p.1 p.2)
      as (self1 & ? & ? & ? & ? & Hrun & Hinv1 & _); try done.
    destruct (IH self1 Hinv1) as (self' & Hmoves & Hinv').
    exists self'. split; [|done].
    cbn [drag_moves]. by rewrite (run_bind _ _ _ _ _ Hrun).
Qed.

(** What a drag does keep.  After [drag_start] on a loaded image whose
    rectangle satisfies [0 <= left < right <= width] and
    [0 <= top < bottom <= height] (positive granularities, none larger than
    the side of the image on an axis whose origin the rotation reverses),
    every call of [drag_continue] returns and commits a rectangle whose four
    edges lie inside [[0, width] x [0, height]]; it keeps [top < bottom]
    (resp. [left < right]) on an axis whose origin is not reversed when the
    bottom (resp. right) edge before the call is below the height (resp.
    width), or in a centre drag of a snapshot of at least two pixels. *)
Lemma drag_session_stays_inside
    self W H rx ry rot scale t l r b x0 y0 fixed ps x y :
  loaded self W H rx ry rot -> 0 < rx -> 0 < ry ->
  (rot = 3 \/ rot = 6 -> rx <= W) -> (rot = 3 \/ rot = 8 -> ry <= H) ->
  self !! "scale" = Some (VInt scale) -> scale ≠ 0 ->
  corners_are self t l r b -> rect_ok W H t l r b ->
  let k := classify_at (Z.quot t scale) (Z.quot l scale)
                       (Z.quot r scale) (Z.quot b scale) x0 y0 in
  exists self1 t1 l1 r1 b1 self2 t2 l2 r2 b2,
    (drag_start x0 y0 fixed;; drag_moves ps) self = (Return tt, self1) /\
    corners_are self1 t1 l1 r1 b1 /\
    drag_continue x y self1 = (Return tt, self2) /\
    corners_are self2 t2 l2 r2 b2 /\
    inside W H t2 l2 r2 b2 /\
    (rect_ok W H t1 l1 r1 b1 ->
     (rot ≠ 3 /\ rot ≠ 8 ->
      (k ≠ DRAG_C /\ b1 < H) \/ (k = DRAG_C /\ t + 2 <= b) -> t2 < b2) /\
     (rot ≠ 3 /\ rot ≠ 6 ->
      (k ≠ DRAG_C /\ r1 < W) \/ (k = DRAG_C /\ l + 2 <= r) -> l2 < r2)).
Proof.
  intros Hld Hrx Hry Hrw Hrh Hs Hnz Hc Hok k.
  pose proof (drag_start_run self t l r b scale x0 y0 fixed Hc Hs Hnz) as Hstart.
  cbv zeta in Hstart. fold k in Hstart.
  set (fixed' := if in_tuple (VInt k) [DRAG_TL; DRAG_TR; DRAG_BL; DRAG_BR]
                 then fixed else false) in Hstart.
  rewrite (run_bind _ _ _ _ _ Hstart).
  match goal with |- context [drag_moves _ ?s] => set (self0 := s) end.
  assert (Hinv : in_drag self0 W H rx ry rot k x0 y0 t l r b fixed' scale).
  { unfold self0. destruct Hld, Hc.
    split; [split; lookups|]. split; [split; lookups|].
    exists t, l, r, b. split; [split; lookups|].
    intros _. unfold roomy, rect_ok in *. lia. }
  destruct (drag_moves_run self0 W H rx ry rot k x0 y0 t l r b fixed' scale ps)
    as (self1 & Hmoves & Hinv1); try done.
  pose proof Hinv1 as (_ & _ & t1 & l1 & r1 & b1 & Hc1 & _).
  destruct (drag_continue_step self1 W H rx ry rot k x0 y0 t l r b fixed' scale x y)
    as (self2 & t2 & l2 & r2 & b2 & Hrun & _ & Hc2 & Hin & Hstrict); try done.
  exists self1, t1, l1, r1, b1, self2, t2, l2, r2, b2.
  split; [done|]. split; [done|]. split; [done|]. split; [done|]. split; [done|].
  intros Hok1. by apply (Hstrict t1 l1 r1 b1).
Qed.

(** C1.  [drag_continue] does not do what its comments say, "Keep every
    type of drag within the image bounds" and "A drag never moves left past
    right and so on".  On a freshly opened 10 x 10 image (granularity 1,
    rotation 1, full rectangle) a drag of the top edge from [(5, 1)] down to
    [(5, 50)] commits [top = bottom = 9]: the clamp to the image pulls the
    bottom edge, which the drag does not move, from 10 to 9, while the top
    edge is kept below the bottom edge of before the call.  On a 16 x 5
    image with granularity 8 whose full rectangle was kept across a turn by
    180 degrees, the second call of a drag of the bottom edge commits
    [bottom = 6], below the image. *)
Lemma drag_continue_degenerate :
  let self := after (drag_start 5 1 false) (manager (drawing 10 10) 10 10 1 1 1) in
  let rotated := after (save_prev_crop;; set_rotation (VInt 3))
                      (manager (photo 16 5) 16 5 8 8 1) in
  let dragged := after (drag_start 8 4 false;; drag_continue 8 4) rotated in
  (loaded self 10 10 1 1 1 /\
   dragging self DRAG_T 5 1 0 0 10 10 false 1 /\
   corners_are self 0 0 10 10 /\
   rect_ok 10 10 0 0 10 10 /\
   (drag_continue 5 50 self).1 = Return tt /\
   corners_are (after (drag_continue 5 50) self) 9 0 9 9 /\
   ~ rect_ok 10 10 9 0 9 9) /\
  (loaded rotated 16 5 8 8 3 /\
   corners_are rotated 0 0 16 5 /\
   rect_ok 16 5 0 0 16 5 /\
   dragging dragged DRAG_B 8 4 0 0 16 5 false 1 /\
   (drag_continue 8 4 dragged).1 = Return tt /\
   corners_are (after (drag_continue 8 4) dragged) 5 0 15 6 /\
   ~ inside 16 5 5 0 15 6).
Proof.
  cbv zeta. split.
  - repeat split; try (vm_compute; reflexivity); try lia.
    unfold rect_ok. lia.
  - repeat split; try (vm_compute; reflexivity); try lia.
    unfold inside. lia.
Qed.

(** * The anchored edge of [fix] *)

(** The rounding-up division of the source is the ceiling of the quotient. *)
Lemma ceil_div_Qceiling (x r : Z) :
  0 < r -> (x + r - 1) / r = Qceiling (inject_Z x / inject_Z r).
Proof.
  intros Hr. destruct r as [|p|p]; try lia.
  unfold Qceiling, Qfloor, Qdiv, Qinv, Qmult, Qopp, inject_Z. cbn [Qnum Qden].
  rewrite Z.mul_1_r, Pos.mul_1_l.
  pose proof (ceil_div_bounds x (Z.pos p) Hr) as Hq.
  set (q := (x + Z.pos p - 1) / Z.pos p) in *.
  symmetry. apply Z.opp_inj. rewrite Z.opp_involutive. symmetry.
  apply (Z.div_unique (- x) (Z.pos p) (- q) (q * Z.pos p - x)); lia.
Qed.

Lemma align_reverse_divide a b lim r :
  (r | lim - (align a b lim r true).1).
Proof.
  rewrite align_fst_reverse. cbv zeta.
  set (q := (lim - Z.min a b + r - 1) / r).
  destruct (lim - q * r <? 0).
  - exists (q - 1). lia.
  - exists q. lia.
Qed.

(** C3 (amended). For a positive granularity and non-negative [a] and [b],
    [fix] returns, the upper edge is the larger of the two, and the anchored
    edge [a'] is never negative.  It is a multiple of the granularity when
    [reverse] is false; when [reverse] is true it is [lim] minus a multiple
    of the granularity (so a multiple itself when the granularity divides
    [lim]), namely the computed value
    [lim - ceil((lim - min a b) / r) * r] when that is not negative and one
    granularity step more when it is. *)
Theorem fix_anchored_edge (a b lim r : Z) (reverse : bool) :
  0 < r -> 0 <= a -> 0 <= b ->
  exists a' b',
    fix_ (VInt a) (VInt b) (VInt lim) (VInt r) reverse = Return (a', b') /\
    b' = Z.max a b /\
    0 <= a' /\
    (reverse = false -> (r | a')) /\
    (reverse = true -> (r | lim - a') /\ ((r | lim) -> (r | a'))) /\
    (reverse = true ->
     let computed := lim - Qceiling (inject_Z (lim - Z.min a b) / inject_Z r) * r in
     (0 <= computed -> a' = computed) /\
     (computed < 0 -> a' = computed + r)).
Proof.
  intros Hr Ha Hb.
  exists (align a b lim r reverse).1, (align a b lim r reverse).2.
  split; [rewrite fix_int by lia; by destruct (align a b lim r reverse)|].
  split; [apply align_snd|].
  split.
  { destruct reverse.
    - rewrite align_fst_reverse. cbv zeta.
      pose proof (ceil_div_bounds (lim - Z.min a b) r Hr).
      destruct (Z.ltb_spec (lim - (lim - Z.min a b + r - 1) / r * r) 0); lia.
    - pose proof (align_fst_le a b lim r Hr). lia. }
  split.
  { intros ->. rewrite align_fst_forward. by exists (Z.min a b / r). }
  split.
  { intros ->. pose proof (align_reverse_divide a b lim r) as Hd.
    split; [done|]. intros Hl.
    replace (align a b lim r true).1
      with (lim - (lim - (align a b lim r true).1)) by lia.
    by apply Z.divide_sub_r. }
  intros ->. rewrite align_fst_reverse, <- ceil_div_Qceiling by done. cbv zeta.
  destruct (Z.ltb_spec (lim - (lim - Z.min a b + r - 1) / r * r) 0); lia.
Qed.

Lemma fix_anchored_edge_witness :
  exists a' b',
    fix_ (VInt 3) (VInt 20) (VInt 30) (VInt 8) true = Return (a', b') /\
    b' = Z.max 3 20 /\
    0 <= a' /\
    (true = false -> (8 | a')) /\
    (true = true -> (8 | 30 - a') /\ ((8 | 30) -> (8 | a'))) /\
    (true = true ->
     let computed := 30 - Qceiling (inject_Z (30 - Z.min 3 20) / inject_Z 8) * 8 in
     (0 <= computed -> a' = computed) /\
     (computed < 0 -> a' = computed + 8)).
Proof. apply (fix_anchored_edge 3 20 30 8 true); lia. Defined.

(** C3 as stated fails: with the upper bound as origin the anchored edge of
    a 10 pixel interval at granularity 8 is 2 (what
    [image_or_rotation_changed] computes for a 10 pixel high image turned by
    180 degrees), and a negative lower end stays negative. *)
Lemma fix_not_multiple_or_negative :
  fix_ (VInt 0) (VInt 10) (VInt 10) (VInt 8) true = Return (2, 10) /\
  ~ (8 | 2) /\
  fix_ (VInt (-5)) (VInt 3) (VInt 10) (VInt 8) false = Return (-8, 3) /\
  ~ 0 <= -8.
Proof.
  split; [reflexivity|]. split; [intros [q Hq]; lia|].
  split; [reflexivity|lia].
Qed.

(** * [set_crop] twice *)

Lemma align_idempotent a b lim r reverse :
  0 < r ->
  let p := align a b lim r reverse in
  reverse = false \/ 0 <= p.1 <= p.2 ->
  align p.1 p.2 lim r reverse = p.
Proof.
  intros Hr p Hp.
  assert (Hle : p.1 <= p.2).
  { destruct Hp as [->|]; [|lia]. subst p.
    rewrite align_snd, align_fst_forward.
    pose proof (floor_div_bounds (Z.min a b) r Hr). lia. }
  apply injective_projections; [|rewrite align_snd; lia].
  destruct reverse.
  - pose proof (align_reverse_divide a b lim r) as [q Hq]. fold p in Hq.
    assert (0 <= p.1) by (destruct Hp; [done|lia]).
    rewrite align_fst_reverse. cbv zeta.
    replace (Z.min p.1 p.2) with p.1 by lia.
    replace (lim - p.1 + r - 1) with (q * r + (r - 1)) by lia.
    rewrite Z.div_add_l, (Z.div_small (r - 1) r), Z.add_0_r by lia.
    replace (lim - q * r) with p.1 by lia.
    destruct (Z.ltb_spec p.1 0); lia.
  - rewrite align_fst_forward.
    replace (Z.min p.1 p.2) with p.1 by lia.
    subst p. rewrite align_fst_forward. by rewrite Z.div_mul by lia.
Qed.

(** C10 (amended). On a loaded manager [set_crop] returns for all integer
    arguments, and calling it again with the stored edges returns too.  The
    second call leaves [top] and [bottom] as they are when the stored pair
    satisfies [0 <= top <= bottom], and always when the vertical origin is
    not reversed (rotation other than 3 and 8); the same holds for [left]
    and [right] (rotation other than 3 and 6). *)
Theorem set_crop_idempotent self W H rx ry rot t l r b :
  loaded self W H rx ry rot -> 0 < rx -> 0 < ry ->
  exists self1 t1 l1 r1 b1,
    set_crop (VInt t) (VInt l) (VInt r) (VInt b) self = (Return tt, self1) /\
    corners_are self1 t1 l1 r1 b1 /\
    exists self2 t2 l2 r2 b2,
      set_crop (VInt t1) (VInt l1) (VInt r1) (VInt b1) self1 = (Return tt, self2) /\
      corners_are self2 t2 l2 r2 b2 /\
      (0 <= t1 <= b1 \/ (rot ≠ 3 /\ rot ≠ 8) -> t2 = t1 /\ b2 = b1) /\
      (0 <= l1 <= r1 \/ (rot ≠ 3 /\ rot ≠ 6) -> l2 = l1 /\ r2 = r1).
Proof.
  intros Hld Hrx Hry.
  rewrite (set_crop_run self W H rx ry rot) by (done || lia).
  eexists _, _, _, _, _.
  split; [reflexivity|]. split; [apply corners_are_stored|].
  rewrite (set_crop_run _ W H rx ry rot) by (by apply loaded_stored || lia).
  eexists _, _, _, _, _.
  split; [reflexivity|]. split; [apply corners_are_stored|].
  split.
  - intros Hv.
    rewrite (align_idempotent t b H ry (in_tuple (VInt rot) [3; 8]) Hry); [done|].
    destruct Hv as [Hv|[Hr3 Hr8]]; [by right|left].
    unfold in_tuple, int_of, existsb.
    destruct (Z.eqb_spec rot 3), (Z.eqb_spec rot 8); done.
  - intros Hh.
    rewrite (align_idempotent l r W rx (in_tuple (VInt rot) [3; 6]) Hrx); [done|].
    destruct Hh as [Hh|[Hr3 Hr6]]; [by right|left].
    unfold in_tuple, int_of, existsb.
    destruct (Z.eqb_spec rot 3), (Z.eqb_spec rot 6); done.
Qed.

Lemma set_crop_idempotent_witness :
  exists self1 t1 l1 r1 b1,
    set_crop (VInt 3) (VInt 5) (VInt 14) (VInt 9) (manager (photo 16 10) 16 10 8 8 1)
      = (Return tt, self1) /\
    corners_are self1 t1 l1 r1 b1 /\
    exists self2 t2 l2 r2 b2,
      set_crop (VInt t1) (VInt l1) (VInt r1) (VInt b1) self1 = (Return tt, self2) /\
      corners_are self2 t2 l2 r2 b2 /\
      (0 <= t1 <= b1 \/ (1 ≠ 3 /\ 1 ≠ 8) -> t2 = t1 /\ b2 = b1) /\
      (0 <= l1 <= r1 \/ (1 ≠ 3 /\ 1 ≠ 6) -> l2 = l1 /\ r2 = r1).
Proof.
  apply (set_crop_idempotent (manager (photo 16 10) 16 10 8 8 1) 16 10 8 8 1 3 5 14 9).
  - split; vm_compute; reflexivity.
  - lia.
  - lia.
Defined.

(** C10 as stated fails on a 16 x 10 image with granularity 8 turned by 180
    degrees: [set_crop(0, 0, 10, 1)] stores [top = 2], [bottom = 1], and
    [set_crop] with the stored edges moves [bottom] to 2.  A negative stored
    [top] moves as well. *)
Lemma set_crop_not_idempotent :
  let self := after (set_rotation (VInt 3)) (manager (photo 16 10) 16 10 8 8 1) in
  let self1 := after (set_crop (VInt 0) (VInt 0) (VInt 10) (VInt 1)) self in
  let self2 := after (set_crop (VInt 2) (VInt 0) (VInt 10) (VInt 1)) self1 in
  let self3 := after (set_crop (VInt (-20)) (VInt 0) (VInt 10) (VInt 3)) self in
  let self4 := after (set_crop (VInt (-14)) (VInt 0) (VInt 10) (VInt 3)) self3 in
  loaded self 16 10 8 8 3 /\
  corners_are self1 2 0 10 1 /\
  corners_are self2 2 0 10 2 /\
  corners_are self3 (-14) 0 10 3 /\
  corners_are self4 (-6) 0 10 3.
Proof. cbv zeta. repeat split; vm_compute; reflexivity. Qed.

(** * The ratio step of a locked drag, in floats *)

(** A derived vertical delta: [qt] is the float of [dx / a], where [a] is
    the float of [w0 / h0]; the rounding errors stay below half a pixel of
    the cross product as long as [|dx| * h0 <= 2 ^ 50]. *)
Lemma ratio_step_across (w0 h0 dx : Z) (a qt : Q) :
  0 < w0 -> 0 < h0 -> Z.abs dx * h0 <= 2 ^ 50 ->
  (Qabs (a - inject_Z w0 / inject_Z h0) <= Qabs (inject_Z w0 / inject_Z h0) * (1 # 2 ^ 53))%Q ->
  (Qabs (qt - inject_Z dx / a) <= Qabs (inject_Z dx / a) * (1 # 2 ^ 53))%Q ->
  2 * Z.abs (py_round qt * w0 - dx * h0) <= w0.
Proof.
  intros Hw Hh Hsize Ha Hq.
  assert (HW : (1 <= inject_Z w0)%Q) by (change 1%Q with (inject_Z 1); rewrite <- Zle_Qle; lia).
  assert (HH : (1 <= inject_Z h0)%Q) by (change 1%Q with (inject_Z 1); rewrite <- Zle_Qle; lia).
  assert (HP : (inject_Z (Z.abs dx) * inject_Z h0 <= inject_Z (2 ^ 50))%Q)
    by (by rewrite <- inject_Z_mult, <- Zle_Qle).
  set (Wq := inject_Z w0) in *. set (Hq' := inject_Z h0) in *.
  set (u := (1 # 2 ^ 53)%Q) in *.
  assert (Hu : (u == 1 # 9007199254740992)%Q) by reflexivity.
  (* the ratio *)
  set (rho := (Wq / Hq')%Q) in *.
  assert (Hrho : (rho * Hq' == Wq)%Q) by (unfold rho; field; lra).
  clearbody rho.
  assert (Hrho0 : (0 < rho)%Q) by (clear - HW HH Hrho; nra).
  rewrite (Qabs_pos rho) in Ha by lra.
  apply Qabs_Qle_condition in Ha. destruct Ha as [Ha1 Ha2].
  assert (HaH : ((1 - u) * Wq <= a * Hq' /\ a * Hq' <= (1 + u) * Wq)%Q).
  { rewrite <- Hrho. split; nra. }
  assert (Hu01 : (0 < u /\ u < 1 # 2)%Q) by (split; reflexivity).
  assert (Ha0 : (0 < a)%Q).
  { destruct HaH as [H1 _]. assert (0 < (1 - u) * Wq)%Q by nra.
    clear - H1 H HH. nra. }
  (* the quotient *)
  set (t := (inject_Z dx / a)%Q) in *.
  assert (Ht : (t * a == inject_Z dx)%Q) by (unfold t; field; lra).
  clearbody t.
  destruct (py_round_near qt) as [Hm1 Hm2].
  set (m := py_round qt) in *. clearbody m.
  assert (Hgoal : (inject_Z (2 * (m * w0 - dx * h0)) < inject_Z (w0 + 1))%Q /\
                  (inject_Z (- (w0 + 1)) < inject_Z (2 * (m * w0 - dx * h0)))%Q).
  { unfold Z.sub. rewrite inject_Z_opp, !inject_Z_mult, !inject_Z_plus, inject_Z_opp,
      !inject_Z_mult.
    fold Wq Hq'. change (inject_Z 2) with 2%Q. change (inject_Z 1) with 1%Q.
    rewrite <- Ht.
    assert (Eabs : (inject_Z (Z.abs dx) == Qabs (t * a))%Q).
    { rewrite Ht. reflexivity. }
    rewrite Eabs, Qabs_Qmult, (Qabs_pos a) in HP by lra.
    change (inject_Z (2 ^ 50)) with (1125899906842624%Q) in HP.
    set (T := Qabs t) in *.
    assert (HT0 : (0 <= T)%Q) by apply Qabs_nonneg.
    assert (HTt : (- T <= t /\ t <= T)%Q).
    { unfold T. split; [|apply Qle_Qabs].
      rewrite <- (Qopp_involutive t) at 2. apply Qopp_le_compat.
      rewrite <- Qabs_opp. apply Qle_Qabs. }
    apply Qabs_Qle_condition in Hq. destruct Hq as [Hq1 Hq2].
    clearbody T Wq Hq'.
    set (K := (T * Wq)%Q).
    assert (HK0 : (0 <= K)%Q) by (unfold K; nra).
    assert (HK : (K * (1 - u) <= 1125899906842624)%Q).
    { unfold K. assert (T * ((1 - u) * Wq) <= T * (a * Hq'))%Q by nra. nra. }
    assert (A1 : (- ((1 # 2) * Wq) <= (inject_Z m - qt) * Wq /\
                  (inject_Z m - qt) * Wq <= (1 # 2) * Wq)%Q).
    { clear - Hm1 Hm2 HW. split; nra. }
    assert (A2 : (- (u * K) <= (qt - t) * Wq /\ (qt - t) * Wq <= u * K)%Q).
    { unfold K. split; nra. }
    assert (A3 : (- (u * K) <= t * (Wq - a * Hq') /\ t * (Wq - a * Hq') <= u * K)%Q).
    { unfold K. destruct HaH as [H1 H2].
      assert (Hd1 : (- (u * Wq) <= Wq - a * Hq')%Q) by nra.
      assert (Hd2 : (Wq - a * Hq' <= u * Wq)%Q) by nra.
      set (d := (Wq - a * Hq')%Q) in *. clearbody d.
      split; nra. }
    assert (E : (inject_Z m * Wq + - (t * a * Hq')
                 == (inject_Z m - qt) * Wq + (qt - t) * Wq + t * (Wq - a * Hq'))%Q) by ring.
    rewrite E.
    set (e1 := ((inject_Z m - qt) * Wq)%Q) in *.
    set (e2 := ((qt - t) * Wq)%Q) in *.
    set (e3 := (t * (Wq - a * Hq'))%Q) in *.
    clearbody e1 e2 e3 K.
    clearbody u. rewrite Hu in *. split; lra. }
  destruct Hgoal as [G1 G2]. rewrite <- Zlt_Qlt in G1, G2. lia.
Qed.

(** A derived horizontal delta: [pt] is the float of [dy * a]. *)
Lemma ratio_step_along (w0 h0 dy : Z) (a pt : Q) :
  0 < w0 -> 0 < h0 -> Z.abs dy * w0 <= 2 ^ 50 ->
  (Qabs (a - inject_Z w0 / inject_Z h0) <= Qabs (inject_Z w0 / inject_Z h0) * (1 # 2 ^ 53))%Q ->
  (Qabs (pt - inject_Z dy * a) <= Qabs (inject_Z dy * a) * (1 # 2 ^ 53))%Q ->
  2 * Z.abs (py_round pt * h0 - dy * w0) <= h0.
Proof.
  intros Hw Hh Hsize Ha Hp.
  assert (HW : (1 <= inject_Z w0)%Q) by (change 1%Q with (inject_Z 1); rewrite <- Zle_Qle; lia).
  assert (HH : (1 <= inject_Z h0)%Q) by (change 1%Q with (inject_Z 1); rewrite <- Zle_Qle; lia).
  assert (HP : (inject_Z (Z.abs dy) * inject_Z w0 <= inject_Z (2 ^ 50))%Q)
    by (by rewrite <- inject_Z_mult, <- Zle_Qle).
  set (Wq := inject_Z w0) in *. set (Hq := inject_Z h0) in *.
  set (u := (1 # 2 ^ 53)%Q) in *.
  assert (Hu : (u == 1 # 9007199254740992)%Q) by reflexivity.
  assert (Hu01 : (0 < u /\ u < 1 # 2)%Q) by (split; reflexivity).
  set (rho := (Wq / Hq)%Q) in *.
  assert (Hrho : (rho * Hq == Wq)%Q) by (unfold rho; field; lra).
  clearbody rho.
  assert (Hrho0 : (0 < rho)%Q) by (clear - HW HH Hrho; nra).
  rewrite (Qabs_pos rho) in Ha by lra.
  apply Qabs_Qle_condition in Ha. destruct Ha as [Ha1 Ha2].
  assert (HaH : ((1 - u) * Wq <= a * Hq /\ a * Hq <= (1 + u) * Wq)%Q).
  { rewrite <- Hrho. split; nra. }
  assert (Ha0 : (0 < a)%Q).
  { destruct HaH as [H1 _]. assert (0 < (1 - u) * Wq)%Q by nra.
    clear - H1 H HH. nra. }
  destruct (py_round_near pt) as [Hm1 Hm2].
  set (m := py_round pt) in *. clearbody m.
  assert (Hgoal : (inject_Z (2 * (m * h0 - dy * w0)) < inject_Z (h0 + 1))%Q /\
                  (inject_Z (- (h0 + 1)) < inject_Z (2 * (m * h0 - dy * w0)))%Q).
  { unfold Z.sub. rewrite inject_Z_opp, !inject_Z_mult, !inject_Z_plus, inject_Z_opp,
      !inject_Z_mult.
    fold Wq Hq. change (inject_Z 2) with 2%Q. change (inject_Z 1) with 1%Q.
    rewrite Qabs_Qmult, (Qabs_pos a) in Hp by lra.
    change (inject_Z (Z.abs dy)) with (Qabs (inject_Z dy)) in HP.
    change (inject_Z (2 ^ 50)) with (1125899906842624%Q) in HP.
    set (D := inject_Z dy) in *.
    set (T := Qabs D) in *.
    assert (HT0 : (0 <= T)%Q) by apply Qabs_nonneg.
    assert (HTt : (- T <= D /\ D <= T)%Q).
    { unfold T. split; [|apply Qle_Qabs].
      rewrite <- (Qopp_involutive D) at 2. apply Qopp_le_compat.
      rewrite <- Qabs_opp. apply Qle_Qabs. }
    apply Qabs_Qle_condition in Hp. destruct Hp as [Hp1 Hp2].
    clearbody T D Wq Hq.
    set (P := (T * Wq)%Q) in *.
    set (L := (T * a * Hq)%Q).
    assert (HL : (0 <= L /\ L <= (1 + u) * P)%Q).
    { unfold L, P. destruct HaH as [H1 H2]. split.
      - assert (0 <= T * a)%Q by nra. nra.
      - assert (T * (a * Hq) <= T * ((1 + u) * Wq))%Q by nra. nra. }
    assert (HP0 : (0 <= P)%Q) by (unfold P; nra).
    assert (A1 : (- ((1 # 2) * Hq) <= (inject_Z m - pt) * Hq /\
                  (inject_Z m - pt) * Hq <= (1 # 2) * Hq)%Q).
    { clear - Hm1 Hm2 HH. split; nra. }
    assert (A2 : (- (u * L) <= (pt - D * a) * Hq /\ (pt - D * a) * Hq <= u * L)%Q).
    { unfold L. split; nra. }
    assert (A3 : (- (u * P) <= D * (a * Hq - Wq) /\ D * (a * Hq - Wq) <= u * P)%Q).
    { unfold P. destruct HaH as [H1 H2].
      assert (Hd1 : (- (u * Wq) <= a * Hq - Wq)%Q) by nra.
      assert (Hd2 : (a * Hq - Wq <= u * Wq)%Q) by nra.
      set (d := (a * Hq - Wq)%Q) in *. clearbody d.
      split; nra. }
    assert (E : (inject_Z m * Hq + - (D * Wq)
                 == (inject_Z m - pt) * Hq + (pt - D * a) * Hq + D * (a * Hq - Wq))%Q) by ring.
    rewrite E.
    set (e1 := ((inject_Z m - pt) * Hq)%Q) in *.
    set (e2 := ((pt - D * a) * Hq)%Q) in *.
    set (e3 := (D * (a * Hq - Wq))%Q) in *.
    clearbody e1 e2 e3 L P.
    clearbody u. rewrite Hu in *. split; lra. }
  destruct Hgoal as [G1 G2]. rewrite <- Zlt_Qlt in G1, G2. lia.
Qed.

Lemma to_float_exact (z : Z) : Z.abs z < 2 ^ 53 -> (to_float z == inject_Z z)%Q.
Proof. intros Hz. by apply fl_int. Qed.

(** The float ratio of a snapshot is its ratio up to one rounding. *)
Lemma ratio_float (w0 h0 : Z) :
  0 < w0 < 2 ^ 53 -> 0 < h0 < 2 ^ 53 ->
  (Qabs (fl (fmul (to_float w0) 1 / to_float h0) - inject_Z w0 / inject_Z h0)
   <= Qabs (inject_Z w0 / inject_Z h0) * (1 # 2 ^ 53))%Q.
Proof.
  intros Hw Hh.
  assert (E : (fmul (to_float w0) 1 / to_float h0 == inject_Z w0 / inject_Z h0)%Q).
  { unfold fmul.
    rewrite (fl_int (to_float w0 * 1) w0) by (try lia; rewrite to_float_exact by lia; ring).
    by rewrite (to_float_exact h0) by lia. }
  pose proof (fl_error (fmul (to_float w0) 1 / to_float h0)) as Herr.
  set (a := fl (fmul (to_float w0) 1 / to_float h0)) in *. clearbody a.
  by rewrite E in Herr.
Qed.

Lemma across_float (w0 h0 dx : Z) (s : bool) :
  0 < w0 < 2 ^ 53 -> 0 < h0 < 2 ^ 53 -> Z.abs dx * h0 <= 2 ^ 50 ->
  let a := fl (fmul (to_float w0) 1 / to_float h0) in
  let qt := fl (to_float dx / (if s then - a else a)) in
  2 * Z.abs (py_round qt * w0 - (if s then - dx else dx) * h0) <= w0.
Proof.
  intros Hw Hh Hsize a qt.
  pose proof (ratio_float w0 h0 Hw Hh) as Ha. fold a in Ha.
  pose proof (ratio_nonzero w0 h0 ltac:(lia) ltac:(lia)) as Hnz. fold a in Hnz.
  assert (Hdx : Z.abs dx < 2 ^ 53) by nia.
  apply (ratio_step_across w0 h0 _ a qt); [lia|lia| |done|].
  { destruct s; lia. }
  pose proof (fl_error (to_float dx / (if s then - a else a))) as Herr. fold qt in Herr.
  assert (E : (to_float dx / (if s then - a else a)
               == inject_Z (if s then - dx else dx) / a)%Q).
  { rewrite (to_float_exact dx) by done. destruct s; [|reflexivity].
    rewrite inject_Z_opp. by field. }
  clearbody qt. by rewrite E in Herr.
Qed.

Lemma along_float (w0 h0 dy : Z) (s : bool) :
  0 < w0 < 2 ^ 53 -> 0 < h0 < 2 ^ 53 -> Z.abs dy * w0 <= 2 ^ 50 ->
  let a := fl (fmul (to_float w0) 1 / to_float h0) in
  let pt := fmul (to_float dy) (if s then - a else a) in
  2 * Z.abs (py_round pt * h0 - (if s then - dy else dy) * w0) <= h0.
Proof.
  intros Hw Hh Hsize a pt.
  pose proof (ratio_float w0 h0 Hw Hh) as Ha. fold a in Ha.
  assert (Hdy : Z.abs dy < 2 ^ 53) by nia.
  apply (ratio_step_along w0 h0 _ a pt); [lia|lia| |done|].
  { destruct s; lia. }
  pose proof (fl_error (to_float dy * (if s then - a else a))) as Herr.
  fold (fmul (to_float dy) (if s then - a else a)) in Herr. fold pt in Herr.
  assert (E : (to_float dy * (if s then - a else a)
               == inject_Z (if s then - dy else dy) * a)%Q).
  { rewrite (to_float_exact dy) by done. destruct s; [|reflexivity].
    rewrite inject_Z_opp. ring. }
  clearbody pt. by rewrite E in Herr.
Qed.

(** * Aspect-locked corner drags *)

(** The locked deltas are proportional to the snapshot, up to the rounding
    of the derived one; for the top-right and bottom-left corners the two
    deltas have opposite signs.  The float operations of the ratio step add
    less than half a pixel to the cross product as long as the deltas times
    the sides of the snapshot stay below [2 ^ 50]. *)
Lemma locked_delta_ratio k t0 l0 r0 b0 dx dy :
  0 < r0 - l0 < 2 ^ 53 -> 0 < b0 - t0 < 2 ^ 53 ->
  let d := locked_delta k t0 l0 r0 b0 dx dy in
  let w0 := r0 - l0 in
  let h0 := b0 - t0 in
  Z.abs d.1 * h0 <= 2 ^ 50 -> Z.abs d.2 * w0 <= 2 ^ 50 ->
  if in_tuple (VInt k) [DRAG_TR; DRAG_BL]
  then 2 * Z.abs (d.1 * h0 + d.2 * w0) <= Z.max w0 h0
  else 2 * Z.abs (d.1 * h0 - d.2 * w0) <= Z.max w0 h0.
Proof.
  intros Hw Hh. cbv zeta. unfold locked_delta. cbv zeta.
  destruct (in_tuple (VInt k) [DRAG_TR; DRAG_BL]);
    destruct (Qltb _ _); cbn [fst snd]; intros H1 H2.
  - pose proof (across_float (r0 - l0) (b0 - t0) dx true Hw Hh H1). cbv beta iota zeta in H. lia.
  - pose proof (along_float (r0 - l0) (b0 - t0) dy true Hw Hh H2). cbv beta iota zeta in H. lia.
  - pose proof (across_float (r0 - l0) (b0 - t0) dx false Hw Hh H1). cbv beta iota zeta in H. lia.
  - pose proof (along_float (r0 - l0) (b0 - t0) dy false Hw Hh H2). cbv beta iota zeta in H. lia.
Qed.

Lemma product_bound (a b W H : Z) :
  0 <= a <= W -> 0 <= b <= H -> W <= 2 ^ 25 -> H <= 2 ^ 25 -> a * b <= 2 ^ 50.
Proof.
  intros Ha Hb HW HH. change (2 ^ 50) with (2 ^ 25 * 2 ^ 25).
  apply Z.mul_le_mono_nonneg; lia.
Qed.

(** The rectangle a locked drag asks for has the ratio of the snapshot up
    to the rounding of one side, on an image of at most [2 ^ 25] pixels a
    side. *)
Lemma locked_target_ratio k x0 y0 scale W H t0 l0 r0 b0 p :
  In k [DRAG_TL; DRAG_TR; DRAG_BL; DRAG_BR] ->
  rect_ok W H t0 l0 r0 b0 -> W <= 2 ^ 25 -> H <= 2 ^ 25 ->
  let c := locked_target k x0 y0 scale t0 l0 r0 b0 p in
  inside W H c.1.1.1 c.1.1.2 c.1.2 c.2 ->
  ratio_kept (r0 - l0) (b0 - t0) (c.1.2 - c.1.1.2) (c.2 - c.1.1.1).
Proof.
  intros Hk (Hl & Hr & Ht & Hb) HW HH. cbv zeta.
  unfold locked_target, ratio_kept, inside.
  assert (H53 : 2 ^ 25 < 2 ^ 53) by reflexivity.
  pose proof (locked_delta_ratio k t0 l0 r0 b0
                ((p.1 - x0) * scale) ((p.2 - y0) * scale) ltac:(lia) ltac:(lia)) as Hd.
  cbv zeta in Hd.
  destruct (locked_delta k t0 l0 r0 b0 ((p.1 - x0) * scale) ((p.2 - y0) * scale))
    as [dx dy].
  cbn [fst snd] in *. unfold moved.
  assert (Hsize : Z.abs dx <= W -> Z.abs dy <= H ->
                  Z.abs dx * (b0 - t0) <= 2 ^ 50 /\ Z.abs dy * (r0 - l0) <= 2 ^ 50).
  { intros Hx Hy. split.
    - apply (product_bound _ _ W H); lia.
    - apply (product_bound _ _ H W); lia. }
  set (B := 2 ^ 50) in *. clearbody B. set (C := 2 ^ 25) in *. clearbody C.
  cbn [In] in Hk. destruct Hk as [<-|[<-|[<-|[<-|[]]]]]; cbn in Hd |- *; intros Hin;
    destruct Hsize as [S1 S2]; try lia; specialize (Hd S1 S2); lia.
Qed.

(** [fix] on integers, edge by edge. *)
Lemma align_anchor a b lim r reverse :
  align a b lim r reverse = (anchor (Z.min a b) lim r reverse, Z.max a b).
Proof. unfold align, anchor. rewrite sorted2_spec. by destruct reverse. Qed.

(** Away from the step inwards, the anchored edge moves down by less than
    the granularity. *)
Lemma anchor_bounds a lim r reverse :
  0 < r -> margin r reverse <= a ->
  0 <= anchor a lim r reverse /\ a - r < anchor a lim r reverse <= a.
Proof.
  intros Hr Ha. unfold anchor, margin in *. destruct reverse.
  - pose proof (ceil_div_bounds (lim - a) r Hr) as Hq. cbv zeta.
    destruct (Z.ltb_spec (lim - (lim - a + r - 1) / r * r) 0); lia.
  - pose proof (floor_div_bounds a r Hr).
    pose proof (Z.div_pos a r Ha Hr). nia.
Qed.

Lemma anchor_idempotent a lim r reverse :
  0 < r -> 0 <= anchor a lim r reverse <= a ->
  anchor (anchor a lim r reverse) lim r reverse = anchor a lim r reverse.
Proof.
  intros Hr Ha.
  pose proof (align_idempotent a a lim r reverse Hr) as Hi. cbv zeta in Hi.
  rewrite (align_anchor a a) in Hi. cbn [fst snd] in Hi.
  rewrite Z.min_id, Z.max_id, align_anchor in Hi.
  replace (Z.min (anchor a lim r reverse) a) with (anchor a lim r reverse) in Hi by lia.
  lapply Hi; [by intros [= ->]|right; lia].
Qed.

(** In a corner drag that has not been clamped so far, a request that no
    clamp applies to goes to [set_crop] as it is: the edges the drag moves
    are those of the request, the others are the current ones. *)
Lemma drag_target_locked k W H t0 l0 r0 b0 t l r b dx dy :
  In k [DRAG_TL; DRAG_TR; DRAG_BL; DRAG_BR] ->
  let c := moved k t0 l0 r0 b0 dx dy in
  0 <= t < b -> 0 <= l < r ->
  (in_tuple (VInt k) [DRAG_TL; DRAG_T; DRAG_TR; DRAG_C] = false -> t <= t0) ->
  (in_tuple (VInt k) [DRAG_TL; DRAG_L; DRAG_BL; DRAG_C] = false -> l <= l0) ->
  (in_tuple (VInt k) [DRAG_TR; DRAG_R; DRAG_BR; DRAG_C] = false -> r = r0) ->
  (in_tuple (VInt k) [DRAG_BL; DRAG_B; DRAG_BR; DRAG_C] = false -> b = b0) ->
  unclamped W H 0 0 c ->
  drag_target k W H t0 l0 r0 b0 t l r b dx dy =
  (if in_tuple (VInt k) [DRAG_TL; DRAG_T; DRAG_TR; DRAG_C] then c.1.1.1 else t,
   if in_tuple (VInt k) [DRAG_TL; DRAG_L; DRAG_BL; DRAG_C] then c.1.1.2 else l,
   c.1.2, c.2).
Proof.
  intros Hk. cbn [In] in Hk. unfold unclamped, drag_target, moved.
  destruct Hk as [<-|[<-|[<-|[<-|[]]]]]; cbn;
    intros Htb Hlr Ht Hl Hr Hb (Hcl & Hcr & Hct & Hcb);
    try specialize (Ht eq_refl); try specialize (Hl eq_refl);
    try specialize (Hr eq_refl); try specialize (Hb eq_refl);
    cmp_cases; try lia; repeat f_equal; lia.
Qed.

Lemma ratio_near_aligned rx ry w0 h0 w h ex ey :
  0 < w0 -> 0 < h0 -> 0 <= ex <= rx - 1 -> 0 <= ey <= ry - 1 ->
  ratio_kept w0 h0 w h -> ratio_near rx ry w0 h0 (w + ex) (h + ey).
Proof.
  unfold ratio_kept, ratio_near. intros Hw Hh Hx Hy Hk.
  assert (0 <= ex * h0 <= (rx - 1) * h0) by nia.
  assert (0 <= ey * w0 <= (ry - 1) * w0) by nia.
  replace ((w + ex) * h0 - (h + ey) * w0)
    with ((w * h0 - h * w0) + (ex * h0 - ey * w0)) by ring.
  lia.
Qed.

Lemma locked_drag_step self W H rx ry rot k x0 y0 t0 l0 r0 b0 scale p :
  in_locked_drag self W H rx ry rot k x0 y0 t0 l0 r0 b0 scale ->
  0 < rx -> 0 < ry ->
  In k [DRAG_TL; DRAG_TR; DRAG_BL; DRAG_BR] -> l0 < r0 -> t0 < b0 ->
  let c := locked_target k x0 y0 scale t0 l0 r0 b0 p in
  unclamped W H (margin rx (in_tuple (VInt rot) [3; 6]))
                (margin ry (in_tuple (VInt rot) [3; 8])) c ->
  exists self',
    drag_continue p.1 p.2 self = (Return tt, self') /\
    in_locked_drag self' W H rx ry rot k x0 y0 t0 l0 r0 b0 scale /\
    corners_are self'
      (anchor c.1.1.1 H ry (in_tuple (VInt rot) [3; 8]))
      (anchor c.1.1.2 W rx (in_tuple (VInt rot) [3; 6]))
      c.1.2 c.2.
Proof.
  intros (Hld & Hdr & t & l & r & b & Hcur & Htb & Hlr & Ht & Hl & Hr & Hb)
    Hrx Hry Hk Hw Hh c (Hcl & Hcr & Hct & Hcb).
  pose proof (anchor_bounds c.1.1.1 H ry (in_tuple (VInt rot) [3; 8]) Hry (proj1 Hct))
    as (Hat0 & Hat).
  pose proof (anchor_bounds c.1.1.2 W rx (in_tuple (VInt rot) [3; 6]) Hrx (proj1 Hcl))
    as (Hal0 & Hal).
  assert (Hmx : 0 <= margin rx (in_tuple (VInt rot) [3; 6]))
    by (unfold margin; destruct (in_tuple (VInt rot) [3; 6]); lia).
  assert (Hmy : 0 <= margin ry (in_tuple (VInt rot) [3; 8]))
    by (unfold margin; destruct (in_tuple (VInt rot) [3; 8]); lia).
  (* the edges the drag does not move are those of the request *)
  assert (Hkeep :
    (in_tuple (VInt k) [DRAG_TL; DRAG_T; DRAG_TR; DRAG_C] = false -> c.1.1.1 = t0) /\
    (in_tuple (VInt k) [DRAG_TL; DRAG_L; DRAG_BL; DRAG_C] = false -> c.1.1.2 = l0) /\
    (in_tuple (VInt k) [DRAG_TR; DRAG_R; DRAG_BR; DRAG_C] = false -> c.1.2 = r0) /\
    (in_tuple (VInt k) [DRAG_BL; DRAG_B; DRAG_BR; DRAG_C] = false -> c.2 = b0)).
  { unfold c, locked_target, moved. cbn [fst snd].
    repeat split; by intros ->. }
  destruct Hkeep as (Hkt & Hkl & Hkr & Hkb).
  rewrite (drag_continue_run self W H rx ry rot k x0 y0 t0 l0 r0 b0 true scale _ _ _ _ _ _
             Hld Hdr Hcur) by done.
  cbv zeta. unfold pointer_delta.
  rewrite (drag_target_locked k W H t0 l0 r0 b0 t l r b); try done; cycle 1.
  { intros E. rewrite (Hkt E) in Hat. destruct (Ht E) as [->| ->]; lia. }
  { intros E. rewrite (Hkl E) in Hal. destruct (Hl E) as [->| ->]; lia. }
  { fold (locked_target k x0 y0 scale t0 l0 r0 b0 p). fold c.
    unfold unclamped. lia. }
  fold (locked_target k x0 y0 scale t0 l0 r0 b0 p). fold c. cbn [fst snd].
  rewrite (set_crop_run self W H rx ry rot) by (done || lia).
  rewrite !align_anchor. cbn [fst snd].
  (* the anchored edges are those of the request, aligned *)
  assert (Etop : anchor
      (Z.min (if in_tuple (VInt k) [DRAG_TL; DRAG_T; DRAG_TR; DRAG_C] then c.1.1.1 else t) c.2)
      H ry (in_tuple (VInt rot) [3; 8])
    = anchor c.1.1.1 H ry (in_tuple (VInt rot) [3; 8])).
  { destruct (in_tuple (VInt k) [DRAG_TL; DRAG_T; DRAG_TR; DRAG_C]) eqn:E.
    - f_equal. lia.
    - rewrite (Hkt eq_refl) in *. destruct (Ht eq_refl) as [->| ->].
      + f_equal. lia.
      + rewrite Z.min_l by lia. apply anchor_idempotent; lia. }
  assert (Eleft : anchor
      (Z.min (if in_tuple (VInt k) [DRAG_TL; DRAG_L; DRAG_BL; DRAG_C] then c.1.1.2 else l) c.1.2)
      W rx (in_tuple (VInt rot) [3; 6])
    = anchor c.1.1.2 W rx (in_tuple (VInt rot) [3; 6])).
  { destruct (in_tuple (VInt k) [DRAG_TL; DRAG_L; DRAG_BL; DRAG_C]) eqn:E.
    - f_equal. lia.
    - rewrite (Hkl eq_refl) in *. destruct (Hl eq_refl) as [->| ->].
      + f_equal. lia.
      + rewrite Z.min_l by lia. apply anchor_idempotent; lia. }
  assert (Ebottom :
    Z.max (if in_tuple (VInt k) [DRAG_TL; DRAG_T; DRAG_TR; DRAG_C] then c.1.1.1 else t) c.2
    = c.2).
  { destruct (in_tuple (VInt k) [DRAG_TL; DRAG_T; DRAG_TR; DRAG_C]) eqn:E; [lia|].
    rewrite (Hkt eq_refl) in *. destruct (Ht eq_refl) as [->| ->]; lia. }
  assert (Eright :
    Z.max (if in_tuple (VInt k) [DRAG_TL; DRAG_L; DRAG_BL; DRAG_C] then c.1.1.2 else l) c.1.2
    = c.1.2).
  { destruct (in_tuple (VInt k) [DRAG_TL; DRAG_L; DRAG_BL; DRAG_C]) eqn:E; [lia|].
    rewrite (Hkl eq_refl) in *. destruct (Hl eq_refl) as [->| ->]; lia. }
  rewrite Etop, Eleft, Ebottom, Eright.
  eexists. split; [reflexivity|].
  split; [|apply corners_are_stored].
  split; [by apply loaded_stored|]. split; [by apply dragging_stored|].
  eexists _, _, _, _. split; [apply corners_are_stored|].
  split; [lia|]. split; [lia|].
  split; [intros E; right; by rewrite (Hkt E)|].
  split; [intros E; right; by rewrite (Hkl E)|].
  split; [exact Hkr|exact Hkb].
Qed.

Lemma locked_drag_moves self W H rx ry rot k x0 y0 t0 l0 r0 b0 scale ps p :
  in_locked_drag self W H rx ry rot k x0 y0 t0 l0 r0 b0 scale ->
  0 < rx -> 0 < ry ->
  In k [DRAG_TL; DRAG_TR; DRAG_BL; DRAG_BR] -> l0 < r0 -> t0 < b0 ->
  Forall (fun p => unclamped W H (margin rx (in_tuple (VInt rot) [3; 6]))
                                 (margin ry (in_tuple (VInt rot) [3; 8]))
                                 (locked_target k x0 y0 scale t0 l0 r0 b0 p))
         (ps ++ [p]) ->
  exists self',
    drag_moves (ps ++ [p]) self = (Return tt, self') /\
    (let c := locked_target k x0 y0 scale t0 l0 r0 b0 p in
     corners_are self'
       (anchor c.1.1.1 H ry (in_tuple (VInt rot) [3; 8]))
       (anchor c.1.1.2 W rx (in_tuple (VInt rot) [3; 6]))
       c.1.2 c.2).
Proof.
  intros Hinv Hrx Hry Hk Hw Hh. revert self Hinv.
  induction ps as [|q ps IH]; intros self Hinv Hall.
  - apply Forall_inv in Hall.
    destruct (locked_drag_step self W H rx ry rot k x0 y0 t0 l0 r0 b0 scale p)
      as (self' & Hrun & _ & Hc); try done.
    exists self'. split; [|done].
    cbn [app drag_moves]. by rewrite (run_bind _ _ _ _ _ Hrun).
  - rewrite <- app_comm_cons in Hall.
    pose proof (Forall_inv Hall) as Hq. apply Forall_inv_tail in Hall.
    destruct (locked_drag_step self W H rx ry rot k x0 y0 t0 l0 r0 b0 scale q)
      as (self1 & Hrun & Hinv1 & _); try done.
    destruct (IH self1 Hinv1 Hall) as (self' & Hmoves & Hc).
    exists self'. split; [|done].
    cbn [app drag_moves]. by rewrite (run_bind _ _ _ _ _ Hrun).
Qed.

(** C2 (amended). On an image of at most [2 ^ 25] pixels a side, after a
    [drag_start] on a corner handle with the aspect lock requested, every
    [drag_continue] of a drag in which no call was clamped commits the right
    and bottom edges asked for and the left and top edges asked for aligned
    downwards by less than their granularity, so that the committed width
    and height have the ratio of the snapshot up to the rounding of one side
    to the nearest integer and that alignment:
    [2 * |w' * h0 - h' * w0| <= max w0 h0 + 2 * max ((rx - 1) * h0)
    ((ry - 1) * w0)].  The ratio, the quotient and the product of the ratio
    step are floats, each rounded to 53 bits; on such an image their errors
    stay below the half pixel the rounding to an integer leaves.  No call is
    clamped when every rectangle asked for satisfies
    [m <= left < right < width] and [m <= top < bottom < height], where [m]
    is 0, or the granularity minus 1 on an axis whose origin the rotation
    reverses. *)
Theorem locked_corner_drag_keeps_ratio
    self W H rx ry rot scale t l r b x0 y0 ps p :
  loaded self W H rx ry rot -> 0 < rx -> 0 < ry ->
  W <= 2 ^ 25 -> H <= 2 ^ 25 ->
  self !! "scale" = Some (VInt scale) -> scale ≠ 0 ->
  corners_are self t l r b -> rect_ok W H t l r b ->
  let k := classify_at (Z.quot t scale) (Z.quot l scale)
                       (Z.quot r scale) (Z.quot b scale) x0 y0 in
  In k [DRAG_TL; DRAG_TR; DRAG_BL; DRAG_BR] ->
  Forall (fun p => unclamped W H (margin rx (reverse_x rot)) (margin ry (reverse_y rot))
                             (locked_target k x0 y0 scale t l r b p))
         (ps ++ [p]) ->
  exists self' t' l' r' b',
    (drag_start x0 y0 true;; drag_moves (ps ++ [p])) self = (Return tt, self') /\
    corners_are self' t' l' r' b' /\
    (let c := locked_target k x0 y0 scale t l r b p in
     r' = c.1.2 /\ b' = c.2 /\
     c.1.1.2 - rx < l' <= c.1.1.2 /\ c.1.1.1 - ry < t' <= c.1.1.1) /\
    ratio_near rx ry (r - l) (b - t) (r' - l') (b' - t').
Proof.
  intros Hld Hrx Hry HW25 HH25 Hs Hnz Hc Hrect k Hk Hall.
  pose proof Hrect as (Hl & Hr & Ht & Hb).
  destruct (in_tuple_reverse rot) as [Ey Ex]. rewrite <- Ex, <- Ey in Hall.
  pose proof (drag_start_run self t l r b scale x0 y0 true Hc Hs Hnz) as Hstart.
  cbv zeta in Hstart. fold k in Hstart.
  assert (Ek : in_tuple (VInt k) [DRAG_TL; DRAG_TR; DRAG_BL; DRAG_BR] = true).
  { cbn [In] in Hk. by destruct Hk as [E|[E|[E|[E|[]]]]]; rewrite <- E. }
  rewrite Ek in Hstart.
  rewrite (run_bind _ _ _ _ _ Hstart).
  match goal with |- context [drag_moves _ ?s] => set (self1 := s) end.
  assert (Hinv : in_locked_drag self1 W H rx ry rot k x0 y0 t l r b scale).
  { unfold self1. destruct Hld, Hc.
    split; [split; lookups|]. split; [split; lookups|].
    exists t, l, r, b. split; [split; lookups|]. repeat split; auto; lia. }
  destruct (locked_drag_moves self1 W H rx ry rot k x0 y0 t l r b scale ps p Hinv)
    as (self' & Hmoves & Hcorners); [lia..|done|lia|lia|done|].
  cbv zeta in Hcorners.
  pose proof (proj1 (Forall_app _ _ _) Hall) as [_ Hp]. apply Forall_inv in Hp.
  destruct Hp as (Hcl & Hcr & Hct & Hcb).
  set (c := locked_target k x0 y0 scale t l r b p) in *.
  pose proof (anchor_bounds c.1.1.1 H ry (in_tuple (VInt rot) [3; 8]) Hry (proj1 Hct))
    as (_ & Hat).
  pose proof (anchor_bounds c.1.1.2 W rx (in_tuple (VInt rot) [3; 6]) Hrx (proj1 Hcl))
    as (_ & Hal).
  eexists self', _, _, _, _. split; [exact Hmoves|]. split; [exact Hcorners|].
  split; [cbv zeta; lia|].
  assert (Hmx : 0 <= margin rx (in_tuple (VInt rot) [3; 6]))
    by (unfold margin; destruct (in_tuple (VInt rot) [3; 6]); lia).
  assert (Hmy : 0 <= margin ry (in_tuple (VInt rot) [3; 8]))
    by (unfold margin; destruct (in_tuple (VInt rot) [3; 8]); lia).
  pose proof (locked_target_ratio k x0 y0 scale W H t l r b p Hk Hrect HW25 HH25) as Hratio.
  cbv zeta in Hratio. fold c in Hratio.
  specialize (Hratio ltac:(unfold inside; lia)).
  replace (c.1.2 - anchor c.1.1.2 W rx (in_tuple (VInt rot) [3; 6]))
    with ((c.1.2 - c.1.1.2) + (c.1.1.2 - anchor c.1.1.2 W rx (in_tuple (VInt rot) [3; 6])))
    by lia.
  replace (c.2 - anchor c.1.1.1 H ry (in_tuple (VInt rot) [3; 8]))
    with ((c.2 - c.1.1.1) + (c.1.1.1 - anchor c.1.1.1 H ry (in_tuple (VInt rot) [3; 8])))
    by lia.
  apply ratio_near_aligned; (done || lia).
Qed.

Lemma locked_corner_drag_keeps_ratio_witness :
  exists self' t' l' r' b',
    (drag_start 9 9 true;; drag_moves ([(14, 9)] ++ [(20, 16)]))
      (after (set_crop (VInt 10) (VInt 10) (VInt 50) (VInt 30))
             (manager (photo 100 100) 100 100 8 8 1))
    = (Return tt, self') /\
    corners_are self' t' l' r' b' /\
    (let c := locked_target DRAG_TL 9 9 1 8 8 50 30 (20, 16) in
     r' = c.1.2 /\ b' = c.2 /\
     c.1.1.2 - 8 < l' <= c.1.1.2 /\ c.1.1.1 - 8 < t' <= c.1.1.1) /\
    ratio_near 8 8 (50 - 8) (30 - 8) (r' - l') (b' - t').
Proof.
  apply (locked_corner_drag_keeps_ratio
           (after (set_crop (VInt 10) (VInt 10) (VInt 50) (VInt 30))
                  (manager (photo 100 100) 100 100 8 8 1))
           100 100 8 8 1 1 8 8 50 30 9 9 [(14, 9)] (20, 16)).
  - split; vm_compute; reflexivity.
  - lia.
  - lia.
  - lia.
  - lia.
  - vm_compute; reflexivity.
  - lia.
  - split; vm_compute; reflexivity.
  - unfold rect_ok; lia.
  - vm_compute. lia.
  - repeat constructor; vm_compute; discriminate.
Defined.

(** C2 as stated fails when a clamp applies. On a 100 x 100 image with
    granularity 1 and the rectangle [(0, 0, 50, 25)] (ratio 2), a locked
    drag of the bottom-right corner from [(45, 22)] to [(145, 22)] asks for
    [right = 150], which is clamped to 99 while the bottom edge goes to 75:
    the committed rectangle is 99 by 75. *)
Lemma locked_drag_clamped_changes_ratio :
  let self := after (set_crop (VInt 0) (VInt 0) (VInt 50) (VInt 25))
                    (manager (drawing 100 100) 100 100 1 1 1) in
  let self1 := after (drag_start 45 22 true) self in
  loaded self 100 100 1 1 1 /\
  corners_are self 0 0 50 25 /\
  dragging self1 DRAG_BR 45 22 0 0 50 25 true 1 /\
  (drag_continue 145 22 self1).1 = Return tt /\
  corners_are (after (drag_continue 145 22) self1) 0 0 99 75 /\
  ~ ratio_kept (50 - 0) (25 - 0) (99 - 0) (75 - 0) /\
  ~ ratio_near 1 1 (50 - 0) (25 - 0) (99 - 0) (75 - 0) /\
  ~ ratio_within 10 (50 - 0) (25 - 0) (99 - 0) (75 - 0).
Proof.
  cbv zeta. repeat split; try (vm_compute; reflexivity).
  - unfold ratio_kept. lia.
  - unfold ratio_near. lia.
  - unfold ratio_within. lia.
Qed.

(** The ratio step rounds as the floats of the source do.  For a snapshot
    22 by 30 the ratio is the float nearest to [22 / 30], and 11 divided by
    it is the float just above 15: with the deltas 11 and -15 the vertical
    delta is derived from the horizontal one, where exact arithmetic would
    find a tie and derive the horizontal one.  On a 24 x 100 image the drag
    from [(20, 25)] to [(31, 10)] so commits [(0, 0, 23, 45)]. *)
Example ratio_step_in_floats :
  locked_delta DRAG_BR 0 0 22 30 11 (-15) = (11, 15) /\
  corners_are
    (after (drag_start 20 25 true;; drag_continue 31 10)
       (after (set_crop (VInt 0) (VInt 0) (VInt 22) (VInt 30))
              (manager (drawing 24 100) 24 100 1 1 1)))
    0 0 23 45.
Proof. split; [|split]; vm_compute; reflexivity. Qed.

Lemma ratio_kept_within (w0 h0 w h : Z) :
  0 < w0 -> 0 < h0 -> ratio_kept w0 h0 w h -> ratio_within 1 w0 h0 w h.
Proof. unfold ratio_kept, ratio_within. lia. Qed.

(** * [nextPowerOf2]: when the loop ends *)

Lemma shift_loop_negative fuel ceiln count :
  ceiln < 0 -> shift_loop fuel ceiln count = None.
Proof.
  revert ceiln count. induction fuel as [|fuel IH]; intros ceiln count Hc; cbn [shift_loop].
  - destruct (Z.eqb_spec ceiln 0); [lia|done].
  - destruct (Z.eqb_spec ceiln 0); [lia|].
    apply IH. by apply Z.shiftr_neg.
Qed.

Lemma shiftr_1_decreases ceiln : 0 < ceiln -> 0 <= Z.shiftr ceiln 1 < ceiln.
Proof.
  intros Hc. rewrite Z.shiftr_div_pow2 by lia. change (2 ^ 1) with 2.
  split; [apply Z.div_pos; lia|apply Z.div_lt; lia].
Qed.

Lemma shift_loop_ends fuel ceiln count :
  0 <= ceiln <= Z.of_nat fuel -> exists n, shift_loop fuel ceiln count = Some n.
Proof.
  revert ceiln count. induction fuel as [|fuel IH]; intros ceiln count Hc; cbn [shift_loop].
  - destruct (Z.eqb_spec ceiln 0); [by eexists|lia].
  - destruct (Z.eqb_spec ceiln 0); [by eexists|].
    apply IH. pose proof (shiftr_1_decreases ceiln). lia.
Qed.

(** C9. [nextPowerOf2] returns, given enough iterations, exactly when the
    ceiling of its argument is not negative, and never returns when it is
    negative: the shift brings a positive value strictly closer to 0 and
    keeps a negative value negative. *)
Theorem nextPowerOf2_terminates_iff (n : Q) :
  ((exists fuel v, nextPowerOf2 fuel n = Some v) <-> 0 <= Qceiling n) /\
  ((forall fuel, nextPowerOf2 fuel n = None) <-> Qceiling n < 0) /\
  (forall ceiln, 0 < ceiln -> 0 <= Z.shiftr ceiln 1 < ceiln) /\
  (forall ceiln, ceiln < 0 -> Z.shiftr ceiln 1 < 0).
Proof.
  assert (Hneg : Qceiling n < 0 -> forall fuel, nextPowerOf2 fuel n = None).
  { intros Hc fuel. unfold nextPowerOf2. cbv zeta.
    destruct (Z.eqb_spec (Z.land (Qceiling n) (Qceiling n - 1)) 0) as [E|_].
    - assert (Z.land (Qceiling n) (Qceiling n - 1) < 0) by (apply Z.land_neg; lia). lia.
    - rewrite andb_false_r. by rewrite shift_loop_negative. }
  assert (Hpos : 0 <= Qceiling n -> exists fuel v, nextPowerOf2 fuel n = Some v).
  { intros Hc. exists (Z.to_nat (Qceiling n)). unfold nextPowerOf2. cbv zeta.
    destruct (_ && _); [by eexists|].
    destruct (shift_loop_ends (Z.to_nat (Qceiling n)) (Qceiling n) 0) as [c ->]; [lia|].
    by eexists. }
  split; [|split; [|split]].
  - split; [|done]. intros (fuel & v & Hv).
    destruct (Z.le_gt_cases 0 (Qceiling n)) as [|Hc]; [done|].
    rewrite (Hneg Hc) in Hv. done.
  - split; [|done]. intros Hnone.
    destruct (Z.le_gt_cases 0 (Qceiling n)) as [Hc|]; [|done].
    destruct (Hpos Hc) as (fuel & v & Hv). rewrite Hnone in Hv. done.
  - apply shiftr_1_decreases.
  - intros ceiln Hc. by apply Z.shiftr_neg.
Qed.

(** * [get_cropspec] *)

Lemma is_jpeg_spec image :
  is_jpeg image = true <-> format image = Some "JPEG" \/ format image = Some "MPO".
Proof.
  unfold is_jpeg. rewrite orb_true_iff, !bool_decide_eq_true. done.
Qed.

(** C7. [get_cropspec] returns ["WfxHf+L+T"] exactly when the format of the
    image is JPEG or MPO, and ["WxH+L+T"] exactly when it is not, where [W]
    is [r - l] and [H] is [b - t]. *)
Theorem get_cropspec_suffix image (t l r b rotation : Z) :
  (is_jpeg image = true <-> format image = Some "JPEG" \/ format image = Some "MPO") /\
  (get_cropspec image (t, l, r, b) rotation
     = fmt_d (r - l) +:+ "fx" +:+ fmt_d (b - t) +:+ "f+" +:+ fmt_d l +:+ "+" +:+ fmt_d t
   <-> is_jpeg image = true) /\
  (get_cropspec image (t, l, r, b) rotation
     = fmt_d (r - l) +:+ "x" +:+ fmt_d (b - t) +:+ "+" +:+ fmt_d l +:+ "+" +:+ fmt_d t
   <-> is_jpeg image = false).
Proof.
  split; [apply is_jpeg_spec|].
  unfold get_cropspec. destruct (is_jpeg image).
  - split; [done|]. split; [|done].
    intros E%(inj (String.app _)). discriminate E.
  - split; [|done]. split; [|done].
    intros E%(inj (String.app _)). discriminate E.
Qed.

Example get_cropspec_jpeg :
  get_cropspec (photo 640 480) (1, 2, 30, 40) 1 = "28fx39f+2+1".
Proof. reflexivity. Qed.

Example get_cropspec_png :
  get_cropspec {| format := Some "PNG"; width := 640; height := 480 |} (1, 2, 30, 40) 6
  = "28x39+2+1".
Proof. reflexivity. Qed.

(** * The command of the worker *)

Lemma rotation_name_none (rotation : Z) :
  In rotation [1; 3; 6; 8] ->
  (String.eqb (rotation_name rotation) "none" = true <-> rotation = 1).
Proof.
  cbn [In]. intros [<-|[<-|[<-|[<-|[]]]]]; cbn; split; (done || lia).
Qed.

(** The test of the copy branch, for a rectangle inside the image. *)
Lemma copy_test_spec (task : CropRequest) (t l r b : Z) :
  0 <= l < r -> r <= width (image task) ->
  0 <= t < b -> b <= height (image task) ->
  In (rotation task) [1; 3; 6; 8] ->
  (r + b - l - t =? width (image task) + height (image task))
    && String.eqb (rotation_name (rotation task)) "none" = true
  <-> (l = 0 /\ t = 0 /\ r = width (image task) /\ b = height (image task))
      /\ rotation task = 1.
Proof.
  intros Hl Hr Ht Hb Hrot.
  rewrite andb_true_iff, Z.eqb_eq, (rotation_name_none _ Hrot). lia.
Qed.

(** C4. For a job whose corners satisfy [0 <= left < right <= width] and
    [0 <= top < bottom <= height] and whose rotation is one of the codes 1,
    3, 6, 8 of the manager, the worker builds the plain copy command exactly
    when the rectangle is the whole image and the rotation is 1; in every
    other case the program of the command is jpegtran or convert (magick on
    Windows). *)
Theorem runner_copies_iff_full (windows : bool) (task : CropRequest) (t l r b : Z) :
  corners task = (t, l, r, b) ->
  0 <= l < r -> r <= width (image task) ->
  0 <= t < b -> b <= height (image task) ->
  In (rotation task) [1; 3; 6; 8] ->
  let full := l = 0 /\ t = 0 /\ r = width (image task) /\ b = height (image task) in
  (runner_command windows task = copy_command windows task
   <-> full /\ rotation task = 1) /\
  (In (program windows (runner_command windows task)) ["jpegtran"; "convert"; "magick"]
   <-> ~ (full /\ rotation task = 1)).
Proof.
  intros Hc Hl Hr Ht Hb Hrot full.
  pose proof (copy_test_spec task t l r b Hl Hr Ht Hb Hrot) as Htest.
  fold full in Htest.
  unfold runner_command, copy_command, program. rewrite Hc.
  destruct (_ && _).
  - (* the copy branch *)
    assert (Hfull : full /\ rotation task = 1) by by apply Htest.
    split; [by destruct windows|].
    split; [|done].
    destruct windows; cbn [hd tl In]; intros [|[|[|[]]]]; discriminate.
  - (* jpegtran or convert *)
    assert (Hnot : ~ (full /\ rotation task = 1)) by (intros E%Htest; discriminate).
    split.
    + split; [|done].
      destruct windows, (is_jpeg (image task)), (negb _); discriminate.
    + split; [done|]. intros _.
      destruct windows, (is_jpeg (image task)), (negb _); cbn [app hd tl In]; tauto.
Qed.

Lemma runner_copies_iff_full_witness :
  let task := {| image := photo 640 480; image_name := "a.jpg";
                 corners := (0, 0, 640, 480); rotation := 1;
                 target := "a-crop.jpg" |} in
  let full := 0 = 0 /\ 0 = 0 /\ 640 = width (image task) /\ 480 = height (image task) in
  (runner_command false task = copy_command false task
   <-> full /\ rotation task = 1) /\
  (In (program false (runner_command false task)) ["jpegtran"; "convert"; "magick"]
   <-> ~ (full /\ rotation task = 1)).
Proof.
  intros task.
  apply (runner_copies_iff_full false task 0 0 640 480).
  - reflexivity.
  - lia.
  - simpl. lia.
  - lia.
  - simpl. lia.
  - simpl. lia.
Defined.

(** * Image and rotation changes *)

Lemma reads_as_image_turned rot i self :
  In rot [1; 3; 6; 8] ->
  exists i', turned rot i = VImage i' /\ reads (as_image (turned rot i)) self i'.
Proof.
  cbn [In]. intros [<-|[<-|[<-|[<-|[]]]]]; eexists; split; reflexivity.
Qed.

Lemma reads_apply_rotation self rot i :
  self !! "_rotation" = Some (VInt rot) ->
  reads (apply_rotation (VImage i)) self (turned rot i).
Proof. intros Hrot. unfold apply_rotation, turned. reads_tac. Qed.

Lemma reads_size_changed self W H pw ph :
  self !! "w" = Some (VInt W) -> self !! "h" = Some (VInt H) ->
  self !! "prev_w" = Some (VInt pw) -> self !! "prev_h" = Some (VInt ph) ->
  reads size_changed self (size_test W H pw ph).
Proof. intros Hw Hh Hpw Hph. unfold size_changed, size_test. reads_tac. Qed.

Lemma size_test_spec W H pw ph :
  size_test W H pw ph = false <-> W ≠ 0 /\ W = pw /\ H = ph.
Proof.
  unfold size_test, in_tuple, py_eq, int_of, existsb.
  destruct (Z.eqb_spec W 0), (Z.eqb_spec W pw), (Z.eqb_spec H ph);
    cbn [orb negb]; split; (done || lia || intuition).
Qed.

(** The two branches of [image_or_rotation_changed]. *)
Lemma image_or_rotation_changed_reset self W H rx ry rot i pw ph :
  loaded self W H rx ry rot -> rx ≠ 0 -> ry ≠ 0 -> In rot [1; 3; 6; 8] ->
  self !! "_orig_image" = Some (VImage i) ->
  self !! "prev_w" = Some (VInt pw) -> self !! "prev_h" = Some (VInt ph) ->
  size_test W H pw ph = true ->
  exists i',
    image_or_rotation_changed self =
    (Return tt,
     <["xor" := VImage (copy i')]> (<["blurred" := VImage (copy i')]>
     (<["right" := VInt (align 0 W W rx (in_tuple (VInt rot) [3; 6])).2]>
     (<["left" := VInt (align 0 W W rx (in_tuple (VInt rot) [3; 6])).1]>
     (<["bottom" := VInt (align 0 H H ry (in_tuple (VInt rot) [3; 8])).2]>
     (<["top" := VInt (align 0 H H ry (in_tuple (VInt rot) [3; 8])).1]>
     (<["_image" := VImage i']> self))))))).
Proof.
  intros [] Hrx Hry Hrot Hi Hpw Hph Htest.
  destruct (reads_as_image_turned rot i (<["_image" := turned rot i]> self) Hrot)
    as (i' & Ei & _).
  exists i'. unfold image_or_rotation_changed.
  step. eapply run_reads; [by apply reads_apply_rotation|]. cbv beta.
  step. eapply run_reads; [apply (reads_size_changed _ W H pw ph); lookups|].
  rewrite Htest. cbv beta iota. rewrite Ei.
  repeat step. rewrite fix_int by done. repeat step.
  rewrite fix_int by done. repeat step. reflexivity.
Qed.

Lemma image_or_rotation_changed_reuse self W H rx ry rot i pw ph pt pb pl pr :
  loaded self W H rx ry rot -> In rot [1; 3; 6; 8] ->
  self !! "_orig_image" = Some (VImage i) ->
  self !! "prev_w" = Some (VInt pw) -> self !! "prev_h" = Some (VInt ph) ->
  size_test W H pw ph = false ->
  self !! "prev_top" = Some pt -> self !! "prev_bottom" = Some pb ->
  self !! "prev_left" = Some pl -> self !! "prev_right" = Some pr ->
  exists i',
    image_or_rotation_changed self =
    (Return tt,
     <["xor" := VImage (copy i')]> (<["blurred" := VImage (copy i')]>
     (<["right" := pr]> (<["left" := pl]> (<["bottom" := pb]> (<["top" := pt]>
     (<["_image" := VImage i']> self))))))).
Proof.
  intros [] Hrot Hi Hpw Hph Htest Hpt Hpb Hpl Hpr.
  destruct (reads_as_image_turned rot i (<["_image" := turned rot i]> self) Hrot)
    as (i' & Ei & _).
  exists i'. unfold image_or_rotation_changed.
  step. eapply run_reads; [by apply reads_apply_rotation|]. cbv beta.
  step. eapply run_reads; [apply (reads_size_changed _ W H pw ph); lookups|].
  rewrite Htest. cbv beta iota. rewrite Ei.
  repeat step. reflexivity.
Qed.

Ltac not_redrawn :=
  unfold redrawn; rewrite !not_elem_of_cons; repeat split; try done; apply not_elem_of_nil.

(** On a ready manager the call returns and assigns nothing but the
    attributes listed in [redrawn]. *)
Lemma image_or_rotation_changed_frame self W H rx ry rot :
  ready self W H rx ry rot ->
  exists self',
    image_or_rotation_changed self = (Return tt, self') /\
    forall name, name ∉ redrawn -> self' !! name = self !! name.
Proof.
  intros [Hld Hrx Hry Hrot [i Hi] (pw & ph & Hpw & Hph & Hprev)].
  assert (Hframe : forall (a b c d e f g : value) name, name ∉ redrawn ->
    (<["xor" := a]> (<["blurred" := b]> (<["right" := c]> (<["left" := d]>
      (<["bottom" := e]> (<["top" := f]> (<["_image" := g]> self))))))) !! name
    = self !! name).
  { intros a b c d e f g name Hname. unfold redrawn in Hname.
    rewrite !not_elem_of_cons in Hname.
    destruct Hname as (? & ? & ? & ? & ? & ? & ? & _).
    by rewrite !lookup_insert_ne by done. }
  destruct (size_test W H pw ph) eqn:Htest.
  - destruct (image_or_rotation_changed_reset self W H rx ry rot i pw ph)
      as (i' & ->); try done.
    eexists. split; [reflexivity|]. apply Hframe.
  - destruct Hprev as [->|([pt Hpt] & [pb Hpb] & [pl Hpl] & [pr Hpr])].
    { apply size_test_spec in Htest. lia. }
    destruct (image_or_rotation_changed_reuse self W H rx ry rot i pw ph pt pb pl pr)
      as (i' & ->); try done.
    eexists. split; [reflexivity|]. apply Hframe.
Qed.

Lemma in_rotations (rot : Z) :
  In rot [1; 3; 6; 8] <-> in_tuple (VInt rot) [1; 3; 6; 8] = true.
Proof.
  unfold in_tuple, int_of, existsb. cbn [In].
  destruct (Z.eqb_spec rot 1), (Z.eqb_spec rot 3), (Z.eqb_spec rot 6), (Z.eqb_spec rot 8);
    cbn [orb]; split; (done || lia || tauto).
Qed.

(** [set_rotation] with one of the four codes, on a ready manager. *)
Lemma set_rotation_run self W H rx ry rot rot' :
  ready self W H rx ry rot -> In rot' [1; 3; 6; 8] ->
  exists self',
    set_rotation (VInt rot') self = (Return tt, self') /\
    ready self' W H rx ry rot'.
Proof.
  intros Hready Hrot'. pose proof Hready as [[] Hrx Hry Hrot [i Hi] (pw & ph & Hpw & Hph & Hprev)].
  assert (Hready' : ready (<["_rotation" := VInt rot']> self) W H rx ry rot').
  { split; [split; lookups|done..| |].
    - exists i. lookups.
    - exists pw, ph. rewrite !lookup_insert_ne by done. done. }
  destruct (image_or_rotation_changed_frame _ W H rx ry rot' Hready') as (self' & Hrun & Hframe).
  exists self'. split.
  - unfold set_rotation. rewrite (proj1 (in_rotations rot') Hrot'). cbn [negb].
    do 2 step. exact Hrun.
  - assert (Hkeep : forall name, name ∉ redrawn ->
        self' !! name = (<["_rotation" := VInt rot']> self) !! name) by exact Hframe.
    destruct Hready' as [[] _ _ _ [i' Hi'] (pw' & ph' & Hpw' & Hph' & Hprev')].
    split; [split|done..| |].
    1-5: rewrite Hkeep by not_redrawn; done.
    + exists i'. rewrite Hkeep by not_redrawn. done.
    + exists pw', ph'. rewrite !Hkeep by not_redrawn. done.
Qed.

Lemma rotate_cw_run self W H rx ry rot :
  ready self W H rx ry rot ->
  exists self' rot',
    rotate_cw self = (Return tt, self') /\
    ready self' H W ry rx rot' /\
    In (rot, rot') cw_cycle.
Proof.
  intros Hready.
  pose proof Hready as [[] Hrx Hry Hrot [i Hi] (pw & ph & Hpw & Hph & Hprev)].
  set (flipped := <["round_y" := VInt rx]> (<["round_x" := VInt ry]>
                   (<["h" := VInt W]> (<["w" := VInt H]> self)))).
  assert (Hflipped : ready flipped H W ry rx rot).
  { unfold flipped. split; [split; lookups|done..| |].
    - exists i. lookups.
    - exists pw, ph. rewrite !lookup_insert_ne by done. done. }
  assert (Hrun : forall rot', In (rot, rot') cw_cycle ->
    (let r := if in_tuple (VInt rot) [1] then VInt 6
              else if in_tuple (VInt rot) [6] then VInt 3
              else if in_tuple (VInt rot) [3] then VInt 8
              else if in_tuple (VInt rot) [8] then VInt 1
              else VInt rot in
     set_rotation r) = set_rotation (VInt rot')).
  { unfold cw_cycle. cbn [In]. intros rot' [E|[E|[E|[E|[]]]]]; by injection E as <- <-. }
  assert (Hnext : exists rot', In (rot, rot') cw_cycle /\ In rot' [1; 3; 6; 8]).
  { unfold cw_cycle. cbn [In] in *.
    destruct Hrot as [<-|[<-|[<-|[<-|[]]]]]; eexists; split; eauto 10. }
  destruct Hnext as (rot' & Hcycle & Hrot').
  destruct (set_rotation_run flipped H W ry rx rot rot' Hflipped Hrot')
    as (self' & Hset & Hready').
  exists self', rot'. split; [|done].
  unfold rotate_cw, _flip_dimensions.
  repeat step. fold flipped.
  cbv zeta in Hrun. rewrite (Hrun rot' Hcycle). exact Hset.
Qed.

Lemma cw_cycle_closes (a b c d e : Z) :
  In (a, b) cw_cycle -> In (b, c) cw_cycle -> In (c, d) cw_cycle -> In (d, e) cw_cycle ->
  e = a.
Proof.
  unfold cw_cycle. cbn [In]. intros Hab Hbc Hcd Hde.
  destruct Hab as [?|[?|[?|[?|[]]]]]; simplify_eq;
    destruct Hbc as [?|[?|[?|[?|[]]]]]; simplify_eq;
    destruct Hcd as [?|[?|[?|[?|[]]]]]; simplify_eq;
    destruct Hde as [?|[?|[?|[?|[]]]]]; simplify_eq; done.
Qed.

(** C5. On a manager with an image loaded (granularities other than 0)
    whose rotation is 1, 3, 6 or 8, [rotate_cw] returns, exchanges width and
    height and the two granularities, and moves the rotation one step along
    1, 6, 3, 8, 1; four calls in a row return and bring the rotation, the
    width, the height and both granularities back to their first values. *)
Theorem rotate_cw_four_times self W H rx ry rot :
  ready self W H rx ry rot ->
  (exists self1 rot1,
     rotate_cw self = (Return tt, self1) /\
     loaded self1 H W ry rx rot1 /\
     In (rot, rot1) [(1, 6); (6, 3); (3, 8); (8, 1)]) /\
  (exists self4,
     (rotate_cw;; rotate_cw;; rotate_cw;; rotate_cw) self = (Return tt, self4) /\
     loaded self4 W H rx ry rot).
Proof.
  intros Hready.
  destruct (rotate_cw_run self W H rx ry rot Hready) as (self1 & rot1 & Hrun1 & Hready1 & Hc1).
  destruct (rotate_cw_run self1 H W ry rx rot1 Hready1) as (self2 & rot2 & Hrun2 & Hready2 & Hc2).
  destruct (rotate_cw_run self2 W H rx ry rot2 Hready2) as (self3 & rot3 & Hrun3 & Hready3 & Hc3).
  destruct (rotate_cw_run self3 H W ry rx rot3 Hready3) as (self4 & rot4 & Hrun4 & Hready4 & Hc4).
  split.
  - exists self1, rot1. split; [done|]. split; [apply Hready1|exact Hc1].
  - exists self4. split.
    + rewrite (run_bind _ _ _ _ _ Hrun1), (run_bind _ _ _ _ _ Hrun2),
        (run_bind _ _ _ _ _ Hrun3). exact Hrun4.
    + rewrite <- (cw_cycle_closes rot rot1 rot2 rot3 rot4) by done. apply Hready4.
Qed.

Lemma ready_manager :
  ready (manager (photo 16 10) 16 10 8 8 1) 16 10 8 8 1.
Proof.
  split.
  - split; vm_compute; reflexivity.
  - lia.
  - lia.
  - simpl. lia.
  - eexists. vm_compute. reflexivity.
  - exists 0, 0. split; [vm_compute; reflexivity|].
    split; [vm_compute; reflexivity|]. left. reflexivity.
Defined.

Lemma rotate_cw_four_times_witness :
  (exists self1 rot1,
     rotate_cw (manager (photo 16 10) 16 10 8 8 1) = (Return tt, self1) /\
     loaded self1 10 16 8 8 rot1 /\
     In (1, rot1) [(1, 6); (6, 3); (3, 8); (8, 1)]) /\
  (exists self4,
     (rotate_cw;; rotate_cw;; rotate_cw;; rotate_cw) (manager (photo 16 10) 16 10 8 8 1)
       = (Return tt, self4) /\
     loaded self4 16 10 8 8 1).
Proof.
  apply (rotate_cw_four_times (manager (photo 16 10) 16 10 8 8 1) 16 10 8 8 1).
  apply ready_manager.
Defined.

(** C6. [set_rotation] with a value that is not in [(1, 3, 6, 8)] raises
    [ValueError] and leaves every attribute as it was; with one of the four
    codes, on a manager with an image loaded, it returns and the stored
    rotation is that code. *)
Theorem set_rotation_checks_argument :
  (forall (self : gmap string value) (r : value),
     in_tuple r [1; 3; 6; 8] = false ->
     set_rotation r self = (Raise ValueError, self)) /\
  (forall (self : gmap string value) (W H rx ry rot r : Z),
     ready self W H rx ry rot ->
     In r [1; 3; 6; 8] ->
     exists self',
       set_rotation (VInt r) self = (Return tt, self') /\
       get_rotation self' = (Return (VInt r), self')).
Proof.
  split.
  - intros self r Hr. unfold set_rotation. by rewrite Hr.
  - intros self W H rx ry rot r Hready Hr.
    destruct (set_rotation_run self W H rx ry rot r Hready Hr) as (self' & Hrun & Hready').
    exists self'. split; [done|].
    apply reads_getattr, Hready'.
Qed.

Lemma set_rotation_checks_argument_witness :
  set_rotation (VInt 2) (manager (photo 16 10) 16 10 8 8 1)
    = (Raise ValueError, manager (photo 16 10) 16 10 8 8 1) /\
  exists self',
    set_rotation (VInt 6) (manager (photo 16 10) 16 10 8 8 1) = (Return tt, self') /\
    get_rotation self' = (Return (VInt 6), self').
Proof.
  split.
  - apply (proj1 set_rotation_checks_argument). reflexivity.
  - apply (proj2 set_rotation_checks_argument _ 16 10 8 8 1 6 ready_manager).
    simpl. lia.
Defined.

(** C8. On an image or rotation change of a manager with an image loaded:
    when the width is not 0 and width and height equal the remembered ones,
    the remembered rectangle becomes the rectangle as it is; otherwise the
    rectangle becomes what [fix] returns for the full interval of each axis,
    with the upper bound as origin for the rotations 3 and 8 on the vertical
    axis and 3 and 6 on the horizontal axis. *)
Theorem image_or_rotation_changed_policy self W H rx ry rot i pw ph :
  loaded self W H rx ry rot -> In rot [1; 3; 6; 8] ->
  self !! "_orig_image" = Some (VImage i) ->
  self !! "prev_w" = Some (VInt pw) -> self !! "prev_h" = Some (VInt ph) ->
  (W ≠ 0 /\ W = pw /\ H = ph ->
   forall pt pb pl pr,
     self !! "prev_top" = Some pt -> self !! "prev_bottom" = Some pb ->
     self !! "prev_left" = Some pl -> self !! "prev_right" = Some pr ->
     exists self',
       image_or_rotation_changed self = (Return tt, self') /\
       get_corners self' = (Return (pt, pl, pr, pb), self')) /\
  (~ (W ≠ 0 /\ W = pw /\ H = ph) -> rx ≠ 0 -> ry ≠ 0 ->
   exists self' t l r b,
     image_or_rotation_changed self = (Return tt, self') /\
     fix_ (VInt 0) (VInt H) (VInt H) (VInt ry) (reverse_y rot) = Return (t, b) /\
     fix_ (VInt 0) (VInt W) (VInt W) (VInt rx) (reverse_x rot) = Return (l, r) /\
     corners_are self' t l r b).
Proof.
  intros Hld Hrot Hi Hpw Hph.
  destruct (in_tuple_reverse rot) as [Ey Ex].
  split.
  - intros Hsame%size_test_spec pt pb pl pr Hpt Hpb Hpl Hpr.
    destruct (image_or_rotation_changed_reuse self W H rx ry rot i pw ph pt pb pl pr)
      as (i' & ->); try done.
    eexists. split; [reflexivity|].
    change (reads get_corners
              (<["xor" := VImage (copy i')]> (<["blurred" := VImage (copy i')]>
               (<["right" := pr]> (<["left" := pl]> (<["bottom" := pb]>
               (<["top" := pt]> (<["_image" := VImage i']> self)))))))
              (pt, pl, pr, pb)).
    reads_tac.
  - intros Hdiff Hrx Hry.
    assert (Htest : size_test W H pw ph = true).
    { destruct (size_test W H pw ph) eqn:E; [done|]. by apply size_test_spec in E. }
    destruct (image_or_rotation_changed_reset self W H rx ry rot i pw ph)
      as (i' & ->); try done.
    rewrite <- Ex, <- Ey, !fix_int by done.
    eexists _, _, _, _, _. split; [reflexivity|].
    split; [f_equal; apply surjective_pairing|].
    split; [f_equal; apply surjective_pairing|].
    split; lookups.
Qed.

Lemma image_or_rotation_changed_policy_witness :
  let self := after save_prev_crop (manager (photo 16 10) 16 10 8 8 1) in
  (16 ≠ 0 /\ 16 = 16 /\ 10 = 10 ->
   forall pt pb pl pr,
     self !! "prev_top" = Some pt -> self !! "prev_bottom" = Some pb ->
     self !! "prev_left" = Some pl -> self !! "prev_right" = Some pr ->
     exists self',
       image_or_rotation_changed self = (Return tt, self') /\
       get_corners self' = (Return (pt, pl, pr, pb), self')) /\
  (~ (16 ≠ 0 /\ 16 = 16 /\ 10 = 10) -> 8 ≠ 0 -> 8 ≠ 0 ->
   exists self' t l r b,
     image_or_rotation_changed self = (Return tt, self') /\
     fix_ (VInt 0) (VInt 10) (VInt 10) (VInt 8) (reverse_y 1) = Return (t, b) /\
     fix_ (VInt 0) (VInt 16) (VInt 16) (VInt 8) (reverse_x 1) = Return (l, r) /\
     corners_are self' t l r b).
Proof.
  intros self.
  apply (image_or_rotation_changed_policy self 16 10 8 8 1
           {| format := None; width := 16; height := 10 |} 16 10).
  - split; vm_compute; reflexivity.
  - simpl. lia.
  - vm_compute. reflexivity.
  - vm_compute. reflexivity.
  - vm_compute. reflexivity.
Defined.

(** The remembered rectangle of a manager on which [save_prev_crop] was
    never called has no right edge: [__init__] does not create
    [prev_right]. *)
Example init_leaves_prev_right_unset :
  (after __init__ ∅) !! "prev_right" = None /\
  (after __init__ ∅) !! "prev_left" = Some (VInt 0).
Proof. split; vm_compute; reflexivity. Qed.

(** * Further properties of the module-level helpers *)

(** ** [clamp] *)

(** X1. With bounds in order, [clamp] returns a value between them: the
    argument itself when it lies between them, the lower bound for a smaller
    argument and the upper bound for a larger one; it is monotone in its
    argument, and clamping twice is clamping once. *)
Theorem clamp_between (value low high : Z) :
  low <= high ->
  low <= clamp value low high <= high /\
  (low <= value <= high -> clamp value low high = value) /\
  (value < low -> clamp value low high = low) /\
  (high < value -> clamp value low high = high) /\
  (forall value', value <= value' -> clamp value low high <= clamp value' low high) /\
  clamp (clamp value low high) low high = clamp value low high.
Proof.
  intros Hb. unfold clamp.
  repeat split; intros;
    repeat match goal with
           | |- context [?a <? ?b] => destruct (Z.ltb_spec a b)
           end; lia.
Qed.

Lemma clamp_between_witness :
  0 <= clamp 12 0 10 <= 10 /\
  (0 <= 12 <= 10 -> clamp 12 0 10 = 12) /\
  (12 < 0 -> clamp 12 0 10 = 0) /\
  (10 < 12 -> clamp 12 0 10 = 10) /\
  (forall value', 12 <= value' -> clamp 12 0 10 <= clamp value' 0 10) /\
  clamp (clamp 12 0 10) 0 10 = clamp 12 0 10.
Proof. apply (clamp_between 12 0 10). lia. Defined.

(** X2. With the bounds crossed, [clamp] never returns its argument unless
    it is one of the bounds: it returns the lower bound for an argument
    below it and the upper bound for every other argument, so that clamping
    a second time can change the result. *)
Theorem clamp_crossed_bounds (value low high : Z) :
  high < low ->
  clamp value low high = (if value <? low then low else high) /\
  (value < low -> clamp (clamp value low high) low high = high).
Proof.
  intros Hb. unfold clamp. split.
  - destruct (Z.ltb_spec value low); [done|].
    destruct (Z.ltb_spec high value); lia.
  - intros Hv. destruct (Z.ltb_spec value low); [|lia].
    rewrite Z.ltb_irrefl. destruct (Z.ltb_spec high low); lia.
Qed.

Lemma clamp_crossed_bounds_witness :
  clamp 0 10 5 = (if 0 <? 10 then 10 else 5) /\
  (0 < 10 -> clamp (clamp 0 10 5) 10 5 = 5).
Proof. apply (clamp_crossed_bounds 0 10 5). lia. Defined.

(** ** [nextPowerOf2]: the value returned *)

Lemma land_pred_pow2 (k : Z) : 0 <= k -> Z.land (2 ^ k) (2 ^ k - 1) = 0.
Proof.
  intros Hk. replace (2 ^ k - 1) with (Z.ones k) by (rewrite Z.ones_equiv; lia).
  rewrite Z.land_ones by done.
  by apply Z.mod_same, Z.pow_nonzero.
Qed.

Lemma land_pred_zero (c : Z) :
  0 < c -> Z.land c (c - 1) = 0 -> c = 2 ^ Z.log2 c.
Proof.
  intros Hc Hland.
  destruct (Z.log2_spec c Hc) as [Hlow Hhigh].
  destruct (Z.eq_dec c (2 ^ Z.log2 c)) as [|Hne]; [done|exfalso].
  assert (Hlog : Z.log2 (c - 1) = Z.log2 c).
  { apply Z.log2_unique; [apply Z.log2_nonneg|]. lia. }
  assert (Hbit : Z.testbit (Z.land c (c - 1)) (Z.log2 c) = true).
  { rewrite Z.land_spec, Z.bit_log2 by done.
    rewrite <- Hlog, Z.bit_log2; [done|].
    pose proof (Z.pow_pos_nonneg 2 (Z.log2 c) ltac:(lia) (Z.log2_nonneg c)). lia. }
  rewrite Hland, Z.bits_0 in Hbit. done.
Qed.

Lemma shift_loop_counts fuel ceiln count v :
  0 < ceiln -> shift_loop fuel ceiln count = Some v -> v = count + Z.log2 ceiln + 1.
Proof.
  revert ceiln count. induction fuel as [|fuel IH]; intros ceiln count Hc; cbn [shift_loop].
  - destruct (Z.eqb_spec ceiln 0); [lia|done].
  - destruct (Z.eqb_spec ceiln 0); [lia|].
    destruct (Z.eq_dec ceiln 1) as [->|Hne].
    + change (Z.shiftr 1 1) with 0.
      destruct fuel; cbn [shift_loop Z.eqb]; intros [= <-]; change (Z.log2 1) with 0; lia.
    + intros Hv. apply IH in Hv.
      * rewrite Z.log2_shiftr in Hv by done.
        assert (1 <= Z.log2 ceiln) by (apply Z.log2_le_pow2; lia). lia.
      * rewrite Z.shiftr_div_pow2 by lia. change (2 ^ 1) with 2.
        apply Z.div_str_pos. lia.
Qed.

Lemma nextPowerOf2_value (n : Q) fuel v :
  0 < Qceiling n -> nextPowerOf2 fuel n = Some v ->
  exists k, 0 <= k /\ v = 2 ^ k /\ Qceiling n <= v < 2 * Qceiling n.
Proof.
  intros Hc. unfold nextPowerOf2. cbv zeta.
  destruct (Z.log2_spec _ Hc) as [Hlow Hhigh].
  rewrite Z.pow_succ_r in Hhigh by apply Z.log2_nonneg.
  destruct (Z.eqb_spec (Qceiling n) 0) as [|_]; [lia|]. cbn [negb andb].
  destruct (Z.eqb_spec (Z.land (Qceiling n) (Qceiling n - 1)) 0) as [Hland|Hland].
  - intros [= <-]. exists (Z.log2 (Qceiling n)).
    split; [apply Z.log2_nonneg|]. split; [by apply land_pred_zero|lia].
  - destruct (shift_loop fuel (Qceiling n) 0) as [count|] eqn:Hloop; [|done].
    intros [= <-]. apply shift_loop_counts in Hloop; [|done]. subst count.
    exists (Z.log2 (Qceiling n) + 1).
    pose proof (Z.log2_nonneg (Qceiling n)).
    rewrite Z.shiftl_1_l, Z.add_0_l, Z.pow_add_r, Z.pow_1_r by lia.
    split; [lia|]. split; [done|].
    assert (Qceiling n ≠ 2 ^ Z.log2 (Qceiling n)).
    { intros E. apply Hland. rewrite E. by apply land_pred_pow2. }
    lia.
Qed.

(** X3. For an argument whose ceiling is not negative, [nextPowerOf2]
    returns, given enough iterations of its loop; and whatever the number of
    iterations allowed, what it returns is a power of two that is not below
    the ceiling of the argument, and the least such power: [1] for an
    argument in [(-1, 1]], and the ceiling itself when that is a power of
    two. *)
Theorem nextPowerOf2_least_power (n : Q) :
  0 <= Qceiling n ->
  (exists fuel v, nextPowerOf2 fuel n = Some v) /\
  (forall fuel v, nextPowerOf2 fuel n = Some v ->
     (exists k, 0 <= k /\ v = 2 ^ k) /\
     Qceiling n <= v /\
     (forall j, 0 <= j -> Qceiling n <= 2 ^ j -> v <= 2 ^ j)).
Proof.
  intros Hc. split.
  - exists (Z.to_nat (Qceiling n)). unfold nextPowerOf2. cbv zeta.
    destruct (_ && _); [by eexists|].
    destruct (shift_loop_ends (Z.to_nat (Qceiling n)) (Qceiling n) 0) as [c ->]; [lia|].
    by eexists.
  - intros fuel v Hv.
    destruct (Z.eq_dec (Qceiling n) 0) as [E|Hne].
    + unfold nextPowerOf2 in Hv. rewrite E in Hv.
      assert (v = 1) as -> by (destruct fuel; vm_compute in Hv; congruence).
      split; [by exists 0|]. split; [lia|].
      intros j Hj _. pose proof (Z.pow_pos_nonneg 2 j ltac:(lia) Hj). lia.
    + destruct (nextPowerOf2_value n fuel v ltac:(lia) Hv) as (k & Hk & -> & Hlow & Hhigh).
      split; [by exists k|]. split; [done|].
      intros j Hj Hle. apply Z.pow_le_mono_r; [lia|].
      assert (2 ^ k < 2 ^ (j + 1)) by (rewrite Z.pow_add_r, Z.pow_1_r by lia; lia).
      assert (k < j + 1) by (apply (Z.pow_lt_mono_r_iff 2); lia). lia.
Qed.

Lemma nextPowerOf2_least_power_witness :
  (exists fuel v, nextPowerOf2 fuel (9 # 2) = Some v) /\
  (forall fuel v, nextPowerOf2 fuel (9 # 2) = Some v ->
     (exists k, 0 <= k /\ v = 2 ^ k) /\
     Qceiling (9 # 2) <= v /\
     (forall j, 0 <= j -> Qceiling (9 # 2) <= 2 ^ j -> v <= 2 ^ j)).
Proof. apply (nextPowerOf2_least_power (9 # 2)). vm_compute. discriminate. Defined.


(** * Further properties of the worker and of [fix] *)

(** X5. When the worker does not copy the file, the program it runs is
    chosen by the format alone: [jpegtran] exactly for the formats JPEG and
    MPO, [convert] ([magick] on Windows) exactly for every other format; and
    the crop specification is in the command. *)
Theorem runner_program_by_format (windows : bool) (task : CropRequest) :
  runner_command windows task ≠ copy_command windows task ->
  (program windows (runner_command windows task) = "jpegtran"
   <-> format (image task) = Some "JPEG" \/ format (image task) = Some "MPO") /\
  (program windows (runner_command windows task) = (if windows then "magick" else "convert")
   <-> ~ (format (image task) = Some "JPEG" \/ format (image task) = Some "MPO")) /\
  In (get_cropspec (image task) (corners task) (rotation task))
     (runner_command windows task).
Proof.
  rewrite <- is_jpeg_spec.
  unfold runner_command, copy_command, program.
  destruct (corners task) as [[[t l] r] b].
  destruct (_ && _); [by destruct windows|]. intros _.
  destruct windows, (is_jpeg (image task)), (negb _);
    cbn [app hd tl In]; (split; [|split]); try tauto;
    split; (done || discriminate || (intros H; exfalso; by apply H)).
Qed.

Lemma runner_program_by_format_witness :
  let task := {| image := drawing 640 480; image_name := "a.png";
                 corners := (0, 0, 320, 480); rotation := 6;
                 target := "a-crop.jpg" |} in
  (program false (runner_command false task) = "jpegtran"
   <-> format (image task) = Some "JPEG" \/ format (image task) = Some "MPO") /\
  (program false (runner_command false task) = "convert"
   <-> ~ (format (image task) = Some "JPEG" \/ format (image task) = Some "MPO")) /\
  In (get_cropspec (image task) (corners task) (rotation task))
     (runner_command false task).
Proof.
  intros task. apply (runner_program_by_format false task). vm_compute. discriminate.
Defined.

(** X6. [fix] does not depend on the order of the two ends it is given:
    whatever the limit, the granularity and the origin, and whether it
    returns or raises. *)
Theorem fix_symmetric (a b lim r : value) (reverse : bool) :
  fix_ a b lim r reverse = fix_ b a lim r reverse.
Proof.
  unfold fix_.
  destruct (int_of a) as [x|], (int_of b) as [y|]; try reflexivity.
  rewrite (sorted2_spec x y), (sorted2_spec y x), Z.min_comm, Z.max_comm. reflexivity.
Qed.

(** X7. For a granularity [r > 0] and a lower end that is not negative, and
    not below [r - 1] when the origin is reversed, [fix] returns an interval
    that contains the one it was given and is longer by less than [r]: the
    upper end is kept and the lower end moves down by less than [r]. *)
Theorem fix_covers_interval (a b lim r : Z) (reverse : bool) :
  0 < r -> margin r reverse <= Z.min a b ->
  exists a' b',
    fix_ (VInt a) (VInt b) (VInt lim) (VInt r) reverse = Return (a', b') /\
    b' = Z.max a b /\
    0 <= a' <= Z.min a b /\
    Z.min a b < a' + r.
Proof.
  intros Hr Ha. rewrite fix_int by lia. rewrite align_anchor.
  destruct (anchor_bounds (Z.min a b) lim r reverse Hr Ha) as [H0 Hb].
  eexists _, _. split; [reflexivity|]. lia.
Qed.

Lemma fix_covers_interval_witness :
  exists a' b',
    fix_ (VInt 30) (VInt 9) (VInt 100) (VInt 8) true = Return (a', b') /\
    b' = Z.max 30 9 /\
    0 <= a' <= Z.min 30 9 /\
    Z.min 30 9 < a' + 8.
Proof. apply (fix_covers_interval 30 9 100 8 true); vm_compute; (reflexivity || discriminate). Defined.


(** * Further properties of [classify] and of the screen coordinates *)

(** The two quarter marks of an axis, in integers. *)
Lemma quarter_low (x l r : Z) :
  Qltb (inject_Z x) (inject_Z l + inject_Z (r - l) / 4) = (4 * x <? 3 * l + r).
Proof.
  unfold Z.sub. rewrite inject_Z_plus, inject_Z_opp.
  destruct (Qltb_spec (inject_Z x) (inject_Z l + (inject_Z r + - inject_Z l) / 4)) as [H|H],
    (Z.ltb_spec (4 * x) (3 * l + r)) as [Hz|Hz]; try done; exfalso;
    unfold Qdiv in H; change (/ 4)%Q with (1 # 4)%Q in H.
  - rewrite Zle_Qle, inject_Z_plus, !inject_Z_mult in Hz.
    change (inject_Z 3) with 3%Q in Hz. change (inject_Z 4) with 4%Q in Hz. lra.
  - rewrite Zlt_Qlt, inject_Z_plus, !inject_Z_mult in Hz.
    change (inject_Z 3) with 3%Q in Hz. change (inject_Z 4) with 4%Q in Hz. lra.
Qed.

Lemma quarter_high (x l r : Z) :
  Qltb (inject_Z x) (inject_Z r - inject_Z (r - l) / 4) = (4 * x <? l + 3 * r).
Proof.
  unfold Z.sub. rewrite inject_Z_plus, inject_Z_opp.
  destruct (Qltb_spec (inject_Z x) (inject_Z r - (inject_Z r + - inject_Z l) / 4)) as [H|H],
    (Z.ltb_spec (4 * x) (l + 3 * r)) as [Hz|Hz]; try done; exfalso;
    unfold Qdiv in H; change (/ 4)%Q with (1 # 4)%Q in H.
  - rewrite Zle_Qle, inject_Z_plus, !inject_Z_mult in Hz.
    change (inject_Z 3) with 3%Q in Hz. change (inject_Z 4) with 4%Q in Hz. lra.
  - rewrite Zlt_Qlt, inject_Z_plus, !inject_Z_mult in Hz.
    change (inject_Z 3) with 3%Q in Hz. change (inject_Z 4) with 4%Q in Hz. lra.
Qed.

Lemma classify_at_integers (t l r b x y : Z) :
  classify_at t l r b x y =
  if (x <? l) || (r <? x) || (y <? t) || (b <? y) then DRAG_NONE
  else 1 + (if 4 * x <? 3 * l + r then 0 else if 4 * x <? l + 3 * r then 1 else 2)
         + 3 * (if 4 * y <? 3 * t + b then 0 else if 4 * y <? t + 3 * b then 1 else 2).
Proof.
  unfold classify_at. cbv zeta.
  rewrite !quarter_low, !quarter_high.
  destruct (x <? l), (r <? x), (y <? t), (b <? y); try reflexivity.
  cbn [orb].
  destruct (4 * x <? 3 * l + r), (4 * x <? l + 3 * r),
    (4 * y <? 3 * t + b), (4 * y <? t + 3 * b); reflexivity.
Qed.

(** X8. [classify] gives [DRAG_NONE] exactly for the points outside the
    rectangle, whose four edges belong to it; for every other point it gives
    one of the nine handles. *)
Theorem classify_at_none_iff_outside (t l r b x y : Z) :
  (classify_at t l r b x y = DRAG_NONE <-> x < l \/ r < x \/ y < t \/ b < y) /\
  DRAG_NONE <= classify_at t l r b x y <= DRAG_BR.
Proof.
  rewrite classify_at_integers. unfold DRAG_NONE, DRAG_BR.
  destruct (Z.ltb_spec x l), (Z.ltb_spec r x), (Z.ltb_spec y t), (Z.ltb_spec b y);
    cbn [orb]; try (split; [split; [lia|done]|lia]).
  destruct (4 * x <? 3 * l + r), (4 * x <? l + 3 * r),
    (4 * y <? 3 * t + b), (4 * y <? t + 3 * b); (split; [split|]; lia).
Qed.

(** X9. Inside the rectangle [classify] picks the handle by thirds of
    unequal width: the column is the left one for [x] in the first quarter of
    the width, the right one from the last quarter on, and the row likewise;
    the handle is [1 + column + 3 * row].  The comparisons with the quarter
    marks, which the source makes on floats, are comparisons of integers:
    [x < l + (r - l) / 4] is [4 * x < 3 * l + r]. *)
Theorem classify_at_grid (t l r b x y : Z) :
  l <= x <= r -> t <= y <= b ->
  let column := if 4 * x <? 3 * l + r then 0 else if 4 * x <? l + 3 * r then 1 else 2 in
  let row := if 4 * y <? 3 * t + b then 0 else if 4 * y <? t + 3 * b then 1 else 2 in
  classify_at t l r b x y = 1 + column + 3 * row /\
  (l < r -> t < b ->
   classify_at t l r b l t = DRAG_TL /\ classify_at t l r b r t = DRAG_TR /\
   classify_at t l r b l b = DRAG_BL /\ classify_at t l r b r b = DRAG_BR).
Proof.
  intros Hx Hy. cbv zeta. rewrite !classify_at_integers. split.
  - destruct (Z.ltb_spec x l), (Z.ltb_spec r x), (Z.ltb_spec y t), (Z.ltb_spec b y);
      try lia. reflexivity.
  - intros Hlr Htb. unfold DRAG_TL, DRAG_TR, DRAG_BL, DRAG_BR.
    repeat split;
      repeat match goal with
             | |- context [?a <? ?b] => destruct (Z.ltb_spec a b); try lia
             end; reflexivity.
Qed.

Lemma classify_at_grid_witness :
  let column := if 4 * 30 <? 3 * 10 + 50 then 0 else if 4 * 30 <? 10 + 3 * 50 then 1 else 2 in
  let row := if 4 * 38 <? 3 * 20 + 40 then 0 else if 4 * 38 <? 20 + 3 * 40 then 1 else 2 in
  classify_at 20 10 50 40 30 38 = 1 + column + 3 * row /\
  (10 < 50 -> 20 < 40 ->
   classify_at 20 10 50 40 10 20 = DRAG_TL /\ classify_at 20 10 50 40 50 20 = DRAG_TR /\
   classify_at 20 10 50 40 10 40 = DRAG_BL /\ classify_at 20 10 50 40 50 40 = DRAG_BR).
Proof. apply (classify_at_grid 20 10 50 40 30 38); lia. Defined.

(** X10. [get_screencorners] divides the four edges by the scale and
    truncates: it raises [ZeroDivisionError] for the scale [0], without
    changing the manager; for a positive scale it returns, it keeps the
    order of the edges, and an edge that is not negative lies less than one
    scale step above its screen coordinate times the scale. *)
Theorem get_screencorners_scales self (t l r b s : Z) :
  corners_are self t l r b -> self !! "scale" = Some (VInt s) ->
  (s = 0 -> get_screencorners self = (Raise ZeroDivisionError, self)) /\
  (0 < s ->
   exists t' l' r' b',
     get_screencorners self = (Return (t', l', r', b'), self) /\
     (l <= r -> l' <= r') /\ (t <= b -> t' <= b') /\
     (0 <= t -> 0 <= t - s * t' < s) /\ (0 <= l -> 0 <= l - s * l' < s) /\
     (0 <= r -> 0 <= r - s * r' < s) /\ (0 <= b -> 0 <= b - s * b' < s)).
Proof.
  intros [] Hs. split.
  - intros ->. unfold get_screencorners.
    eapply run_reads; [reads_tac|]. cbv beta iota.
    unfold to_screen. do 3 step. reflexivity.
  - intros Hpos.
    assert (Hq : forall c, 0 <= c -> 0 <= c - s * Z.quot c s < s).
    { intros c Hc. rewrite Z.quot_div_nonneg by lia.
      pose proof (Z.mul_div_le c s Hpos). pose proof (Z.mul_succ_div_gt c s Hpos). lia. }
    exists (Z.quot t s), (Z.quot l s), (Z.quot r s), (Z.quot b s).
    split; [|split_and!; first [apply Hq|intros; apply Z.quot_le_mono; lia]].
    assert (s ≠ 0) by lia.
    change (reads get_screencorners self (Z.quot t s, Z.quot l s, Z.quot r s, Z.quot b s)).
    reads_tac.
Qed.

Lemma get_screencorners_scales_witness :
  let self := after (set_crop (VInt 11) (VInt 21) (VInt 75) (VInt 64))
                    (manager (drawing 100 100) 100 100 1 1 4) in
  (4 = 0 -> get_screencorners self = (Raise ZeroDivisionError, self)) /\
  (0 < 4 ->
   exists t' l' r' b',
     get_screencorners self = (Return (t', l', r', b'), self) /\
     (21 <= 75 -> l' <= r') /\ (11 <= 64 -> t' <= b') /\
     (0 <= 11 -> 0 <= 11 - 4 * t' < 4) /\ (0 <= 21 -> 0 <= 21 - 4 * l' < 4) /\
     (0 <= 75 -> 0 <= 75 - 4 * r' < 4) /\ (0 <= 64 -> 0 <= 64 - 4 * b' < 4)).
Proof.
  intros self. apply (get_screencorners_scales self 11 21 75 64 4).
  - split; vm_compute; reflexivity.
  - vm_compute; reflexivity.
Defined.


(** * Further properties of the drag state machine *)

(** X11. [drag_start] on a manager with a rectangle and a scale other than
    [0] returns; it does not move the rectangle; it stores the pointer
    position, a snapshot of the rectangle and the handle [classify] gives
    for the pointer; it keeps the aspect lock asked for on a corner handle
    only, and assigns no other attribute. *)
Theorem drag_start_snapshot self (t l r b scale x y : Z) (fixed : bool) :
  corners_are self t l r b ->
  self !! "scale" = Some (VInt scale) -> scale ≠ 0 ->
  let k := classify_at (Z.quot t scale) (Z.quot l scale)
                       (Z.quot r scale) (Z.quot b scale) x y in
  exists self',
    drag_start x y fixed self = (Return tt, self') /\
    corners_are self' t l r b /\
    dragging self' k x y t l r b
      (fixed && in_tuple (VInt k) [DRAG_TL; DRAG_TR; DRAG_BL; DRAG_BR]) scale /\
    (forall name,
       name ∉ ["x0"; "y0"; "t0"; "l0"; "r0"; "b0"; "state"; "fixed_ratio"] ->
       self' !! name = self !! name).
Proof.
  intros Hc Hs Hnz k.
  rewrite (drag_start_run self t l r b scale x y fixed Hc Hs Hnz). fold k.
  replace (if in_tuple (VInt k) [DRAG_TL; DRAG_TR; DRAG_BL; DRAG_BR] then fixed else false)
    with (fixed && in_tuple (VInt k) [DRAG_TL; DRAG_TR; DRAG_BL; DRAG_BR])
    by (by destruct fixed, (in_tuple _ _)).
  destruct Hc. eexists. split; [reflexivity|].
  split; [split; lookups|]. split; [split; lookups|].
  intros name Hname. rewrite !not_elem_of_cons in Hname.
  destruct Hname as (? & ? & ? & ? & ? & ? & ? & ? & _).
  by rewrite !lookup_insert_ne by done.
Qed.

Lemma drag_start_snapshot_witness :
  let self := manager (drawing 100 100) 100 100 1 1 2 in
  let k := classify_at (Z.quot 0 2) (Z.quot 0 2) (Z.quot 100 2) (Z.quot 100 2) 25 49 in
  exists self',
    drag_start 25 49 true self = (Return tt, self') /\
    corners_are self' 0 0 100 100 /\
    dragging self' k 25 49 0 0 100 100
      (true && in_tuple (VInt k) [DRAG_TL; DRAG_TR; DRAG_BL; DRAG_BR]) 2 /\
    (forall name,
       name ∉ ["x0"; "y0"; "t0"; "l0"; "r0"; "b0"; "state"; "fixed_ratio"] ->
       self' !! name = self !! name).
Proof.
  intros self. apply (drag_start_snapshot self 0 0 100 100 2 25 49 true).
  - split; vm_compute; reflexivity.
  - vm_compute; reflexivity.
  - lia.
Defined.

(** The edges [set_crop] stores for a rectangle with [top <= bottom] and
    [left <= right]. *)
(** [set_crop] on integers: [fix] sorts the two edges of an axis, stores
    the larger one and aligns the smaller one. *)
Lemma set_crop_stores self W H rx ry rot t l r b :
  loaded self W H rx ry rot -> rx ≠ 0 -> ry ≠ 0 ->
  exists self',
    set_crop (VInt t) (VInt l) (VInt r) (VInt b) self = (Return tt, self') /\
    corners_are self'
      (anchor (Z.min t b) H ry (reverse_y rot)) (anchor (Z.min l r) W rx (reverse_x rot))
      (Z.max l r) (Z.max t b) /\
    (forall name, name ∉ ["top"; "bottom"; "left"; "right"] -> self' !! name = self !! name).
Proof.
  intros Hld Hrx Hry.
  rewrite (set_crop_run self W H rx ry rot) by done.
  destruct (in_tuple_reverse rot) as [-> ->].
  rewrite !align_anchor. cbn [fst snd].
  eexists. split; [reflexivity|]. split; [apply corners_are_stored|].
  intros name Hname. rewrite !not_elem_of_cons in Hname.
  destruct Hname as (? & ? & ? & ? & _).
  by rewrite !lookup_insert_ne by done.
Qed.

Lemma set_crop_sorted self W H rx ry rot t l r b :
  loaded self W H rx ry rot -> rx ≠ 0 -> ry ≠ 0 -> t <= b -> l <= r ->
  exists self',
    set_crop (VInt t) (VInt l) (VInt r) (VInt b) self = (Return tt, self') /\
    corners_are self' (anchor t H ry (reverse_y rot)) (anchor l W rx (reverse_x rot)) r b /\
    (forall name, name ∉ ["top"; "bottom"; "left"; "right"] -> self' !! name = self !! name).
Proof.
  intros Hld Hrx Hry Htb Hlr.
  destruct (set_crop_stores self W H rx ry rot t l r b Hld Hrx Hry) as (self' & Hrun & Hc & Hf).
  rewrite (Z.min_l t b), (Z.max_r t b), (Z.min_l l r), (Z.max_r l r) in Hc by lia.
  by exists self'.
Qed.

(** X12. In a drag that started outside the rectangle (state [DRAG_NONE])
    [drag_continue] does not look at the pointer: for every pointer position
    it stores the same rectangle, which is the current one with the top and
    left edges aligned again and with a right or bottom edge that lies on
    the border of the image pulled one pixel inwards. *)
Theorem drag_outside_ignores_pointer
    self (W H rx ry rot x0 y0 t0 l0 r0 b0 scale t l r b x y : Z) :
  loaded self W H rx ry rot -> rx ≠ 0 -> ry ≠ 0 ->
  dragging self DRAG_NONE x0 y0 t0 l0 r0 b0 false scale ->
  corners_are self t l r b -> rect_ok W H t l r b ->
  exists self',
    drag_continue x y self = (Return tt, self') /\
    corners_are self'
      (anchor t H ry (reverse_y rot)) (anchor l W rx (reverse_x rot))
      (Z.max (l + 1) (Z.min r (W - 1))) (Z.max (t + 1) (Z.min b (H - 1))).
Proof.
  intros Hld Hrx Hry Hdr Hc (Hl & Hr & Ht & Hb).
  rewrite (drag_continue_run self W H rx ry rot DRAG_NONE x0 y0 t0 l0 r0 b0 false scale
             t l r b x y Hld Hdr Hc) by done.
  cbv zeta. unfold pointer_delta, drag_target. cbn [in_tuple int_of existsb DRAG_NONE
    DRAG_TL DRAG_T DRAG_TR DRAG_L DRAG_C DRAG_R DRAG_BL DRAG_B DRAG_BR Z.eqb Pos.eqb
    orb negb fst snd].
  replace (Z.min (b - 1) (if t <? 0 then 0 else t)) with t
    by (destruct (Z.ltb_spec t 0); lia).
  replace (Z.min (r - 1) (if l <? 0 then 0 else l)) with l
    by (destruct (Z.ltb_spec l 0); lia).
  replace (if W <=? r then W - 1 else r) with (Z.min r (W - 1))
    by (destruct (Z.leb_spec W r); lia).
  replace (if H <=? b then H - 1 else b) with (Z.min b (H - 1))
    by (destruct (Z.leb_spec H b); lia).
  destruct (set_crop_sorted self W H rx ry rot t l
              (Z.max (l + 1) (Z.min r (W - 1))) (Z.max (t + 1) (Z.min b (H - 1))))
    as (self' & Hrun & Hcorners & _); [done..|lia|lia|].
  by exists self'.
Qed.

Lemma drag_outside_ignores_pointer_witness :
  let self := after (drag_start 500 500 false) (manager (drawing 100 100) 100 100 1 1 1) in
  exists self',
    drag_continue 7 3 self = (Return tt, self') /\
    corners_are self'
      (anchor 0 100 1 (reverse_y 1)) (anchor 0 100 1 (reverse_x 1))
      (Z.max (0 + 1) (Z.min 100 (100 - 1))) (Z.max (0 + 1) (Z.min 100 (100 - 1))).
Proof.
  intros self.
  apply (drag_outside_ignores_pointer self 100 100 1 1 1 500 500 0 0 100 100 1 0 0 100 100 7 3).
  - split; vm_compute; reflexivity.
  - lia.
  - lia.
  - split; vm_compute; reflexivity.
  - split; vm_compute; reflexivity.
  - unfold rect_ok. lia.
Defined.

Lemma clamp_range (value low high : Z) :
  low <= high -> low <= clamp value low high <= high.
Proof.
  intros Hb. unfold clamp.
  destruct (Z.ltb_spec value low), (Z.ltb_spec high value); lia.
Qed.

Lemma centre_delta (d low high : Z) :
  low <= 0 <= high ->
  (if 0 <? d then Z.min d high else Z.max d low) = clamp d low high.
Proof.
  intros Hb. unfold clamp.
  destruct (Z.ltb_spec 0 d), (Z.ltb_spec d low), (Z.ltb_spec high d); lia.
Qed.

(** X13. A centre drag moves the snapshot rectangle by the pointer delta
    clamped so that the rectangle stays in the image, [clamp(dx, -l0,
    w - r0)] and [clamp(dy, -t0, h - b0)]: the top and left edges are stored
    aligned, and a right or bottom edge that would come to lie on the border
    of the image is stored one pixel inside it, so that only there the
    rectangle loses a pixel of its size. *)
Theorem centre_drag_translates
    self (W H rx ry rot x0 y0 t0 l0 r0 b0 scale t l r b x y : Z) :
  loaded self W H rx ry rot -> rx ≠ 0 -> ry ≠ 0 ->
  dragging self DRAG_C x0 y0 t0 l0 r0 b0 false scale ->
  corners_are self t l r b -> rect_ok W H t0 l0 r0 b0 ->
  let dx := clamp ((x - x0) * scale) (- l0) (W - r0) in
  let dy := clamp ((y - y0) * scale) (- t0) (H - b0) in
  exists self',
    drag_continue x y self = (Return tt, self') /\
    corners_are self'
      (anchor (t0 + dy) H ry (reverse_y rot)) (anchor (l0 + dx) W rx (reverse_x rot))
      (Z.min (r0 + dx) (W - 1)) (Z.min (b0 + dy) (H - 1)) /\
    0 <= l0 + dx /\ r0 + dx <= W /\ 0 <= t0 + dy /\ b0 + dy <= H.
Proof.
  intros Hld Hrx Hry Hdr Hc (Hl & Hr & Ht & Hb) dx dy.
  rewrite (drag_continue_run self W H rx ry rot DRAG_C x0 y0 t0 l0 r0 b0 false scale
             t l r b x y Hld Hdr Hc) by done.
  cbv zeta. unfold pointer_delta, drag_target. cbn [in_tuple int_of existsb DRAG_NONE
    DRAG_TL DRAG_T DRAG_TR DRAG_L DRAG_C DRAG_R DRAG_BL DRAG_B DRAG_BR Z.eqb Pos.eqb
    orb negb fst snd].
  rewrite !centre_delta by lia. fold dx dy.
  pose proof (clamp_range ((x - x0) * scale) (- l0) (W - r0) ltac:(lia)) as Hdx.
  pose proof (clamp_range ((y - y0) * scale) (- t0) (H - b0) ltac:(lia)) as Hdy.
  fold dx in Hdx. fold dy in Hdy. clearbody dx dy.
  replace (if t0 + dy <? 0 then 0 else t0 + dy) with (t0 + dy)
    by (destruct (Z.ltb_spec (t0 + dy) 0); lia).
  replace (if l0 + dx <? 0 then 0 else l0 + dx) with (l0 + dx)
    by (destruct (Z.ltb_spec (l0 + dx) 0); lia).
  replace (if W <=? r0 + dx then W - 1 else r0 + dx) with (Z.min (r0 + dx) (W - 1))
    by (destruct (Z.leb_spec W (r0 + dx)); lia).
  replace (if H <=? b0 + dy then H - 1 else b0 + dy) with (Z.min (b0 + dy) (H - 1))
    by (destruct (Z.leb_spec H (b0 + dy)); lia).
  destruct (set_crop_sorted self W H rx ry rot (t0 + dy) (l0 + dx)
              (Z.min (r0 + dx) (W - 1)) (Z.min (b0 + dy) (H - 1)))
    as (self' & Hrun & Hcorners & _); [done..|lia|lia|].
  exists self'. split; [done|]. split; [done|]. lia.
Qed.

Lemma centre_drag_translates_witness :
  let self := after (set_crop (VInt 10) (VInt 10) (VInt 50) (VInt 30);;
                     drag_start 30 20 false)
                    (manager (drawing 100 100) 100 100 1 1 1) in
  let dx := clamp ((130 - 30) * 1) (- 10) (100 - 50) in
  let dy := clamp ((22 - 20) * 1) (- 10) (100 - 30) in
  exists self',
    drag_continue 130 22 self = (Return tt, self') /\
    corners_are self'
      (anchor (10 + dy) 100 1 (reverse_y 1)) (anchor (10 + dx) 100 1 (reverse_x 1))
      (Z.min (50 + dx) (100 - 1)) (Z.min (30 + dy) (100 - 1)) /\
    0 <= 10 + dx /\ 50 + dx <= 100 /\ 0 <= 10 + dy /\ 30 + dy <= 100.
Proof.
  intros self.
  apply (centre_drag_translates self 100 100 1 1 1 30 20 10 10 50 30 1 10 10 50 30 130 22).
  - split; vm_compute; reflexivity.
  - lia.
  - lia.
  - split; vm_compute; reflexivity.
  - split; vm_compute; reflexivity.
  - unfold rect_ok. lia.
Defined.

Lemma anchor_aligned (a lim r : Z) (reverse : bool) :
  0 < r -> 0 <= a ->
  (if reverse then (r | lim - a) else (r | a)) ->
  anchor a lim r reverse = a.
Proof.
  intros Hr Ha Hdiv. unfold anchor. destruct reverse.
  - destruct Hdiv as [q Hq]. cbv zeta.
    replace (lim - a + r - 1) with (q * r + (r - 1)) by lia.
    rewrite Z.div_add_l, (Z.div_small (r - 1) r), Z.add_0_r by lia.
    replace (lim - q * r) with a by lia.
    destruct (Z.ltb_spec a 0); lia.
  - destruct Hdiv as [q ->]. by rewrite Z.div_mul by lia.
Qed.

(** X14. [drag_end] on a manager with an image loaded returns, puts the
    state back to [DRAG_NONE] and stores the current rectangle through
    [fix] once more, whatever the pointer position it is given.  On each
    axis [fix] sorts the two edges: the bottom edge becomes the larger of
    top and bottom and the top edge the smaller of them, aligned, and the
    same for right and left.  So on an axis where the rectangle has
    [top <= bottom] (resp. [left <= right]) the bottom (resp. right) edge
    stays, and so does a top (resp. left) edge that is not negative and is
    aligned (a multiple of the granularity away from the origin of its
    axis); no other attribute changes. *)
Theorem drag_end_commits self (W H rx ry rot t l r b x y : Z) :
  loaded self W H rx ry rot -> 0 < rx -> 0 < ry ->
  corners_are self t l r b ->
  exists self' t' l' r' b',
    drag_end x y self = (Return tt, self') /\
    self' !! "state" = Some (VInt DRAG_NONE) /\
    corners_are self' t' l' r' b' /\
    b' = Z.max t b /\ t' = anchor (Z.min t b) H ry (reverse_y rot) /\
    r' = Z.max l r /\ l' = anchor (Z.min l r) W rx (reverse_x rot) /\
    (t <= b ->
     b' = b /\
     (0 <= t -> (if reverse_y rot then (ry | H - t) else (ry | t)) -> t' = t)) /\
    (l <= r ->
     r' = r /\
     (0 <= l -> (if reverse_x rot then (rx | W - l) else (rx | l)) -> l' = l)) /\
    (forall name, name ∉ ["top"; "bottom"; "left"; "right"; "state"] ->
       self' !! name = self !! name).
Proof.
  intros Hld Hrx Hry Hc.
  destruct (set_crop_stores self W H rx ry rot t l r b) as (self1 & Hrun & Hc1 & Hframe);
    [done|lia|lia|].
  exists (<["state" := VInt DRAG_NONE]> self1),
    (anchor (Z.min t b) H ry (reverse_y rot)), (anchor (Z.min l r) W rx (reverse_x rot)),
    (Z.max l r), (Z.max t b).
  split.
  { unfold drag_end. destruct Hc. do 4 step. by rewrite (run_bind _ _ _ _ _ Hrun). }
  split; [lookups|]. split; [destruct Hc1; split; lookups|].
  split; [done|]. split; [done|]. split; [done|]. split; [done|].
  split.
  { intros Htb. split; [lia|]. intros Ht Hdiv. rewrite Z.min_l by done.
    by apply anchor_aligned. }
  split.
  { intros Hlr. split; [lia|]. intros Hl Hdiv. rewrite Z.min_l by done.
    by apply anchor_aligned. }
  intros name Hname. rewrite !not_elem_of_cons in Hname.
  destruct Hname as (? & ? & ? & ? & ? & _).
  rewrite lookup_insert_ne by done. apply Hframe.
  rewrite !not_elem_of_cons. repeat split; try done. apply not_elem_of_nil.
Qed.

(** The instance: on a 16 x 10 JPEG of granularity 8 the bottom edge is
    dragged up to 1, the rectangle is kept across a turn by 180 degrees and
    one click aligns the top edge to 2, above the bottom edge; [drag_end]
    then stores [bottom = 2]. *)
Lemma drag_end_commits_witness :
  let small := after (drag_start 8 9 false;; drag_continue 8 0;; drag_end 8 0)
                     (manager (photo 16 10) 16 10 8 8 1) in
  let turned := after (save_prev_crop;; set_rotation (VInt 3)) small in
  let self := after (drag_start 8 1 false;; drag_continue 8 1) turned in
  exists self' t' l' r' b',
    drag_end 8 1 self = (Return tt, self') /\
    self' !! "state" = Some (VInt DRAG_NONE) /\
    corners_are self' t' l' r' b' /\
    b' = Z.max 2 1 /\ t' = anchor (Z.min 2 1) 10 8 (reverse_y 3) /\
    r' = Z.max 0 15 /\ l' = anchor (Z.min 0 15) 16 8 (reverse_x 3) /\
    (2 <= 1 ->
     b' = 1 /\
     (0 <= 2 -> (if reverse_y 3 then (8 | 10 - 2) else (8 | 2)) -> t' = 2)) /\
    (0 <= 15 ->
     r' = 15 /\
     (0 <= 0 -> (if reverse_x 3 then (8 | 16 - 0) else (8 | 0)) -> l' = 0)) /\
    (forall name, name ∉ ["top"; "bottom"; "left"; "right"; "state"] ->
       self' !! name = self !! name).
Proof.
  intros small turned self. apply (drag_end_commits self 16 10 8 8 3 2 0 15 1 8 1).
  - split; vm_compute; reflexivity.
  - lia.
  - lia.
  - split; vm_compute; reflexivity.
Defined.

Lemma drag_target_short k W H t0 l0 r0 b0 t l r b dx dy :
  rect_ok W H t l r b -> rect_ok W H t0 l0 r0 b0 ->
  l + 2 <= W -> t + 2 <= H ->
  let c := drag_target k W H t0 l0 r0 b0 t l r b dx dy in
  (c.1.1.1 <= H - 1 /\ c.2 <= H - 1) /\ (c.1.1.2 <= W - 1 /\ c.1.2 <= W - 1).
Proof.
  intros (Hl & Hr & Ht & Hb) (Hl0 & Hr0 & Ht0 & Hb0) Hlw Hth.
  destruct (kind_moves k) as (Hkc & Hall & Hv & Hh).
  unfold drag_target.
  destruct (in_tuple (VInt k) [DRAG_C]) eqn:Ec.
  - destruct (Hall eq_refl) as (-> & -> & -> & ->).
    cbv zeta; cbn [negb fst snd]. axis_cases.
  - destruct (in_tuple (VInt k) [DRAG_TL; DRAG_T; DRAG_TR; DRAG_C]) eqn:Emt;
    destruct (in_tuple (VInt k) [DRAG_BL; DRAG_B; DRAG_BR; DRAG_C]) eqn:Emb;
    try (by specialize (Hv eq_refl eq_refl));
    destruct (in_tuple (VInt k) [DRAG_TL; DRAG_L; DRAG_BL; DRAG_C]) eqn:Eml;
    destruct (in_tuple (VInt k) [DRAG_TR; DRAG_R; DRAG_BR; DRAG_C]) eqn:Emr;
    try (by specialize (Hh eq_refl eq_refl));
    cbv zeta; cbn [negb fst snd]; axis_cases.
Qed.

(** X15. No call of [drag_continue] stores a right edge on the right border
    of the image or a bottom edge on its bottom border: whatever the handle,
    the aspect lock and the pointer position, on a manager whose rectangle
    and snapshot are valid and whose rectangle leaves two pixels to the right
    of its left edge and below its top edge, the call returns with
    [right <= w - 1] and [bottom <= h - 1]. *)
Theorem drag_stops_short_of_border
    self (W H rx ry rot k x0 y0 t0 l0 r0 b0 : Z) (fixed : bool) (scale t l r b x y : Z) :
  loaded self W H rx ry rot -> rx ≠ 0 -> ry ≠ 0 ->
  dragging self k x0 y0 t0 l0 r0 b0 fixed scale ->
  corners_are self t l r b ->
  rect_ok W H t l r b -> rect_ok W H t0 l0 r0 b0 ->
  l + 2 <= W -> t + 2 <= H ->
  exists self' t' l' r' b',
    drag_continue x y self = (Return tt, self') /\
    corners_are self' t' l' r' b' /\
    r' <= W - 1 /\ b' <= H - 1.
Proof.
  intros Hld Hrx Hry Hdr Hc Hok Hok0 Hlw Hth.
  rewrite (drag_continue_run self W H rx ry rot k x0 y0 t0 l0 r0 b0 fixed scale t l r b x y)
    by (try done; intros _; unfold rect_ok in Hok0; lia).
  cbv zeta.
  set (d := pointer_delta fixed k t0 l0 r0 b0 ((x - x0) * scale) ((y - y0) * scale)).
  pose proof (drag_target_short k W H t0 l0 r0 b0 t l r b d.1 d.2 Hok Hok0 Hlw Hth) as Hshort.
  cbv zeta in Hshort.
  set (c := drag_target k W H t0 l0 r0 b0 t l r b d.1 d.2) in *.
  rewrite (set_crop_run self W H rx ry rot) by done.
  eexists _, _, _, _, _. split; [reflexivity|].
  split; [apply corners_are_stored|].
  rewrite !align_snd. lia.
Qed.

Lemma drag_stops_short_of_border_witness :
  let self := after (drag_start 99 99 false) (manager (drawing 100 100) 100 100 1 1 1) in
  exists self' t' l' r' b',
    drag_continue 400 400 self = (Return tt, self') /\
    corners_are self' t' l' r' b' /\
    r' <= 100 - 1 /\ b' <= 100 - 1.
Proof.
  intros self.
  apply (drag_stops_short_of_border self 100 100 1 1 1 DRAG_BR 99 99 0 0 100 100 false 1
           0 0 100 100 400 400).
  - split; vm_compute; reflexivity.
  - lia.
  - lia.
  - split; vm_compute; reflexivity.
  - split; vm_compute; reflexivity.
  - unfold rect_ok. lia.
  - unfold rect_ok. lia.
  - lia.
  - lia.
Defined.


(** * Further properties of rotation and of the image property *)

Lemma rotate_ccw_run self W H rx ry rot :
  ready self W H rx ry rot ->
  exists self' rot',
    rotate_ccw self = (Return tt, self') /\
    ready self' H W ry rx rot' /\
    In (rot, rot') ccw_cycle.
Proof.
  intros Hready.
  pose proof Hready as [[] Hrx Hry Hrot [i Hi] (pw & ph & Hpw & Hph & Hprev)].
  set (flipped := <["round_y" := VInt rx]> (<["round_x" := VInt ry]>
                   (<["h" := VInt W]> (<["w" := VInt H]> self)))).
  assert (Hflipped : ready flipped H W ry rx rot).
  { unfold flipped. split; [split; lookups|done..| |].
    - exists i. lookups.
    - exists pw, ph. rewrite !lookup_insert_ne by done. done. }
  assert (Hrun : forall rot', In (rot, rot') ccw_cycle ->
    (let r := if in_tuple (VInt rot) [1] then VInt 8
              else if in_tuple (VInt rot) [8] then VInt 3
              else if in_tuple (VInt rot) [3] then VInt 6
              else if in_tuple (VInt rot) [6] then VInt 1
              else VInt rot in
     set_rotation r) = set_rotation (VInt rot')).
  { unfold ccw_cycle. cbn [In]. intros rot' [E|[E|[E|[E|[]]]]]; by injection E as <- <-. }
  assert (Hnext : exists rot', In (rot, rot') ccw_cycle /\ In rot' [1; 3; 6; 8]).
  { unfold ccw_cycle. cbn [In] in *.
    destruct Hrot as [<-|[<-|[<-|[<-|[]]]]]; eexists; split; eauto 10. }
  destruct Hnext as (rot' & Hcycle & Hrot').
  destruct (set_rotation_run flipped H W ry rx rot rot' Hflipped Hrot')
    as (self' & Hset & Hready').
  exists self', rot'. split; [|done].
  unfold rotate_ccw, _flip_dimensions.
  repeat step. fold flipped.
  cbv zeta in Hrun. rewrite (Hrun rot' Hcycle). exact Hset.
Qed.

Lemma cycles_cancel (a b c : Z) :
  (In (a, b) cw_cycle -> In (b, c) ccw_cycle -> c = a) /\
  (In (a, b) ccw_cycle -> In (b, c) cw_cycle -> c = a).
Proof.
  unfold cw_cycle, ccw_cycle. cbn [In].
  split; intros Hab Hbc;
    destruct Hab as [?|[?|[?|[?|[]]]]]; simplify_eq;
    destruct Hbc as [?|[?|[?|[?|[]]]]]; simplify_eq; done.
Qed.

(** X16. On a manager with an image loaded, [rotate_ccw] returns, exchanges
    width and height and the two granularities and moves the rotation one
    step along 1, 8, 3, 6, 1; it undoes [rotate_cw] and is undone by it:
    after the two calls, in either order, the rotation, the width, the
    height and both granularities are what they were. *)
Theorem rotate_ccw_inverts_rotate_cw self W H rx ry rot :
  ready self W H rx ry rot ->
  (exists self1 rot1,
     rotate_ccw self = (Return tt, self1) /\
     loaded self1 H W ry rx rot1 /\
     In (rot, rot1) [(1, 8); (8, 3); (3, 6); (6, 1)]) /\
  (exists self2,
     (rotate_cw;; rotate_ccw) self = (Return tt, self2) /\ loaded self2 W H rx ry rot) /\
  (exists self2,
     (rotate_ccw;; rotate_cw) self = (Return tt, self2) /\ loaded self2 W H rx ry rot).
Proof.
  intros Hready.
  destruct (rotate_ccw_run self W H rx ry rot Hready) as (self1 & rot1 & Hrun1 & Hready1 & Hc1).
  destruct (rotate_cw_run self1 H W ry rx rot1 Hready1) as (self2 & rot2 & Hrun2 & Hready2 & Hc2).
  destruct (rotate_cw_run self W H rx ry rot Hready) as (self3 & rot3 & Hrun3 & Hready3 & Hc3).
  destruct (rotate_ccw_run self3 H W ry rx rot3 Hready3) as (self4 & rot4 & Hrun4 & Hready4 & Hc4).
  split; [|split].
  - exists self1, rot1. split; [done|]. split; [apply Hready1|exact Hc1].
  - exists self4. split; [by rewrite (run_bind _ _ _ _ _ Hrun3)|].
    rewrite <- (proj1 (cycles_cancel rot rot3 rot4) Hc3 Hc4). apply Hready4.
  - exists self2. split; [by rewrite (run_bind _ _ _ _ _ Hrun1)|].
    rewrite <- (proj2 (cycles_cancel rot rot1 rot2) Hc1 Hc2). apply Hready2.
Qed.

Lemma rotate_ccw_inverts_rotate_cw_witness :
  (exists self1 rot1,
     rotate_ccw (manager (photo 16 10) 16 10 8 8 1) = (Return tt, self1) /\
     loaded self1 10 16 8 8 rot1 /\
     In (1, rot1) [(1, 8); (8, 3); (3, 6); (6, 1)]) /\
  (exists self2,
     (rotate_cw;; rotate_ccw) (manager (photo 16 10) 16 10 8 8 1) = (Return tt, self2) /\
     loaded self2 16 10 8 8 1) /\
  (exists self2,
     (rotate_ccw;; rotate_cw) (manager (photo 16 10) 16 10 8 8 1) = (Return tt, self2) /\
     loaded self2 16 10 8 8 1).
Proof.
  apply (rotate_ccw_inverts_rotate_cw (manager (photo 16 10) 16 10 8 8 1) 16 10 8 8 1).
  apply ready_manager.
Defined.

(** What [save_prev_crop] stores. *)
Lemma save_prev_crop_run self (W H t l r b : Z) :
  self !! "w" = Some (VInt W) -> self !! "h" = Some (VInt H) ->
  corners_are self t l r b ->
  save_prev_crop self =
  (Return tt,
   <["prev_right" := VInt r]> (<["prev_left" := VInt l]>
   (<["prev_bottom" := VInt b]> (<["prev_top" := VInt t]>
   (<["prev_h" := VInt H]> (<["prev_w" := VInt W]> self)))))).
Proof.
  intros Hw Hh []. unfold save_prev_crop.
  repeat step. reflexivity.
Qed.

(** [set_rotation] with one of the four codes, with the rectangle it
    leaves. *)
Lemma set_rotation_corners self W H rx ry rot rot' i pw ph :
  loaded self W H rx ry rot -> rx ≠ 0 -> ry ≠ 0 -> In rot' [1; 3; 6; 8] ->
  self !! "_orig_image" = Some (VImage i) ->
  self !! "prev_w" = Some (VInt pw) -> self !! "prev_h" = Some (VInt ph) ->
  (size_test W H pw ph = true ->
   exists self',
     set_rotation (VInt rot') self = (Return tt, self') /\
     loaded self' W H rx ry rot' /\
     corners_are self'
       (align 0 H H ry (in_tuple (VInt rot') [3; 8])).1
       (align 0 W W rx (in_tuple (VInt rot') [3; 6])).1
       (align 0 W W rx (in_tuple (VInt rot') [3; 6])).2
       (align 0 H H ry (in_tuple (VInt rot') [3; 8])).2) /\
  (size_test W H pw ph = false ->
   forall pt pb pl pr : Z,
     self !! "prev_top" = Some (VInt pt) -> self !! "prev_bottom" = Some (VInt pb) ->
     self !! "prev_left" = Some (VInt pl) -> self !! "prev_right" = Some (VInt pr) ->
     exists self',
       set_rotation (VInt rot') self = (Return tt, self') /\
       loaded self' W H rx ry rot' /\
       corners_are self' pt pl pr pb).
Proof.
  intros Hld Hrx Hry Hrot' Hi Hpw Hph. pose proof Hld as [].
  assert (Hld' : loaded (<["_rotation" := VInt rot']> self) W H rx ry rot')
    by (split; lookups).
  assert (Hset : set_rotation (VInt rot') self
                 = image_or_rotation_changed (<["_rotation" := VInt rot']> self)).
  { unfold set_rotation. rewrite (proj1 (in_rotations rot') Hrot'). cbn [negb].
    do 2 step. reflexivity. }
  rewrite Hset. split.
  - intros Htest.
    destruct (image_or_rotation_changed_reset _ W H rx ry rot' i pw ph Hld')
      as (i' & ->); try done; try lookups.
    eexists. split; [reflexivity|]. split; split; lookups.
  - intros Htest pt pb pl pr Hpt Hpb Hpl Hpr.
    destruct (image_or_rotation_changed_reuse _ W H rx ry rot' i pw ph
                (VInt pt) (VInt pb) (VInt pl) (VInt pr) Hld')
      as (i' & ->); try done; try lookups.
    eexists. split; [reflexivity|]. split; split; lookups.
Qed.

(** X17. After [save_prev_crop], a change of rotation through
    [set_rotation] keeps the crop rectangle as it is, edge for edge, on a
    manager with an image loaded whose width is not [0]: the rectangle is
    neither reset nor aligned for the new rotation. *)
Theorem crop_survives_set_rotation self (W H rx ry rot t l r b rot' : Z) :
  ready self W H rx ry rot -> W ≠ 0 ->
  corners_are self t l r b -> In rot' [1; 3; 6; 8] ->
  exists self',
    (save_prev_crop;; set_rotation (VInt rot')) self = (Return tt, self') /\
    loaded self' W H rx ry rot' /\
    corners_are self' t l r b.
Proof.
  intros [Hld Hrx Hry Hrot [i Hi] _] HW Hc Hrot'.
  pose proof Hld as [Hw Hh Hroundx Hroundy Hrotation].
  rewrite (run_bind _ _ _ _ _ (save_prev_crop_run self W H t l r b Hw Hh Hc)).
  match goal with |- context [set_rotation _ ?s] => set (saved := s) end.
  assert (Hsaved : loaded saved W H rx ry rot) by (unfold saved; split; lookups).
  assert (Htest : size_test W H W H = false) by (by apply size_test_spec).
  destruct (proj2 (set_rotation_corners saved W H rx ry rot rot' i W H Hsaved Hrx Hry Hrot'
                     ltac:(unfold saved; lookups) ltac:(unfold saved; lookups)
                     ltac:(unfold saved; lookups)) Htest t b l r)
    as (self' & Hrun & Hld' & Hc'); try (unfold saved; lookups).
  by exists self'.
Qed.

Lemma crop_survives_set_rotation_witness :
  let self := after (set_crop (VInt 3) (VInt 9) (VInt 14) (VInt 7))
                    (manager (photo 16 10) 16 10 8 8 1) in
  exists self',
    (save_prev_crop;; set_rotation (VInt 3)) self = (Return tt, self') /\
    loaded self' 16 10 8 8 3 /\
    corners_are self' 0 8 14 7.
Proof.
  intros self. apply (crop_survives_set_rotation self 16 10 8 8 1 0 8 14 7 3).
  - split.
    + split; vm_compute; reflexivity.
    + lia.
    + lia.
    + simpl. lia.
    + eexists. vm_compute. reflexivity.
    + exists 0, 0. split; [vm_compute; reflexivity|].
      split; [vm_compute; reflexivity|]. left. reflexivity.
  - lia.
  - split; vm_compute; reflexivity.
  - simpl. lia.
Defined.

(** [rotate_cw] is [set_rotation] with the next code, after the exchange of
    the two sizes and the two granularities. *)
Lemma rotate_cw_flips self W H rx ry rot rot' :
  loaded self W H rx ry rot -> In (rot, rot') cw_cycle ->
  rotate_cw self =
  set_rotation (VInt rot')
    (<["round_y" := VInt rx]> (<["round_x" := VInt ry]>
      (<["h" := VInt W]> (<["w" := VInt H]> self)))).
Proof.
  intros [] Hcycle. unfold rotate_cw, _flip_dimensions.
  repeat step.
  unfold cw_cycle in Hcycle. cbn [In] in Hcycle.
  by destruct Hcycle as [E|[E|[E|[E|[]]]]]; injection E as <- <-.
Qed.

(** X18. [rotate_cw] after [save_prev_crop], on a manager with an image
    loaded: when width and height differ the rectangle is reset to what
    [fix] gives for the whole rotated image, and the rectangle remembered is
    not used; on a square image of width other than [0] the rectangle
    remembered is stored back edge for edge, not rotated with the image. *)
Theorem rotate_cw_resets_crop self (W H rx ry rot t l r b : Z) :
  ready self W H rx ry rot -> corners_are self t l r b ->
  exists self' rot',
    (save_prev_crop;; rotate_cw) self = (Return tt, self') /\
    loaded self' H W ry rx rot' /\
    In (rot, rot') [(1, 6); (6, 3); (3, 8); (8, 1)] /\
    (W ≠ H ->
     exists t' l' r' b',
       corners_are self' t' l' r' b' /\
       fix_ (VInt 0) (VInt W) (VInt W) (VInt rx) (reverse_y rot') = Return (t', b') /\
       fix_ (VInt 0) (VInt H) (VInt H) (VInt ry) (reverse_x rot') = Return (l', r')) /\
    (W = H -> W ≠ 0 -> corners_are self' t l r b).
Proof.
  intros [Hld Hrx Hry Hrot [i Hi] _] Hc.
  pose proof Hld as [Hw Hh Hroundx Hroundy Hrotation].
  assert (Hnext : exists rot', In (rot, rot') cw_cycle /\ In rot' [1; 3; 6; 8]).
  { unfold cw_cycle. cbn [In] in *.
    destruct Hrot as [<-|[<-|[<-|[<-|[]]]]]; eexists; split; eauto 10. }
  destruct Hnext as (rot' & Hcycle & Hrot').
  rewrite (run_bind _ _ _ _ _ (save_prev_crop_run self W H t l r b Hw Hh Hc)).
  match goal with |- context [rotate_cw ?s] => set (saved := s) end.
  assert (Hsaved : loaded saved W H rx ry rot) by (unfold saved; split; lookups).
  rewrite (rotate_cw_flips saved W H rx ry rot rot' Hsaved Hcycle).
  match goal with |- context [set_rotation _ ?s] => set (flipped := s) end.
  assert (Hflipped : loaded flipped H W ry rx rot) by (unfold flipped, saved; split; lookups).
  destruct (set_rotation_corners flipped H W ry rx rot rot' i W H Hflipped Hry Hrx Hrot'
              ltac:(unfold flipped, saved; lookups) ltac:(unfold flipped, saved; lookups)
              ltac:(unfold flipped, saved; lookups)) as [Hreset Hreuse].
  destruct (size_test H W W H) eqn:Htest.
  - destruct (Hreset eq_refl) as (self' & Hrun & Hld' & Hc').
    exists self', rot'. split; [done|]. split; [done|]. split; [done|]. split.
    + intros _. destruct (in_tuple_reverse rot') as [Ey Ex].
      rewrite <- Ex, <- Ey, !fix_int by done.
      eexists _, _, _, _. split; [exact Hc'|].
      split; f_equal; apply surjective_pairing.
    + intros E HW. subst W.
      rewrite (proj2 (size_test_spec H H H H)) in Htest by done. discriminate.
  - destruct (Hreuse eq_refl t b l r) as (self' & Hrun & Hld' & Hc');
      try (unfold flipped, saved; lookups).
    exists self', rot'. split; [done|]. split; [done|]. split; [done|]. split; [|done].
    apply size_test_spec in Htest. lia.
Qed.

Lemma rotate_cw_resets_crop_witness :
  let self := after (set_crop (VInt 3) (VInt 9) (VInt 14) (VInt 7))
                    (manager (photo 16 10) 16 10 8 8 1) in
  exists self' rot',
    (save_prev_crop;; rotate_cw) self = (Return tt, self') /\
    loaded self' 10 16 8 8 rot' /\
    In (1, rot') [(1, 6); (6, 3); (3, 8); (8, 1)] /\
    (16 ≠ 10 ->
     exists t' l' r' b',
       corners_are self' t' l' r' b' /\
       fix_ (VInt 0) (VInt 16) (VInt 16) (VInt 8) (reverse_y rot') = Return (t', b') /\
       fix_ (VInt 0) (VInt 10) (VInt 10) (VInt 8) (reverse_x rot') = Return (l', r')) /\
    (16 = 10 -> 16 ≠ 0 -> corners_are self' 0 8 14 7).
Proof.
  intros self. apply (rotate_cw_resets_crop self 16 10 8 8 1 0 8 14 7).
  - split.
    + split; vm_compute; reflexivity.
    + lia.
    + lia.
    + simpl. lia.
    + eexists. vm_compute. reflexivity.
    + exists 0, 0. split; [vm_compute; reflexivity|].
      split; [vm_compute; reflexivity|]. left. reflexivity.
  - split; vm_compute; reflexivity.
Defined.

(** X19. [set_image(None)] returns on every manager; afterwards the image
    is [None] and the attributes [left], [right], [bottom], [blurred] and
    [xor] are gone, so that [get_corners] raises [AttributeError] although
    [top] is still there; no other attribute changes. *)
Theorem set_image_none_forgets_rectangle (self : gmap string value) (top : value) :
  self !! "top" = Some top ->
  exists self',
    set_image VNone self = (Return tt, self') /\
    get_image self' = (Return VNone, self') /\
    get_corners self' = (Raise AttributeError, self') /\
    self' !! "top" = Some top /\
    (forall name, name ∈ ["left"; "right"; "bottom"; "blurred"; "xor"] ->
       self' !! name = None) /\
    (forall name, name ∉ ["left"; "right"; "bottom"; "blurred"; "xor"; "_image"] ->
       self' !! name = self !! name).
Proof.
  intros Htop. eexists. split; [reflexivity|].
  split; [apply reads_getattr; lookups|].
  split.
  { unfold get_corners.
    eapply run_reads; [apply reads_getattr; lookups|]. cbv beta.
    unfold mbind, M_bind, getattr.
    rewrite lookup_insert_ne, lookup_delete_ne, lookup_delete_ne, lookup_delete_ne,
      lookup_delete_ne, lookup_delete_eq by done. reflexivity. }
  split; [lookups|]. split.
  - intros name Hname. rewrite !elem_of_cons in Hname.
    destruct Hname as [->|[->|[->|[->|[->|Hname]]]]]; [..|by apply elem_of_nil in Hname];
      rewrite lookup_insert_ne by done;
      repeat first [apply lookup_delete_eq | rewrite lookup_delete_ne by done].
  - intros name Hname. rewrite !not_elem_of_cons in Hname.
    destruct Hname as (? & ? & ? & ? & ? & ? & _).
    rewrite lookup_insert_ne by done. by rewrite !lookup_delete_ne by done.
Qed.

Lemma set_image_none_forgets_rectangle_witness :
  let self := manager (photo 16 10) 16 10 8 8 1 in
  exists self',
    set_image VNone self = (Return tt, self') /\
    get_image self' = (Return VNone, self') /\
    get_corners self' = (Raise AttributeError, self') /\
    self' !! "top" = Some (VInt 0) /\
    (forall name, name ∈ ["left"; "right"; "bottom"; "blurred"; "xor"] ->
       self' !! name = None) /\
    (forall name, name ∉ ["left"; "right"; "bottom"; "blurred"; "xor"; "_image"] ->
       self' !! name = self !! name).
Proof.
  intros self. apply (set_image_none_forgets_rectangle self (VInt 0)).
  vm_compute. reflexivity.
Defined.

(** X20. Setting an image on a manager whose size differs from the size
    remembered (as it does when nothing was remembered yet, [prev_w] being
    [0]) returns, stores a copy of the image, puts the rotation back to [1]
    whatever it was, and selects the whole image: the rectangle is
    [(0, 0, w, h)].  The rectangle remembered is not read, so that the
    attribute [prev_right], which [__init__] does not create, is not
    missed. *)
Theorem set_image_selects_whole_image self (i : Image) (W H rx ry pw ph : Z) :
  self !! "w" = Some (VInt W) -> self !! "h" = Some (VInt H) ->
  self !! "round_x" = Some (VInt rx) -> self !! "round_y" = Some (VInt ry) ->
  self !! "prev_w" = Some (VInt pw) -> self !! "prev_h" = Some (VInt ph) ->
  rx ≠ 0 -> ry ≠ 0 -> 0 <= W -> 0 <= H ->
  W = 0 \/ W ≠ pw \/ H ≠ ph ->
  exists self',
    set_image (VImage i) self = (Return tt, self') /\
    loaded self' W H rx ry 1 /\
    corners_are self' 0 0 W H /\
    self' !! "_orig_image" = Some (VImage (copy i)) /\
    get_image self' = (Return (VImage (copy i)), self').
Proof.
  intros Hw Hh Hroundx Hroundy Hpw Hph Hrx Hry HW HH Hsize.
  assert (Htest : size_test W H pw ph = true).
  { destruct (size_test W H pw ph) eqn:E; [done|]. apply size_test_spec in E. lia. }
  assert (Etb : align 0 H H ry (in_tuple (VInt 1) [3; 8]) = (0, H)).
  { change (in_tuple (VInt 1) [3; 8]) with false. rewrite align_anchor.
    unfold anchor. rewrite Z.min_l, Z.max_r by lia. by rewrite Z.div_0_l by done. }
  assert (Elr : align 0 W W rx (in_tuple (VInt 1) [3; 6]) = (0, W)).
  { change (in_tuple (VInt 1) [3; 6]) with false. rewrite align_anchor.
    unfold anchor. rewrite Z.min_l, Z.max_r by lia. by rewrite Z.div_0_l by done. }
  eexists. split.
  { unfold set_image. do 3 step.
    unfold image_or_rotation_changed.
    step. eapply run_reads; [apply (reads_apply_rotation _ 1); lookups|]. cbv beta.
    change (turned 1 (copy i)) with (VImage (copy i)).
    step. eapply run_reads; [apply (reads_size_changed _ W H pw ph); lookups|].
    rewrite Htest. cbv beta iota.
    repeat step. rewrite fix_int by done. repeat step.
    rewrite fix_int by done. repeat step.
    rewrite Etb, Elr. cbn [fst snd]. reflexivity. }
  split; [split; lookups|]. split; [split; lookups|]. split; [lookups|].
  apply reads_getattr. lookups.
Qed.

Lemma set_image_selects_whole_image_witness :
  let self := after (__init__;; setattr "w" (VInt 16);; setattr "h" (VInt 10);;
                     setattr "round_x" (VInt 8);; setattr "round_y" (VInt 8)) ∅ in
  exists self',
    set_image (VImage (photo 16 10)) self = (Return tt, self') /\
    loaded self' 16 10 8 8 1 /\
    corners_are self' 0 0 16 10 /\
    self' !! "_orig_image" = Some (VImage (copy (photo 16 10))) /\
    get_image self' = (Return (VImage (copy (photo 16 10))), self').
Proof.
  intros self. apply (set_image_selects_whole_image self (photo 16 10) 16 10 8 8 0 0);
    try (vm_compute; reflexivity); try lia.
Defined.

(** X21. On a manager on which no image was ever set, as [__init__] leaves
    it, the rectangle is [(0, 0, 0, 0)] and the image is [None], but there
    is no rotation: [get_rotation], [set_crop] with any arguments and
    [set_rotation] with any of the four codes raise [AttributeError] and
    leave the manager as it is. *)
Theorem fresh_manager_has_no_rotation (self0 : gmap string value) :
  self0 !! "_rotation" = None ->
  exists self,
    __init__ self0 = (Return tt, self) /\
    get_corners self = (Return (VInt 0, VInt 0, VInt 0, VInt 0), self) /\
    get_image self = (Return VNone, self) /\
    get_rotation self = (Raise AttributeError, self) /\
    (forall top left right bottom,
       set_crop top left right bottom self = (Raise AttributeError, self)) /\
    (forall rotation, in_tuple rotation [1; 3; 6; 8] = true ->
       set_rotation rotation self = (Raise AttributeError, self)).
Proof.
  intros Hrot. eexists. split; [reflexivity|].
  match goal with |- get_corners ?s = _ /\ _ => set (self := s) end.
  assert (Hnone : get_rotation self = (Raise AttributeError, self)).
  { unfold get_rotation, getattr, self.
    repeat first [rewrite lookup_insert_ne by done | rewrite lookup_delete_ne by done].
    by rewrite Hrot. }
  split; [change (reads get_corners self (VInt 0, VInt 0, VInt 0, VInt 0));
          unfold self; reads_tac|].
  split; [apply reads_getattr; unfold self; lookups|].
  split; [done|]. split.
  - intros top left right bottom. unfold set_crop.
    eapply run_reads; [apply reads_getattr; unfold self; lookups|]. cbv beta.
    eapply run_reads; [apply reads_getattr; unfold self; lookups|]. cbv beta.
    by apply run_bind_raise.
  - intros rotation Hin. unfold set_rotation. rewrite Hin. cbn [negb].
    by apply run_bind_raise.
Qed.

Lemma fresh_manager_has_no_rotation_witness :
  exists self,
    __init__ ∅ = (Return tt, self) /\
    get_corners self = (Return (VInt 0, VInt 0, VInt 0, VInt 0), self) /\
    get_image self = (Return VNone, self) /\
    get_rotation self = (Raise AttributeError, self) /\
    (forall top left right bottom,
       set_crop top left right bottom self = (Raise AttributeError, self)) /\
    (forall rotation, in_tuple rotation [1; 3; 6; 8] = true ->
       set_rotation rotation self = (Raise AttributeError, self)).
Proof. apply (fresh_manager_has_no_rotation ∅). reflexivity. Defined.

(** X22. [set_crop] is not atomic.  With a vertical granularity that is
    [None] or [0] it raises [TypeError] or [ZeroDivisionError] and leaves
    the manager as it is; with a good vertical granularity and the
    horizontal granularity [0] it raises [ZeroDivisionError] after it has
    stored the new top and bottom edges, the left and right edges being the
    old ones. *)
Theorem set_crop_bad_granularity self (H ry rot t l r b : Z) (round_y : value) :
  self !! "h" = Some (VInt H) -> self !! "round_y" = Some round_y ->
  self !! "_rotation" = Some (VInt rot) ->
  (round_y = VNone ->
   set_crop (VInt t) (VInt l) (VInt r) (VInt b) self = (Raise TypeError, self)) /\
  (round_y = VInt 0 ->
   set_crop (VInt t) (VInt l) (VInt r) (VInt b) self = (Raise ZeroDivisionError, self)) /\
  (round_y = VInt ry -> ry ≠ 0 ->
   forall W : Z, self !! "w" = Some (VInt W) -> self !! "round_x" = Some (VInt 0) ->
   exists self',
     set_crop (VInt t) (VInt l) (VInt r) (VInt b) self = (Raise ZeroDivisionError, self') /\
     self' !! "top" = Some (VInt (anchor (Z.min t b) H ry (reverse_y rot))) /\
     self' !! "bottom" = Some (VInt (Z.max t b)) /\
     self' !! "left" = self !! "left" /\ self' !! "right" = self !! "right").
Proof.
  intros Hh Hry Hrot. split; [|split].
  - intros ->. unfold set_crop. do 3 step.
    unfold fix_. cbn [int_of]. destruct (sorted2 t b), (in_tuple (VInt rot) [3; 8]); reflexivity.
  - intros ->. unfold set_crop. do 3 step.
    unfold fix_. cbn [int_of]. destruct (sorted2 t b), (in_tuple (VInt rot) [3; 8]); reflexivity.
  - intros -> Hnz W Hw Hrx. eexists. split.
    + unfold set_crop. do 3 step.
      rewrite fix_int by done. step. do 2 step. do 3 step.
      unfold fix_. cbn [int_of].
      destruct (sorted2 l r), (in_tuple (VInt rot) [3; 6]); reflexivity.
    + destruct (in_tuple_reverse rot) as [<- _]. rewrite align_anchor. cbn [fst snd].
      split; [lookups|]. split; [lookups|]. split; by rewrite !lookup_insert_ne by done.
Qed.

Lemma set_crop_bad_granularity_witness :
  let self := after (setattr "round_x" (VInt 0)) (manager (photo 16 10) 16 10 8 8 1) in
  (VInt 8 = VNone ->
   set_crop (VInt 9) (VInt 3) (VInt 5) (VInt 2) self = (Raise TypeError, self)) /\
  (VInt 8 = VInt 0 ->
   set_crop (VInt 9) (VInt 3) (VInt 5) (VInt 2) self = (Raise ZeroDivisionError, self)) /\
  (VInt 8 = VInt 8 -> 8 ≠ 0 ->
   forall W : Z, self !! "w" = Some (VInt W) -> self !! "round_x" = Some (VInt 0) ->
   exists self',
     set_crop (VInt 9) (VInt 3) (VInt 5) (VInt 2) self = (Raise ZeroDivisionError, self') /\
     self' !! "top" = Some (VInt (anchor (Z.min 9 2) 10 8 (reverse_y 1))) /\
     self' !! "bottom" = Some (VInt (Z.max 9 2)) /\
     self' !! "left" = self !! "left" /\ self' !! "right" = self !! "right").
Proof.
  intros self. apply (set_crop_bad_granularity self 10 8 1 9 3 5 2 (VInt 8));
    vm_compute; reflexivity.
Defined.


(** * What is read from an image file *)

Lemma fold_max_spec (zs : list Z) (z : Z) :
  let m := fold_left Z.max zs z in
  In m (z :: zs) /\ forall c, In c (z :: zs) -> c <= m.
Proof.
  revert z. induction zs as [|a zs IH]; intros z; cbn [fold_left].
  - split; [by left|]. intros c [->|[]]. lia.
  - destruct (IH (Z.max z a)) as [Hin Hle]. split.
    + destruct Hin as [E|Hin].
      * rewrite <- E. destruct (Z.max_spec z a) as [[_ ->]|[_ ->]].
        -- right. by left.
        -- by left.
      * right. by right.
    + intros c Hc.
      assert (Hm : Z.max z a <= fold_left Z.max zs (Z.max z a)) by (apply Hle; by left).
      destruct Hc as [->|[->|Hc]]; [lia..|].
      apply Hle. by right.
Qed.

Lemma py_max_spec (zs : list Z) :
  zs ≠ [] ->
  exists m, py_max zs = Return m /\ In m zs /\ forall c, In c zs -> c <= m.
Proof.
  destruct zs as [|z zs]; [done|]. intros _.
  exists (fold_left Z.max zs z). split; [reflexivity|]. apply fold_max_spec.
Qed.

(** X23. [image_round] returns [(1, 1)] for every format other than JPEG
    and MPO.  For these two it raises [ValueError] when the image has no
    component; otherwise it returns eight times the largest horizontal and
    eight times the largest vertical sampling factor of the components, each
    reached by a component, so that both granularities are positive
    multiples of 8 when the sampling factors are positive. *)
Theorem image_round_blocks (i : Picture) :
  (is_jpeg (picture i) = false -> image_round i = Return (1, 1)) /\
  (is_jpeg (picture i) = true -> layer i = [] -> image_round i = Raise ValueError) /\
  (is_jpeg (picture i) = true -> layer i ≠ [] ->
   exists x y,
     image_round i = Return (x * 8, y * 8) /\
     (exists c, In c (layer i) /\ c.1.1.2 = x) /\
     (exists c, In c (layer i) /\ c.1.2 = y) /\
     (forall c, In c (layer i) -> c.1.1.2 <= x /\ c.1.2 <= y) /\
     ((forall c, In c (layer i) -> 0 < c.1.1.2 /\ 0 < c.1.2) -> 8 <= x * 8 /\ 8 <= y * 8)).
Proof.
  unfold image_round. split; [by intros ->|]. split; [by intros -> ->|].
  intros -> Hlayer.
  destruct (py_max_spec (map (fun c => c.1.1.2) (layer i))) as (x & -> & Hx & Hxmax).
  { by destruct (layer i). }
  destruct (py_max_spec (map (fun c => c.1.2) (layer i))) as (y & -> & Hy & Hymax).
  { by destruct (layer i). }
  apply in_map_iff in Hx as (cx & Ex & Hcx).
  apply in_map_iff in Hy as (cy & Ey & Hcy).
  exists x, y. split; [reflexivity|].
  split; [by exists cx|]. split; [by exists cy|]. split.
  - intros c Hc. split.
    + apply Hxmax. apply in_map_iff. by exists c.
    + apply Hymax. apply in_map_iff. by exists c.
  - intros Hpos. destruct (Hpos cx Hcx) as [? _], (Hpos cy Hcy) as [_ ?]. lia.
Qed.

Lemma image_round_blocks_witness :
  let i := {| picture := photo 640 480;
              layer := [(1, 2, 2, 0); (2, 1, 1, 1); (3, 1, 1, 1)];
              _getexif := None |} in
  (is_jpeg (picture i) = false -> image_round i = Return (1, 1)) /\
  (is_jpeg (picture i) = true -> layer i = [] -> image_round i = Raise ValueError) /\
  (is_jpeg (picture i) = true -> layer i ≠ [] ->
   exists x y,
     image_round i = Return (x * 8, y * 8) /\
     (exists c, In c (layer i) /\ c.1.1.2 = x) /\
     (exists c, In c (layer i) /\ c.1.2 = y) /\
     (forall c, In c (layer i) -> c.1.1.2 <= x /\ c.1.2 <= y) /\
     ((forall c, In c (layer i) -> 0 < c.1.1.2 /\ 0 < c.1.2) -> 8 <= x * 8 /\ 8 <= y * 8)).
Proof. intros i. apply (image_round_blocks i). Defined.

(** X24. [image_rotation] never returns [None], [0] or [False]: it returns
    the value stored under the orientation tag [0x112] when that value is
    true in a condition, and [1] in every other case: no method [_getexif],
    a result of it that is not a dictionary, no entry under the tag, or an
    entry that is [None] or [0].  It does not check the value: an
    orientation other than 1, 3, 6 and 8, such as the mirrored ones, is
    returned as it is, and [set_rotation] raises [ValueError] for it. *)
Theorem image_rotation_defaults_to_1 (i : Picture) :
  truthy (image_rotation i) = true /\
  (_getexif i = None \/ _getexif i = Some None -> image_rotation i = VInt 1) /\
  (forall exif, _getexif i = Some (Some exif) ->
     (exif !! 274 = None -> image_rotation i = VInt 1) /\
     (forall v, exif !! 274 = Some v ->
        image_rotation i = (if truthy v then v else VInt 1)) /\
     (forall (z : Z) (self : gmap string value),
        exif !! 274 = Some (VInt z) -> z ∉ [0; 1; 3; 6; 8] ->
        set_rotation (image_rotation i) self = (Raise ValueError, self))).
Proof.
  unfold image_rotation. split; [|split].
  - destruct (_getexif i) as [[exif|]|]; try reflexivity.
    cbv zeta. destruct (exif !! 274) as [v|]; [|reflexivity].
    change (default VNone (Some v)) with v.
    destruct (truthy v) eqn:E; [exact E|reflexivity].
  - by intros [-> | ->].
  - intros exif ->. split; [by intros ->|]. split; [by intros v ->|].
    intros z self -> Hz. change (default VNone (Some (VInt z))) with (VInt z).
    cbn [truthy]. rewrite !not_elem_of_cons in Hz.
    destruct Hz as (? & ? & ? & ? & ? & _).
    destruct (Z.eqb_spec z 0) as [|_]; [done|]. cbn [negb].
    unfold set_rotation, in_tuple, int_of, existsb.
    destruct (Z.eqb_spec z 1), (Z.eqb_spec z 3), (Z.eqb_spec z 6), (Z.eqb_spec z 8);
      try done.
Qed.

Lemma image_rotation_defaults_to_1_witness :
  let i := {| picture := photo 640 480; layer := [];
              _getexif := Some (Some ({[ 274 := VInt 2 ]} : gmap Z value)) |} in
  truthy (image_rotation i) = true /\
  (_getexif i = None \/ _getexif i = Some None -> image_rotation i = VInt 1) /\
  (forall exif, _getexif i = Some (Some exif) ->
     (exif !! 274 = None -> image_rotation i = VInt 1) /\
     (forall v, exif !! 274 = Some v ->
        image_rotation i = (if truthy v then v else VInt 1)) /\
     (forall (z : Z) (self : gmap string value),
        exif !! 274 = Some (VInt z) -> z ∉ [0; 1; 3; 6; 8] ->
        set_rotation (image_rotation i) self = (Raise ValueError, self))).
Proof. intros i. apply (image_rotation_defaults_to_1 i). Defined.


(** * The standard-size frame *)

Lemma Qltb_inject (a b : Z) : Qltb (inject_Z a) (inject_Z b) = (a <? b).
Proof.
  destruct (Qltb_spec (inject_Z a) (inject_Z b)) as [H|H], (Z.ltb_spec a b) as [Hz|Hz];
    try done; exfalso.
  - rewrite <- Zlt_Qlt in H. lia.
  - rewrite <- Zle_Qle in H. lia.
Qed.

Lemma reads_int_div a b self :
  ~ (number_Q b == 0)%Q -> reads (int_div a b) self (quotient a b).
Proof.
  intros Hb. destruct b as [z|q]; cbn [int_div quotient number_Q] in *;
    by apply reads_true_div.
Qed.

(** [set_stdsize] on a manager with an image loaded: the frame, one
    placement per axis, and the call of [set_crop]. *)
Lemma set_stdsize_run self (W H rx ry rot t l r b x y : Z) :
  loaded self W H rx ry rot -> corners_are self t l r b ->
  0 <= W -> 0 <= H -> 0 < x -> 0 < y ->
  set_stdsize x y self =
  (let fr := stdsize_frame W H x y in
   let lr := stdsize_axis W l r fr.1 in
   let tb := stdsize_axis H t b fr.2 in
   set_crop (VInt (py_int tb.1)) (VInt (py_int lr.1))
            (VInt (py_int lr.2)) (VInt (py_int tb.2)) self).
Proof.
  intros [] [] HW HH Hx Hy. unfold set_stdsize, stdsize_frame. cbv zeta.
  step.
  assert (Hxnz : ~ (inject_Z x == 0)%Q) by (apply inject_Z_nonzero; lia).
  set (xy := if W <? x then (W, Float (fl (inject_Z (y * W) / inject_Z x)))
             else (x, Int y)).
  eapply run_reads with (a := xy).
  { unfold xy. destruct (W <? x); reads_tac. }
  cbv beta.
  step.
  set (fr := if Qltb (inject_Z H) (number_Q xy.2)
             then (Float (quotient (xy.1 * H) xy.2), Int H) else (Int xy.1, xy.2)).
  eapply run_reads with (a := fr).
  { unfold fr. destruct (Qltb_spec (inject_Z H) (number_Q xy.2)) as [Hlt|Hle].
    - assert (Hynz : ~ (number_Q xy.2 == 0)%Q).
      { intros E. rewrite E in Hlt. change 0%Q with (inject_Z 0) in Hlt.
        rewrite <- Zlt_Qlt in Hlt. lia. }
      eapply reads_bind; [reads_tac|]. cbv beta.
      eapply reads_bind; [by apply reads_int_div|]. cbv beta. reads_tac.
    - reads_tac. }
  cbv beta.
  do 5 step.
  eapply run_reads.
  { apply reads_if; reads_tac. }
  cbv beta. step.
  eapply run_reads.
  { apply reads_if; reads_tac. }
  cbv beta.
  unfold stdsize_axis. cbv zeta.
  destruct (Qltb _ 0), (Qltb _ 0); cbn [fst snd];
    destruct (Qltb (inject_Z W) _), (Qltb (inject_Z H) _); reflexivity.
Qed.

Lemma Qfloor_unique (q : Q) (m : Z) :
  (inject_Z m <= q)%Q -> (q < inject_Z (m + 1))%Q -> Qfloor q = m.
Proof.
  intros Hlo Hhi.
  pose proof (Qfloor_le q) as Hfl. pose proof (Qlt_floor q) as Hfh.
  assert (m < Qfloor q + 1) by (rewrite Zlt_Qlt; lra).
  assert (Qfloor q < m + 1) by (rewrite Zlt_Qlt; lra).
  lia.
Qed.

Lemma py_int_floor (q : Q) : (0 <= q)%Q -> py_int q = Qfloor q.
Proof.
  intros Hq. unfold py_int. destruct (Qle_bool 0 q) eqn:E; [done|].
  apply Qle_bool_iff in Hq. congruence.
Qed.

Lemma py_int_inject (q : Q) (z : Z) : (q == inject_Z z)%Q -> py_int q = z.
Proof.
  intros E. unfold py_int. destruct (Qle_bool 0 q).
  - rewrite (Qfloor_comp _ _ E). apply Qfloor_Z.
  - rewrite (Qceiling_comp _ _ E). apply Qceiling_Z.
Qed.

(** One axis, for a frame of integer length that fits. *)
Lemma stdsize_axis_fits (lim a b x : Z) :
  0 < x <= lim ->
  let p := stdsize_axis lim a b (Int x) in
  let low := clamp ((a + b - x) / 2) 0 (lim - x) in
  py_int p.1 = low /\ py_int p.2 = low + x.
Proof.
  intros Hx. cbv zeta. unfold stdsize_axis. cbn [centre plus minus number_Q]. cbv zeta.
  set (n := a + b - x).
  set (q := ((inject_Z (a + b) - inject_Z x) / 2)%Q).
  assert (Eq : (q == inject_Z n / inject_Z 2)%Q).
  { unfold q, n, Z.sub. rewrite !inject_Z_plus, inject_Z_opp. reflexivity. }
  assert (Ef : Qfloor q = n / 2) by (by rewrite (Qfloor_comp _ _ Eq), <- Zdiv_Qdiv).
  pose proof (Qfloor_le q) as Hfl. pose proof (Qlt_floor q) as Hfh.
  rewrite Ef in Hfl, Hfh. rewrite inject_Z_plus in Hfh.
  change (inject_Z 1) with 1%Q in Hfh.
  assert (Hlx : (inject_Z (lim - x) == inject_Z lim - inject_Z x)%Q).
  { unfold Z.sub. rewrite inject_Z_plus, inject_Z_opp. reflexivity. }
  unfold clamp.
  destruct (Qltb_spec q 0) as [Hneg|Hpos]; cbn [fst snd].
  - (* the interval starts at 0 *)
    rewrite Qltb_inject. destruct (Z.ltb_spec lim x); [lia|]. cbn [fst snd].
    assert (n / 2 < 0).
    { rewrite Zlt_Qlt. change (inject_Z 0) with 0%Q. lra. }
    destruct (Z.ltb_spec (n / 2) 0); [|lia].
    split; [by apply py_int_inject|]. by apply py_int_inject.
  - assert (0 <= n / 2).
    { rewrite <- Ef. change 0 with (Qfloor 0). by apply Qfloor_resp_le. }
    destruct (Z.ltb_spec (n / 2) 0); [lia|].
    destruct (Qltb_spec (inject_Z lim) (q + inject_Z x)) as [Hover|Hin]; cbn [fst snd].
    + (* the interval ends at the limit *)
      assert (lim - x <= n / 2).
      { rewrite <- Ef, <- (Qfloor_Z (lim - x)). apply Qfloor_resp_le. lra. }
      split.
      * rewrite (py_int_inject _ (lim - x)) by (by rewrite Hlx).
        destruct (Z.ltb_spec (lim - x) (n / 2)); lia.
      * rewrite (py_int_inject _ lim) by reflexivity.
        destruct (Z.ltb_spec (lim - x) (n / 2)); lia.
    + assert (n / 2 <= lim - x).
      { rewrite <- Ef, <- (Qfloor_Z (lim - x)). apply Qfloor_resp_le. lra. }
      destruct (Z.ltb_spec (lim - x) (n / 2)); [lia|].
      split; [by rewrite py_int_floor|].
      assert (Hxq : (0 < inject_Z x)%Q).
      { change 0%Q with (inject_Z 0). rewrite <- Zlt_Qlt. lia. }
      rewrite py_int_floor by lra.
      apply Qfloor_unique; rewrite !inject_Z_plus; [lra|].
      change (inject_Z 1) with 1%Q. lra.
Qed.

(** X25. For a frame that fits in the image, [set_stdsize] places a
    rectangle of exactly that width and height: centred on the middle of
    the current rectangle (rounded down), and moved into the image where it
    would stick out, [left = clamp((left + right - x) // 2, 0, w - x)] and
    [right = left + x], the same from top to bottom; it hands this
    rectangle to [set_crop], which stores its right and bottom edges and
    aligns its left and top edges. *)
Theorem set_stdsize_centres_frame self (W H rx ry rot t l r b x y : Z) :
  loaded self W H rx ry rot -> rx ≠ 0 -> ry ≠ 0 ->
  corners_are self t l r b ->
  0 < x <= W -> 0 < y <= H ->
  let left := clamp ((l + r - x) / 2) 0 (W - x) in
  let top := clamp ((t + b - y) / 2) 0 (H - y) in
  exists self',
    set_stdsize x y self = (Return tt, self') /\
    set_crop (VInt top) (VInt left) (VInt (left + x)) (VInt (top + y)) self
      = (Return tt, self') /\
    corners_are self'
      (anchor top H ry (reverse_y rot)) (anchor left W rx (reverse_x rot))
      (left + x) (top + y) /\
    0 <= left /\ left + x <= W /\ 0 <= top /\ top + y <= H.
Proof.
  intros Hld Hrx Hry Hc Hx Hy left top.
  rewrite (set_stdsize_run self W H rx ry rot t l r b x y) by (done || lia).
  cbv zeta.
  assert (Efr : stdsize_frame W H x y = (Int x, Int y)).
  { unfold stdsize_frame.
    destruct (Z.ltb_spec W x); [lia|]. cbn [fst snd number_Q]. rewrite Qltb_inject.
    by destruct (Z.ltb_spec H y); [lia|]. }
  rewrite Efr. cbn [fst snd].
  destruct (stdsize_axis_fits W l r x Hx) as [-> ->].
  destruct (stdsize_axis_fits H t b y Hy) as [-> ->].
  fold left top.
  pose proof (clamp_range ((l + r - x) / 2) 0 (W - x) ltac:(lia)) as Hleft.
  pose proof (clamp_range ((t + b - y) / 2) 0 (H - y) ltac:(lia)) as Htop.
  fold left in Hleft. fold top in Htop. clearbody left top.
  destruct (set_crop_sorted self W H rx ry rot top left (left + x) (top + y))
    as (self' & Hrun & Hcorners & _); [done..|lia|lia|].
  exists self'. split; [done|]. split; [done|]. split; [done|]. lia.
Qed.

Lemma set_stdsize_centres_frame_witness :
  let self := after (set_crop (VInt 10) (VInt 60) (VInt 95) (VInt 31))
                    (manager (drawing 100 80) 100 80 1 1 1) in
  let left := clamp ((60 + 95 - 50) / 2) 0 (100 - 50) in
  let top := clamp ((10 + 31 - 20) / 2) 0 (80 - 20) in
  exists self',
    set_stdsize 50 20 self = (Return tt, self') /\
    set_crop (VInt top) (VInt left) (VInt (left + 50)) (VInt (top + 20)) self
      = (Return tt, self') /\
    corners_are self'
      (anchor top 80 1 (reverse_y 1)) (anchor left 100 1 (reverse_x 1))
      (left + 50) (top + 20) /\
    0 <= left /\ left + 50 <= 100 /\ 0 <= top /\ top + 20 <= 80.
Proof.
  intros self. apply (set_stdsize_centres_frame self 100 80 1 1 1 10 60 95 31 50 20).
  - split; vm_compute; reflexivity.
  - lia.
  - lia.
  - split; vm_compute; reflexivity.
  - lia.
  - lia.
Defined.

Lemma fl_zero (q : Q) : (q == 0)%Q -> fl q = 0%Q.
Proof. intros E. unfold fl. by rewrite (Qeq_eq_bool _ _ E). Qed.

(** Rounding does not leave an interval from 0 to an integer. *)
Lemma fl_within (v : Q) (z : Z) :
  Z.abs z < 2 ^ 53 -> (0 <= v)%Q -> (v <= inject_Z z)%Q ->
  (0 <= fl v)%Q /\ (fl v <= inject_Z z)%Q.
Proof.
  intros Hz Hv Hvz.
  destruct (Qeq_dec v 0) as [E|Hne].
  { rewrite (fl_zero v E). split; [apply Qle_refl|lra]. }
  assert (Hpos : (0 < v)%Q) by lra.
  split; [apply Qlt_le_weak; by apply fl_pos|].
  rewrite <- (fl_int (inject_Z z) z Hz) by reflexivity.
  by apply fl_le.
Qed.

(** A float that is not negative is not above the float of a larger sum. *)
Lemma fl_sum_above (v q : Q) : (0 <= fl v)%Q -> (0 < q)%Q -> (fl v <= fl (fl v + q))%Q.
Proof.
  intros Hlow Hq.
  destruct (Qlt_le_dec 0 v) as [Hv|Hv].
  - rewrite <- (fl_idempotent v Hv) at 1. apply fl_le; [by apply fl_pos|lra].
  - destruct (Qeq_dec v 0) as [E|Hne].
    + rewrite (fl_zero v E). apply Qlt_le_weak, fl_pos. lra.
    + exfalso. assert (Hneg : (v < 0)%Q) by lra. apply fl_neg in Hneg. lra.
Qed.

Lemma py_int_range (q : Q) (lim : Z) :
  (0 <= q)%Q -> (q <= inject_Z lim)%Q -> 0 <= py_int q <= lim.
Proof.
  intros H0 Hl. rewrite py_int_floor by done. split.
  - change 0 with (Qfloor 0). by apply Qfloor_resp_le.
  - rewrite <- (Qfloor_Z lim). by apply Qfloor_resp_le.
Qed.

Lemma py_int_le (p q : Q) : (0 <= p)%Q -> (p <= q)%Q -> py_int p <= py_int q.
Proof.
  intros H0 Hl. rewrite !py_int_floor by lra. by apply Qfloor_resp_le.
Qed.

(** One axis, for a frame whose length is a float that fits. *)
Lemma stdsize_axis_float (lim a b : Z) (q : Q) :
  0 < lim < 2 ^ 53 -> (0 < q)%Q -> (q <= inject_Z lim)%Q ->
  let p := stdsize_axis lim a b (Float q) in
  0 <= py_int p.1 <= py_int p.2 /\ py_int p.2 <= lim.
Proof.
  intros Hlim Hq Hql. cbv zeta. unfold stdsize_axis.
  cbn [centre plus minus number_Q]. cbv zeta.
  set (v := (fl (to_float (a + b) - q) / 2)%Q).
  destruct (Qltb_spec (fl v) 0) as [Hneg|Hpos]; cbn [fst snd].
  - (* the interval starts at 0 *)
    destruct (Qltb_spec (inject_Z lim) q) as [Hover|_]; [lra|]. cbn [fst snd].
    rewrite (py_int_inject 0 0) by reflexivity.
    pose proof (py_int_range q lim ltac:(lra) Hql). lia.
  - destruct (Qltb_spec (inject_Z lim) (fl (fl v + q))) as [Hover|Hin]; cbn [fst snd].
    + (* the interval ends at the limit *)
      rewrite (py_int_inject (inject_Z lim) lim) by reflexivity.
      assert (Elim : (to_float lim == inject_Z lim)%Q) by (apply to_float_exact; lia).
      destruct (fl_within (to_float lim - q) lim) as [H1 H2]; [lia|lra|lra|].
      pose proof (py_int_range _ lim H1 H2). lia.
    + pose proof (fl_sum_above v q Hpos Hq) as Hle.
      pose proof (py_int_range (fl v) lim Hpos ltac:(lra)).
      pose proof (py_int_range (fl (fl v + q)) lim ltac:(lra) Hin).
      pose proof (py_int_le _ _ Hpos Hle). lia.
Qed.

(** One axis, for a frame of integer length that fits: the interval lies in
    the image, and has the length of the frame. *)
Lemma stdsize_axis_int (lim a b x : Z) :
  0 < x <= lim ->
  let p := stdsize_axis lim a b (Int x) in
  0 <= py_int p.1 /\ py_int p.2 = py_int p.1 + x /\ py_int p.2 <= lim.
Proof.
  intros Hx. cbv zeta.
  destruct (stdsize_axis_fits lim a b x Hx) as [-> ->].
  pose proof (clamp_range ((a + b - x) / 2) 0 (lim - x) ltac:(lia)). lia.
Qed.

(** The frame after the two tests, on an image of at most [2 ^ 25] pixels
    a side: it fits, and when the frame asked for did not fit it has the
    width or the height of the image. *)
Lemma stdsize_frame_fits (W H x y : Z) :
  0 < W <= 2 ^ 25 -> 0 < H <= 2 ^ 25 -> 0 < x -> 0 < y ->
  let fr := stdsize_frame W H x y in
  (0 < number_Q fr.1 /\ number_Q fr.1 <= inject_Z W)%Q /\
  (0 < number_Q fr.2 /\ number_Q fr.2 <= inject_Z H)%Q /\
  (W < x \/ H < y -> fr.1 = Int W \/ fr.2 = Int H).
Proof.
  intros HW HH Hx Hy. cbv zeta. unfold stdsize_frame.
  assert (H25 : 2 ^ 25 < 2 ^ 53) by reflexivity.
  assert (HWq : (0 < inject_Z W)%Q) by (change 0%Q with (inject_Z 0); rewrite <- Zlt_Qlt; lia).
  assert (HHq : (0 < inject_Z H)%Q) by (change 0%Q with (inject_Z 0); rewrite <- Zlt_Qlt; lia).
  assert (Hxq : (0 < inject_Z x)%Q) by (change 0%Q with (inject_Z 0); rewrite <- Zlt_Qlt; lia).
  assert (Hyq : (0 < inject_Z y)%Q) by (change 0%Q with (inject_Z 0); rewrite <- Zlt_Qlt; lia).
  assert (HfW : (fl (inject_Z W) == inject_Z W)%Q) by (apply fl_int; [lia|reflexivity]).
  destruct (Z.ltb_spec W x) as [Hwide|Hnarrow]; cbn [fst snd number_Q].
  - (* too wide: the height follows *)
    set (y1 := fl (inject_Z (y * W) / inject_Z x)).
    assert (Hy1 : (0 < y1)%Q).
    { apply fl_pos. rewrite inject_Z_mult. apply Qlt_shift_div_l; [done|]. nra. }
    destruct (Qltb_spec (inject_Z H) y1) as [Htall|Hshort]; cbn [fst snd number_Q quotient].
    + assert (EWH : (to_float (W * H) == inject_Z W * inject_Z H)%Q).
      { rewrite to_float_exact, inject_Z_mult; [reflexivity|].
        pose proof (product_bound W H (2 ^ 25) (2 ^ 25)). lia. }
      assert (Hpos : (0 < to_float (W * H) / y1)%Q).
      { apply Qlt_shift_div_l; [done|]. rewrite EWH. nra. }
      assert (Hle : (to_float (W * H) / y1 <= inject_Z W)%Q).
      { apply Qle_shift_div_r; [done|]. rewrite EWH. nra. }
      split; [split; [by apply fl_pos|]|].
      { rewrite <- HfW. by apply fl_le. }
      split; [split; [done|apply Qle_refl]|]. intros _. by right.
    + split; [split; [done|apply Qle_refl]|]. split; [by split|]. intros _. by left.
  - rewrite Qltb_inject. destruct (Z.ltb_spec H y) as [Htall|Hshort];
      cbn [fst snd number_Q quotient].
    + assert (Hpos : (0 < inject_Z (x * H) / inject_Z y)%Q).
      { apply Qlt_shift_div_l; [done|]. rewrite inject_Z_mult. nra. }
      assert (Hle : (inject_Z (x * H) / inject_Z y <= inject_Z W)%Q).
      { apply Qle_shift_div_r; [done|]. rewrite inject_Z_mult.
        assert (inject_Z x <= inject_Z W)%Q by (by rewrite <- Zle_Qle).
        assert (inject_Z H < inject_Z y)%Q by (by rewrite <- Zlt_Qlt).
        nra. }
      split; [split; [by apply fl_pos|]|].
      { rewrite <- HfW. by apply fl_le. }
      split; [split; [done|apply Qle_refl]|]. intros _. by right.
    + split; [split; [done|by rewrite <- Zle_Qle]|].
      split; [split; [done|by rewrite <- Zle_Qle]|]. lia.
Qed.

(** One axis, for whatever side of the frame. *)
Lemma stdsize_axis_inside (lim a b : Z) (x : number) :
  0 < lim < 2 ^ 53 -> (0 < number_Q x)%Q -> (number_Q x <= inject_Z lim)%Q ->
  let p := stdsize_axis lim a b x in
  (0 <= py_int p.1 <= py_int p.2 /\ py_int p.2 <= lim) /\
  (x = Int lim -> py_int p.1 = 0 /\ py_int p.2 = lim).
Proof.
  intros Hlim Hx Hxl. cbv zeta. destruct x as [z|q]; cbn [number_Q] in *.
  - assert (Hz : 0 < z <= lim).
    { change 0%Q with (inject_Z 0) in Hx. rewrite <- Zlt_Qlt in Hx.
      rewrite <- Zle_Qle in Hxl. lia. }
    pose proof (stdsize_axis_int lim a b z Hz) as Hi. cbv zeta in Hi.
    split; [lia|]. intros [= ->]. lia.
  - pose proof (stdsize_axis_float lim a b q Hlim Hx Hxl) as Hf. cbv zeta in Hf.
    split; [lia|]. discriminate.
Qed.

(** Rounding as a relative error. *)
Lemma fl_rel (q : Q) :
  exists d : Q, (fl q == q * (1 + d))%Q /\
                (- (1 # 9007199254740992) <= d)%Q /\ (d <= 1 # 9007199254740992)%Q.
Proof.
  destruct (Qeq_dec q 0) as [E|Hne].
  { exists 0%Q. rewrite (fl_zero q E), E. split; [ring|]. split; lra. }
  pose proof (fl_error q) as Herr.
  change (1 # 2 ^ 53)%Q with (1 # 9007199254740992)%Q in Herr.
  set (f := fl q) in *. clearbody f.
  exists ((f - q) / q)%Q. split; [by field|].
  set (d := ((f - q) / q)%Q).
  assert (Ed : (d * q == f - q)%Q) by (unfold d; by field).
  clearbody d.
  apply Qabs_Qle_condition in Herr. destruct Herr as [H1 H2].
  destruct (Qlt_le_dec 0 q) as [Hpos|Hneg].
  - rewrite (Qabs_pos q) in H1, H2 by lra. split; nra.
  - rewrite (Qabs_neg q) in H1, H2 by lra. assert (q < 0)%Q by lra. split; nra.
Qed.

(** One axis, for a frame whose length is a float that fits: the interval
    stored is less than a pixel and [2 ^ -27] away from that length. *)
Lemma stdsize_axis_float_length (lim a b : Z) (q : Q) :
  0 < lim <= 2 ^ 25 -> (0 < q)%Q -> (q <= inject_Z lim)%Q ->
  let p := stdsize_axis lim a b (Float q) in
  let len := inject_Z (py_int p.2 - py_int p.1) in
  (q - 1 - (1 # 134217728) < len)%Q /\ (len < q + 1 + (1 # 134217728))%Q.
Proof.
  intros Hlim Hq Hql. cbv zeta. unfold stdsize_axis.
  cbn [centre plus minus number_Q]. cbv zeta.
  assert (Hl25 : (inject_Z lim <= 33554432)%Q).
  { change 33554432%Q with (inject_Z (2 ^ 25)). rewrite <- Zle_Qle. lia. }
  assert (H25 : 2 ^ 25 < 2 ^ 53) by reflexivity.
  set (v := (fl (to_float (a + b) - q) / 2)%Q).
  destruct (Qltb_spec (fl v) 0) as [Hneg|Hpos]; cbn [fst snd].
  - destruct (Qltb_spec (inject_Z lim) q) as [Hover|_]; [lra|]. cbn [fst snd].
    rewrite (py_int_inject 0 0) by reflexivity. rewrite Z.sub_0_r.
    rewrite py_int_floor by lra.
    pose proof (Qfloor_le q). pose proof (Qlt_floor q) as Hf.
    rewrite inject_Z_plus in Hf. change (inject_Z 1) with 1%Q in Hf. split; lra.
  - destruct (Qltb_spec (inject_Z lim) (fl (fl v + q))) as [Hover|Hin]; cbn [fst snd].
    + rewrite (py_int_inject (inject_Z lim) lim) by reflexivity.
      assert (Elim : (to_float lim == inject_Z lim)%Q) by (apply to_float_exact; lia).
      destruct (fl_within (to_float lim - q) lim) as [H1 H2]; [lia|lra|lra|].
      destruct (fl_rel (to_float lim - q)) as (d & Ed & Hd1 & Hd2).
      set (g := fl (to_float lim - q)) in *. clearbody g.
      rewrite py_int_floor by done.
      pose proof (Qfloor_le g). pose proof (Qlt_floor g) as Hf.
      rewrite inject_Z_plus in Hf. change (inject_Z 1) with 1%Q in Hf.
      unfold Z.sub. rewrite inject_Z_plus, inject_Z_opp.
      rewrite Elim in Ed. set (L := inject_Z lim) in *. clearbody L.
      assert (Hg : (L - q - (1 # 268435456) <= g /\ g <= L - q + (1 # 268435456))%Q).
      { rewrite Ed. set (c := (L - q)%Q) in *.
        assert (Hc : (0 <= c /\ c <= 33554432)%Q) by (unfold c; lra).
        clearbody c. clear - Hc Hd1 Hd2.
        assert (0 <= c * (d + (1 # 9007199254740992)))%Q by nra.
        assert (0 <= c * ((1 # 9007199254740992) - d))%Q by nra.
        split; nra. }
      split; lra.
    + destruct (fl_rel (fl v + q)) as (d & Ed & Hd1 & Hd2).
      pose proof (fl_sum_above v q Hpos Hq) as Hle.
      set (low := fl v) in *. clearbody low.
      set (s := fl (low + q)) in *. clearbody s.
      rewrite !py_int_floor by lra.
      pose proof (Qfloor_le s). pose proof (Qlt_floor s) as Hfs.
      pose proof (Qfloor_le low). pose proof (Qlt_floor low) as Hfl.
      rewrite inject_Z_plus in Hfs, Hfl. change (inject_Z 1) with 1%Q in Hfs, Hfl.
      unfold Z.sub. rewrite inject_Z_plus, inject_Z_opp.
      set (L := inject_Z lim) in *. clearbody L.
      set (c := (low + q)%Q) in *.
      assert (Hc0 : (0 <= c)%Q) by (unfold c; lra).
      assert (Hsum : (c <= 2 * L)%Q).
      { assert (c * (1 # 2) <= s)%Q.
        { rewrite Ed. clear - Hc0 Hd1 Hd2.
          assert (0 <= c * (d + (1 # 9007199254740992)))%Q by nra. nra. }
        lra. }
      assert (Hs : (c - (1 # 134217728) <= s /\ s <= c + (1 # 134217728))%Q).
      { rewrite Ed. assert (Hc : (c <= 67108864)%Q) by lra.
        clear - Hc Hc0 Hd1 Hd2.
        assert (0 <= c * (d + (1 # 9007199254740992)))%Q by nra.
        assert (0 <= c * ((1 # 9007199254740992) - d))%Q by nra.
        split; nra. }
      unfold c in Hs.
      split; lra.
Qed.

(** The frame after the two tests keeps the ratio asked for: a side a
    scaling computed is the exact one up to the rounding of the floats. *)
Lemma stdsize_frame_ratio (W H x y : Z) :
  0 < W <= 2 ^ 25 -> 0 < H <= 2 ^ 25 -> 0 < x -> 0 < y ->
  let fr := stdsize_frame W H x y in
  let u := (1 # 9007199254740992)%Q in
  fr = (Int x, Int y) \/
  (exists q, fr = (Int W, Float q) /\
     (- (u * (inject_Z y * inject_Z W)) <= q * inject_Z x - inject_Z y * inject_Z W)%Q /\
     (q * inject_Z x - inject_Z y * inject_Z W <= u * (inject_Z y * inject_Z W))%Q) \/
  (exists q, fr = (Float q, Int H) /\
     (- (4 * u * (inject_Z x * inject_Z H)) <= q * inject_Z y - inject_Z x * inject_Z H)%Q /\
     (q * inject_Z y - inject_Z x * inject_Z H <= 4 * u * (inject_Z x * inject_Z H))%Q).
Proof.
  intros HW HH Hx Hy. cbv zeta. unfold stdsize_frame.
  assert (HWq : (0 < inject_Z W)%Q) by (change 0%Q with (inject_Z 0); rewrite <- Zlt_Qlt; lia).
  assert (HHq : (0 < inject_Z H)%Q) by (change 0%Q with (inject_Z 0); rewrite <- Zlt_Qlt; lia).
  assert (Hxq : (0 < inject_Z x)%Q) by (change 0%Q with (inject_Z 0); rewrite <- Zlt_Qlt; lia).
  assert (Hyq : (0 < inject_Z y)%Q) by (change 0%Q with (inject_Z 0); rewrite <- Zlt_Qlt; lia).
  set (Wq := inject_Z W) in *. set (Hq := inject_Z H) in *.
  set (X := inject_Z x) in *. set (Y := inject_Z y) in *.
  destruct (Z.ltb_spec W x) as [Hwide|Hnarrow]; cbn [fst snd number_Q].
  - (* too wide: the height follows *)
    destruct (fl_rel (inject_Z (y * W) / X)) as (d1 & E1 & Hd1 & Hd1').
    set (y1 := fl (inject_Z (y * W) / X)) in *.
    rewrite inject_Z_mult in E1. fold Y Wq in E1.
    assert (Hy1 : (0 < y1)%Q).
    { unfold y1. apply fl_pos. rewrite inject_Z_mult. fold Y Wq.
      apply Qlt_shift_div_l; [done|]. nra. }
    clearbody y1.
    assert (Ey1 : (y1 * X == Y * Wq * (1 + d1))%Q) by (rewrite E1; field; lra).
    assert (HP : (0 < Y * Wq)%Q) by nra.
    destruct (Qltb_spec Hq y1) as [Htall|Hshort]; cbn [fst snd number_Q quotient].
    + right. right. eexists. split; [reflexivity|].
      assert (EWH : (to_float (W * H) == Wq * Hq)%Q).
      { rewrite to_float_exact; [unfold Wq, Hq; by rewrite inject_Z_mult|].
        pose proof (product_bound W H (2 ^ 25) (2 ^ 25)). lia. }
      destruct (fl_rel (to_float (W * H) / y1)) as (d2 & E2 & Hd2 & Hd2').
      set (x' := fl (to_float (W * H) / y1)) in *. clearbody x'.
      rewrite EWH in E2.
      set (c := (/ (1 + d1))%Q).
      assert (Hc : (c * (1 + d1) == 1)%Q) by (unfold c; field; lra).
      assert (Hc2 : (0 < c /\ c <= 2)%Q).
      { clearbody c. clear - Hc Hd1 Hd1'. split; nra. }
      assert (E : (x' * Y - X * Hq == X * Hq * ((d2 - d1) * c))%Q).
      { assert (Ey : (y1 == Y * Wq * (1 + d1) / X)%Q) by (rewrite <- Ey1; field; lra).
        rewrite E2, Ey. unfold c. field. repeat split; lra. }
      rewrite E. clearbody c.
      set (t := ((d2 - d1) * c)%Q).
      assert (Ht : (- (4 # 9007199254740992) <= t /\ t <= 4 # 9007199254740992)%Q).
      { unfold t. clear - Hc2 Hd1 Hd1' Hd2 Hd2'.
        set (e := (d2 - d1)%Q).
        assert (He : (- (2 # 9007199254740992) <= e /\ e <= 2 # 9007199254740992)%Q)
          by (unfold e; lra).
        clearbody e.
        assert (0 <= c * (e + (2 # 9007199254740992)))%Q by nra.
        assert (0 <= c * ((2 # 9007199254740992) - e))%Q by nra.
        split; nra. }
      clearbody t.
      assert (HP' : (0 < X * Hq)%Q) by nra.
      set (P := (X * Hq)%Q) in *. clearbody P. clear - Ht HP'.
      assert (0 <= P * (t + (4 # 9007199254740992)))%Q by nra.
      assert (0 <= P * ((4 # 9007199254740992) - t))%Q by nra.
      split; nra.
    + right. left. exists y1. split; [reflexivity|].
      rewrite Ey1. set (P := (Y * Wq)%Q) in *. clearbody P. clear - HP Hd1 Hd1'.
      assert (0 <= P * (d1 + (1 # 9007199254740992)))%Q by nra.
      assert (0 <= P * ((1 # 9007199254740992) - d1))%Q by nra.
      split; nra.
  - unfold Hq, Y. rewrite Qltb_inject. fold Hq Y.
    destruct (Z.ltb_spec H y) as [Htall|Hshort]; cbn [fst snd number_Q quotient].
    + right. right. eexists. split; [reflexivity|].
      destruct (fl_rel (inject_Z (x * H) / inject_Z y)) as (d & E & Hd & Hd').
      set (x' := fl (inject_Z (x * H) / inject_Z y)) in *. clearbody x'.
      rewrite inject_Z_mult in E. fold X Hq Y in E.
      assert (Ex : (x' * Y - X * Hq == X * Hq * d)%Q) by (rewrite E; field; lra).
      rewrite Ex.
      assert (HP' : (0 < X * Hq)%Q) by nra.
      set (P := (X * Hq)%Q) in *. clearbody P. clear - Hd Hd' HP'.
      assert (0 <= P * (d + (1 # 9007199254740992)))%Q by nra.
      assert (0 <= P * ((1 # 9007199254740992) - d))%Q by nra.
      split; nra.
    + by left.
Qed.

(** A side stored from a float within [1 + 2 ^ -27] of a length [q], next to
    a side that is exact: the cross product with the frame is off by less
    than the side of the frame plus one. *)
Lemma cross_bound (len a b : Z) (q : Q) (k : Q) :
  0 < a <= 2 ^ 25 ->
  (q - 1 - (1 # 134217728) < inject_Z len)%Q ->
  (inject_Z len < q + 1 + (1 # 134217728))%Q ->
  (0 <= k)%Q -> (k <= 1 # 2)%Q ->
  (- k <= q * inject_Z a - inject_Z b)%Q -> (q * inject_Z a - inject_Z b <= k)%Q ->
  Z.abs (len * a - b) <= a.
Proof.
  intros Ha Hlo Hhi Hk0 Hk Hq1 Hq2.
  assert (HA : (0 < inject_Z a /\ inject_Z a <= 33554432)%Q).
  { change 0%Q with (inject_Z 0). change 33554432%Q with (inject_Z (2 ^ 25)).
    rewrite <- Zlt_Qlt, <- Zle_Qle. lia. }
  assert (G : (inject_Z (len * a - b) < inject_Z (a + 1))%Q /\
              (inject_Z (- (a + 1)) < inject_Z (len * a - b))%Q).
  { unfold Z.sub. rewrite inject_Z_opp, !inject_Z_plus, inject_Z_opp, inject_Z_mult.
    change (inject_Z 1) with 1%Q.
    set (A := inject_Z a) in *. set (B := inject_Z b) in *. set (L := inject_Z len) in *.
    clearbody A B L.
    set (e := (L - q)%Q).
    assert (He : (- (1 + (1 # 134217728)) < e /\ e < 1 + (1 # 134217728))%Q)
      by (unfold e; lra).
    assert (E : (L * A + - B == e * A + (q * A - B))%Q) by (unfold e; ring).
    rewrite E. clearbody e.
    assert (0 <= A * (e + (1 + (1 # 134217728))))%Q by nra.
    assert (0 <= A * ((1 + (1 # 134217728)) - e))%Q by nra.
    split; nra. }
  destruct G as [G1 G2]. rewrite <- Zlt_Qlt in G1, G2. lia.
Qed.

(** X26. On an image of at most [2 ^ 25] pixels a side with granularity
    1, [set_stdsize] with a frame of positive width and height returns and
    stores a rectangle that lies in the image; when the frame asked for does
    not fit, the rectangle has the whole width or the whole height of the
    image; and for a frame of at most [2 ^ 25] pixels a side the rectangle
    has the ratio of the frame up to the truncation of its edges:
    [|w' * y - h' * x| <= max x y].  The side a scaling computes is a float,
    and so are the edges derived from it: each quotient, sum and difference
    is rounded to 53 bits, and the edges are truncated when they are
    stored. *)
Theorem set_stdsize_scales_frame self (W H rot t l r b x y : Z) :
  loaded self W H 1 1 rot -> corners_are self t l r b ->
  0 < W <= 2 ^ 25 -> 0 < H <= 2 ^ 25 -> 0 < x -> 0 < y ->
  exists self' t' l' r' b',
    set_stdsize x y self = (Return tt, self') /\
    corners_are self' t' l' r' b' /\
    (0 <= l' <= r' /\ r' <= W) /\ (0 <= t' <= b' /\ b' <= H) /\
    (W < x \/ H < y -> (l' = 0 /\ r' = W) \/ (t' = 0 /\ b' = H)) /\
    (x <= 2 ^ 25 -> y <= 2 ^ 25 ->
     Z.abs ((r' - l') * y - (b' - t') * x) <= Z.max x y).
Proof.
  intros Hld Hc HW HH Hx Hy.
  rewrite (set_stdsize_run self W H 1 1 rot t l r b x y) by (done || lia).
  cbv zeta.
  assert (H25 : 2 ^ 25 < 2 ^ 53) by reflexivity.
  destruct (stdsize_frame_fits W H x y HW HH Hx Hy) as (Hfx & Hfy & Hfill).
  pose proof (stdsize_frame_ratio W H x y HW HH Hx Hy) as Hratio.
  cbv zeta in Hfx, Hfy, Hfill, Hratio.
  set (fr := stdsize_frame W H x y) in *.
  pose proof (stdsize_axis_inside W l r fr.1 ltac:(lia) (proj1 Hfx) (proj2 Hfx)) as [Hh Hhw].
  pose proof (stdsize_axis_inside H t b fr.2 ltac:(lia) (proj1 Hfy) (proj2 Hfy)) as [Hv Hvw].
  cbv zeta in Hh, Hhw, Hv, Hvw.
  assert (Hcross : x <= 2 ^ 25 -> y <= 2 ^ 25 ->
    Z.abs ((py_int (stdsize_axis W l r fr.1).2 - py_int (stdsize_axis W l r fr.1).1) * y
           - (py_int (stdsize_axis H t b fr.2).2 - py_int (stdsize_axis H t b fr.2).1) * x)
    <= Z.max x y).
  { intros Hx25 Hy25.
    assert (HWq : (0 < inject_Z W /\ inject_Z W <= 33554432)%Q).
    { change 0%Q with (inject_Z 0). change 33554432%Q with (inject_Z (2 ^ 25)).
      rewrite <- Zlt_Qlt, <- Zle_Qle. lia. }
    assert (HHq : (0 < inject_Z H /\ inject_Z H <= 33554432)%Q).
    { change 0%Q with (inject_Z 0). change 33554432%Q with (inject_Z (2 ^ 25)).
      rewrite <- Zlt_Qlt, <- Zle_Qle. lia. }
    assert (Hxq : (0 < inject_Z x /\ inject_Z x <= 33554432)%Q).
    { change 0%Q with (inject_Z 0). change 33554432%Q with (inject_Z (2 ^ 25)).
      rewrite <- Zlt_Qlt, <- Zle_Qle. lia. }
    assert (Hyq : (0 < inject_Z y /\ inject_Z y <= 33554432)%Q).
    { change 0%Q with (inject_Z 0). change 33554432%Q with (inject_Z (2 ^ 25)).
      rewrite <- Zlt_Qlt, <- Zle_Qle. lia. }
    destruct Hratio as [E|[(q & E & Hq1 & Hq2)|(q & E & Hq1 & Hq2)]];
      rewrite E in *; cbn [fst snd number_Q] in *.
    - (* the frame fits *)
      assert (Hxw : 0 < x <= W) by (rewrite <- Zle_Qle in Hfx; lia).
      assert (Hyh : 0 < y <= H) by (rewrite <- Zle_Qle in Hfy; lia).
      pose proof (stdsize_axis_int W l r x Hxw) as (_ & -> & _).
      pose proof (stdsize_axis_int H t b y Hyh) as (_ & -> & _).
      lia.
    - (* the height was scaled *)
      pose proof (stdsize_axis_int W l r W ltac:(lia)) as (_ & -> & _).
      pose proof (stdsize_axis_float_length H t b q HH (proj1 Hfy) (proj2 Hfy)) as [Hl1 Hl2].
      cbv zeta in Hl1, Hl2.
      set (len := py_int (stdsize_axis H t b (Float q)).2
                  - py_int (stdsize_axis H t b (Float q)).1) in *.
      replace (py_int (stdsize_axis W l r (Int W)).1 + W
               - py_int (stdsize_axis W l r (Int W)).1) with W by lia.
      pose proof (cross_bound len x (W * y) q ((1 # 9007199254740992) * (inject_Z y * inject_Z W))
                    ltac:(lia) Hl1 Hl2) as Hb.
      rewrite inject_Z_mult in Hb.
      lapply Hb; [clear Hb; intros Hb|nra].
      lapply Hb; [clear Hb; intros Hb|nra].
      lapply Hb; [clear Hb; intros Hb|lra].
      lapply Hb; [clear Hb; intros Hb|lra].
      lia.
    - (* the width was scaled *)
      pose proof (stdsize_axis_int H t b H ltac:(lia)) as (_ & -> & _).
      pose proof (stdsize_axis_float_length W l r q HW (proj1 Hfx) (proj2 Hfx)) as [Hl1 Hl2].
      cbv zeta in Hl1, Hl2.
      set (len := py_int (stdsize_axis W l r (Float q)).2
                  - py_int (stdsize_axis W l r (Float q)).1) in *.
      replace (py_int (stdsize_axis H t b (Int H)).1 + H
               - py_int (stdsize_axis H t b (Int H)).1) with H by lia.
      pose proof (cross_bound len y (H * x) q
                    (4 * (1 # 9007199254740992) * (inject_Z x * inject_Z H))
                    ltac:(lia) Hl1 Hl2) as Hb.
      rewrite inject_Z_mult in Hb.
      lapply Hb; [clear Hb; intros Hb|nra].
      lapply Hb; [clear Hb; intros Hb|nra].
      lapply Hb; [clear Hb; intros Hb|lra].
      lapply Hb; [clear Hb; intros Hb|lra].
      lia. }
  set (lr := stdsize_axis W l r fr.1) in *.
  set (tb := stdsize_axis H t b fr.2) in *.
  destruct (set_crop_sorted self W H 1 1 rot (py_int tb.1) (py_int lr.1)
              (py_int lr.2) (py_int tb.2))
    as (self' & Hrun & Hcorners & _); [done|lia|lia|lia|lia|].
  rewrite (anchor_aligned (py_int tb.1) H 1) in Hcorners
    by (try lia; destruct (reverse_y rot); apply Z.divide_1_l).
  rewrite (anchor_aligned (py_int lr.1) W 1) in Hcorners
    by (try lia; destruct (reverse_x rot); apply Z.divide_1_l).
  exists self', (py_int tb.1), (py_int lr.1), (py_int lr.2), (py_int tb.2).
  split; [done|]. split; [done|]. split; [lia|]. split; [lia|].
  split; [|exact Hcross].
  intros Hbig. destruct (Hfill Hbig) as [E|E]; [left; by apply Hhw|right; by apply Hvw].
Qed.

(** The instance: on a 640 x 480 image with the full rectangle,
    [set_stdsize(660, 720)] scales the height to the float of
    [720 * 640 / 660], then the width to [440.00000000000006]; the left edge
    is the float [99.99999999999997], stored as 99, and the right edge 540. *)
Lemma set_stdsize_scales_frame_witness :
  let self := manager (drawing 640 480) 640 480 1 1 1 in
  exists self' t' l' r' b',
    set_stdsize 660 720 self = (Return tt, self') /\
    corners_are self' t' l' r' b' /\
    (0 <= l' <= r' /\ r' <= 640) /\ (0 <= t' <= b' /\ b' <= 480) /\
    (640 < 660 \/ 480 < 720 -> (l' = 0 /\ r' = 640) \/ (t' = 0 /\ b' = 480)) /\
    (660 <= 2 ^ 25 -> 720 <= 2 ^ 25 ->
     Z.abs ((r' - l') * 720 - (b' - t') * 660) <= Z.max 660 720).
Proof.
  intros self. apply (set_stdsize_scales_frame self 640 480 1 0 0 640 480 660 720).
  - split; vm_compute; reflexivity.
  - split; vm_compute; reflexivity.
  - lia.
  - lia.
  - lia.
  - lia.
Defined.

(** What that call stores. *)
Example set_stdsize_in_floats :
  corners_are (after (set_stdsize 660 720) (manager (drawing 640 480) 640 480 1 1 1))
              0 99 540 480.
Proof. split; vm_compute; reflexivity. Qed.
